(** * Battery voltage models of ssc (shared/lib_battery_voltage.cpp) and the
      connection guard of the resilience driver (shared/lib_resilience.cpp)

    The C++ code computes on [double].  The embedding below reads every
    [double] as a real number ([R]): rounding, NaN and the infinities are
    outside the model, and a division by zero takes the value the Standard
    Library gives it.  The one exception is the quotient [initialize] of the
    Table variant tests before it accepts a table: there a division by zero
    is kept apart as a value that is no real number, and for a table
    accepted with such a value [initialize] returns [Ok None], no model over
    the real numbers.  [int] fields are integers ([Z]) injected with [IZR]
    where the source converts them to [double].  A [throw] is the [Throw]
    constructor of [result], carrying the message of the exception. *)

From Stdlib Require Import String Reals Lra Lia List ZArith Bool.
From Stdlib Require Import Permutation Sorted DecimalString.
Import ListNotations.
Open Scope R_scope.

(** ** Doubles, comparisons and exceptions *)

Definition dlt (x y : R) : bool := if Rlt_dec x y then true else false.
Definition dle (x y : R) : bool := if Rle_dec x y then true else false.
Definition deq (x y : R) : bool := if Req_dec_T x y then true else false.
Definition dgt (x y : R) : bool := dlt y x.
Definition dge (x y : R) : bool := dle y x.

Definition fmax (x y : R) : R := Rmax x y.
Definition fmin (x y : R) : R := Rmin x y.
Definition fabs (x : R) : R := Rabs x.

Inductive result (A : Type) : Type :=
| Ok (a : A)
| Throw (what : string).
Arguments Ok {A} a.
Arguments Throw {A} what.

Definition bind {A B : Type} (r : result A) (k : A -> result B) : result B :=
  match r with
  | Ok a => k a
  | Throw what => Throw what
  end.

Notation "'do' x <- r ; k" := (bind r (fun x => k))
  (at level 10, x pattern, r at level 100, k at level 200).

(** ** Parameters and state shared by the three variants *)

Inductive MODE : Type := MODEL | TABLE.

Record dynamic_params : Type := {
  Vfull : R;
  Vexp : R;
  Vnom : R;
  Vcut : R;
  Qfull : R;
  Qexp : R;
  Qnom : R;
  C_rate : R
}.

Record voltage_params : Type := {
  voltage_choice : MODE;
  num_cells_series : Z;
  num_strings : Z;
  Vnom_default : R;
  resistance : R;
  dt_hr : R;
  voltage_table : list (list R);
  dynamic : dynamic_params
}.

Record voltage_state : Type := {
  cell_voltage : R;
  Q_full_mod : R
}.

(** [row[c]] of a [std::vector<double>]; the table rows are only ever read at
    columns 0 and 1. *)
Definition col (c : nat) (row : list R) : R := nth c row 0.

(** [table[r][c]] *)
Definition cell (table : list (list R)) (r c : nat) : R := col c (nth r table []).

Definition set_voltage_table (p : voltage_params) (t : list (list R)) : voltage_params :=
  {| voltage_choice := voltage_choice p;
     num_cells_series := num_cells_series p;
     num_strings := num_strings p;
     Vnom_default := Vnom_default p;
     resistance := resistance p;
     dt_hr := dt_hr p;
     voltage_table := t;
     dynamic := dynamic p |}.

Definition set_cell_voltage (s : voltage_state) (v : R) : voltage_state :=
  {| cell_voltage := v; Q_full_mod := Q_full_mod s |}.

Module voltage_t.

(** [voltage_t::initialize] *)
Definition initialize (p : voltage_params) : voltage_state :=
  {| cell_voltage := Vnom_default p; Q_full_mod := Qfull (dynamic p) |}.

(** [voltage_t::battery_voltage] *)
Definition battery_voltage (p : voltage_params) (s : voltage_state) : R :=
  IZR (num_cells_series p) * cell_voltage s.

(** [voltage_t::battery_voltage_nominal] *)
Definition battery_voltage_nominal (p : voltage_params) : R :=
  IZR (num_cells_series p) * Vnom_default p.

End voltage_t.

(** [calc_DOD]: depth of discharge from the present and the maximum charge. *)
Definition calc_DOD (q qmax : R) : R := (1 - q / qmax) * 100.

(** ** Table-interpolation variant *)

Module voltage_table_t.

Record t : Type := {
  params : voltage_params;
  state : voltage_state;
  slopes : list R;
  intercepts : list R
}.

Definition set_state (m : t) (s : voltage_state) : t :=
  {| params := params m; state := s; slopes := slopes m; intercepts := intercepts m |}.

(** [std::sort] with the comparator [a[1] > b[1]]: rows in descending order
    of voltage.  Rows of equal voltage may leave [std::sort] in any order, and
    [initialize] ends the same way for each of them: among such rows two
    neighbours at different depths of discharge are rejected, and rows at the
    same depth of discharge are equal rows. *)
Fixpoint insert_row (a : list R) (rows : list (list R)) : list (list R) :=
  match rows with
  | [] => [a]
  | b :: rest => if dgt (col 1 b) (col 1 a) then b :: insert_row a rest else a :: b :: rest
  end.

Fixpoint sort_rows (rows : list (list R)) : list (list R) :=
  match rows with
  | [] => []
  | a :: rest => insert_row a (sort_rows rest)
  end.

(** The locals of [initialize] and the two vectors while the loop fills
    them.  An entry of a vector is [None] where the source holds an infinity
    or a NaN. *)
Record scan : Type := {
  need_less_than_nom : bool;
  need_greater_than_nom : bool;
  scan_slopes : list (option R);
  scan_intercepts : list (option R)
}.

(** The entries of a vector, when all of them are real numbers. *)
Fixpoint reals (v : list (option R)) : option (list R) :=
  match v with
  | [] => Some []
  | Some x :: rest =>
      match reals rest with
      | Some l => Some (x :: l)
      | None => None
      end
  | None :: _ => None
  end.

(** One pass of the [for] loop of [initialize]; [prev] is row [i - 1], absent
    at [i = 0].  Where row [i] and row [i - 1] are at the same depth of
    discharge the quotient of the source is an infinity, or a NaN when the
    voltages are equal too; the intercept computed from it is no real number
    either, [fabs(slope) < 1e-7] is false on both, and the loop goes on. *)
Definition scan_row (Vnom_d : R) (prev : option (list R)) (row : list R) (acc : scan)
  : result scan :=
  let DOD := col 0 row in
  let V := col 1 row in
  let '(less, greater) :=
    if need_less_than_nom acc && dlt V Vnom_d then (false, need_greater_than_nom acc)
    else if need_greater_than_nom acc && dgt V Vnom_d then (need_less_than_nom acc, false)
    else (need_less_than_nom acc, need_greater_than_nom acc) in
  let emplace slope intercept :=
    {| need_less_than_nom := less;
       need_greater_than_nom := greater;
       scan_slopes := scan_slopes acc ++ [slope];
       scan_intercepts := scan_intercepts acc ++ [intercept] |} in
  match prev with
  | None => Ok (emplace (Some 0) (Some V))
  | Some row0 =>
      let DOD0 := col 0 row0 in
      let V0 := col 1 row0 in
      if deq (DOD - DOD0) 0
      then Ok (emplace None None)
      else
        let slope := (V - V0) / (DOD - DOD0) in
        let intercept := V0 - slope * DOD0 in
        if dlt (fabs slope) (1 / 10 ^ 7)
        then Throw "voltage_table_t error: Battery voltage matrix cannot have two identical voltages."
        else Ok (emplace (Some slope) (Some intercept))
  end.

Fixpoint scan_rows (Vnom_d : R) (prev : option (list R)) (rows : list (list R)) (acc : scan)
  : result scan :=
  match rows with
  | [] => Ok acc
  | row :: rest =>
      do acc' <- scan_row Vnom_d prev row acc;
      scan_rows Vnom_d (Some row) rest acc'
  end.

(** [voltage_table_t::initialize], run by the constructors after
    [voltage_t::initialize]; the members [slopes] and [intercepts] start
    empty.  The source accepts a table that passes every check with a slope
    or an intercept that is no real number; the result is [Ok None] there,
    and [Ok (Some m)] for the model [m] of a table whose slopes and
    intercepts are all real numbers. *)
Definition initialize (p : voltage_params) : result (option t) :=
  match voltage_table p with
  | [] => Throw "voltage_table_t error: Empty voltage table."
  | row0 :: _ =>
      if (length (voltage_table p) <? 2)%nat || negb (length row0 =? 2)%nat
      then Throw "voltage_table_t error: Battery voltage matrix must have 2 columns and at least 2 rows."
      else
        let sorted := sort_rows (voltage_table p) in
        do acc <- scan_rows (Vnom_default p) None sorted
                    {| need_less_than_nom := true; need_greater_than_nom := true;
                       scan_slopes := []; scan_intercepts := [] |};
        if need_less_than_nom acc
        then Throw "voltage_table_t error: Voltage table contains no voltages less than the nominal voltage. Change either the values in the voltage table or the nominal voltage."
        else if need_greater_than_nom acc
        then Throw "voltage_table_t error: Voltage table contains no voltages greater than nominal voltage. Change either the values in the voltage table or the nominal voltage.e"
        else
          match reals (scan_slopes acc), reals (scan_intercepts acc) with
          | Some s, Some i =>
              Ok (Some {| params := set_voltage_table p sorted;
                          state := voltage_t.initialize p;
                          slopes := s ++ [last s 0];
                          intercepts := i ++ [last i 0] |})
          | _, _ => Ok None
          end
  end.

(** The [while] loop shared by [calculate_voltage] and
    [calculate_current_for_target_w]: the first row whose depth of discharge
    is not below [DOD], or the number of rows. *)
Fixpoint find_row (rows : list (list R)) (DOD : R) (row : nat) : nat :=
  match rows with
  | [] => row
  | r :: rest => if dgt DOD (col 0 r) then find_row rest DOD (S row) else row
  end.

(** [voltage_table_t::calculate_voltage] *)
Definition calculate_voltage (m : t) (DOD : R) : R :=
  let DOD := fmax 0 DOD in
  let DOD := fmin DOD 100 in
  let row := find_row (voltage_table (params m)) DOD 0 in
  fmax (nth row (slopes m) 0 * DOD + nth row (intercepts m) 0) 0.

(** [voltage_table_t::set_initial_SOC] *)
Definition set_initial_SOC (m : t) (init_soc : R) : t :=
  set_state m (set_cell_voltage (state m) (calculate_voltage m (100 - init_soc))).

(** [voltage_table_t::calculate_voltage_for_current] *)
Definition calculate_voltage_for_current (m : t) (I q qmax T : R) : R :=
  let DOD := (q - I * dt_hr (params m)) / qmax * 100 in
  calculate_voltage m DOD * IZR (num_cells_series (params m)).

(** [voltage_table_t::updateVoltage]; the current, the temperature and the
    time step are unnamed parameters in the source. *)
Definition updateVoltage (m : t) (q qmax I temp dt : R) : t :=
  let DOD := 100 * (1 - q / qmax) in
  set_state m (set_cell_voltage (state m) (calculate_voltage m DOD)).

(** [voltage_table_t::calculate_max_charge_w]: the power and the value
    written through [max_current]. *)
Definition calculate_max_charge_w (m : t) (q qmax T : R) : R * R :=
  let current := (q - qmax) / dt_hr (params m) in
  (calculate_voltage m 0 * current * IZR (num_cells_series (params m)), current).

(** Body of the [for] loop of [calculate_max_discharge_w] at segment [i];
    the accumulator is [(max_P, max_I)]. *)
Definition max_discharge_step (m : t) (qmax DOD0 A B : R) (acc : R * R) (i : nat) : R * R :=
  let '(max_P, max_I) := acc in
  let dod := - (A * nth i (slopes m) 0 + B * nth i (intercepts m) 0)
             / (2 * B * nth i (slopes m) 0) in
  let dod := fmin 100 dod in
  let dod := fmax 0 dod in
  let current := qmax * ((1 - DOD0 / 100) - (1 - dod / 100)) / dt_hr (params m) in
  let p := calculate_voltage m dod * current in
  if dgt p max_P then (p, current) else (max_P, max_I).

(** [voltage_table_t::calculate_max_discharge_w]: the power and the value
    written through [max_current]. *)
Definition calculate_max_discharge_w (m : t) (q qmax T : R) : R * R :=
  let DOD0 := calc_DOD q qmax in
  let A := q - qmax in
  let B := qmax / 100 in
  let '(max_P, max_I) :=
    fold_left (max_discharge_step m qmax DOD0 A B) (seq 0 (length (slopes m))) (0, 0) in
  (max_P * IZR (num_cells_series (params m)), fmax 0 max_I).

(** The indices [i = row + incr] the [while] loop of
    [calculate_current_for_target_w] visits: upwards from [row] to the last
    segment when [multiplier] is 1, downwards from [row] to 0 when it is -1.
    Nothing is visited when [row] is not below the number of segments. *)
Definition visited (discharging : bool) (row n : nat) : list nat :=
  if (row <? n)%nat
  then if discharging then seq row (n - row) else rev (seq 0 (S row))
  else [].

(** Body of that loop at segment [i]; the accumulator is
    [(P_best, DOD_best)].  [P_watts] is already per cell and multiplied by
    the time step.  At [i = 0] the [i - 1] of the source wraps around in
    [size_t]; [initialize] stores the slope 0 for segment 0, so [a] is 0 there
    and the loop continues before any row is read.  Where [b*b - 4*a*c] is
    negative the [sqrt] of the source is NaN and the range test fails; the
    [sqrt] of the model is 0 there. *)
Definition target_step (m : t) (P_watts q qmax A B : R) (acc : R * R) (i : nat) : R * R :=
  let '(P_best, DOD_best) := acc in
  let a := B * nth i (slopes m) 0 in
  let b := A * nth i (slopes m) 0 + B * nth i (intercepts m) 0 in
  let c := A * nth i (intercepts m) 0 - P_watts in
  if deq a 0 then acc
  else
    let DOD_new := Rabs ((- b + sqrt (b * b - 4 * a * c)) / (2 * a)) in
    let upper := Nat.min i (length (voltage_table (params m)) - 1) in
    let lower := (i - 1)%nat in
    let DOD_upper := cell (voltage_table (params m)) upper 0 in
    let DOD_lower := cell (voltage_table (params m)) lower 0 in
    if dle DOD_new DOD_upper && dge DOD_new DOD_lower
    then
      let P := (q - (100 - DOD_new) * qmax / 100) * (a * DOD_new + b) in
      if dgt (Rabs P) (Rabs P_best) then (P, DOD_new) else acc
    else acc.

(** [voltage_table_t::calculate_current_for_target_w] *)
Definition calculate_current_for_target_w (m : t) (P_watts q qmax T : R) : R :=
  let DOD := calc_DOD q qmax in
  if deq P_watts 0 then 0
  else
    let '(max_p, current) :=
      if dlt P_watts 0 then calculate_max_charge_w m q qmax 0
      else calculate_max_discharge_w m q qmax 0 in
    if dle (Rabs max_p) (Rabs P_watts) then current
    else
      let P_watts := P_watts / IZR (num_cells_series (params m)) in
      let P_watts := P_watts * dt_hr (params m) in
      let discharging := negb (dlt P_watts 0) in
      let row := find_row (voltage_table (params m)) DOD 0 in
      let A := q - qmax in
      let B := qmax / 100 in
      let DOD_best := if discharging then 100 else 0 in
      let '(_, DOD_best) :=
        fold_left (target_step m P_watts q qmax A B)
                  (visited discharging row (length (slopes m))) (0, DOD_best) in
      qmax * ((1 - DOD / 100) - (1 - DOD_best / 100)) / dt_hr (params m).

End voltage_table_t.

(** ** Collaborators that are declared outside the modelled files

    [tolerance] is a global constant of the battery library and [newton] is
    the root finder of [6par_newton.h]; both are parameters here.  [newton f
    x0 maxiter ftol xtol stpmx] stands for the value the solver leaves in
    [x[0]] when started from [x0] on the one-dimensional residual [f]; its
    callers read nothing else (the flag it returns, [check] and [resid] are
    dropped). *)

Definition root_finder : Type := (R -> R) -> R -> nat -> R -> R -> R -> R.

(** Modelled from the spec: the root finder iterates from the initial guess
    towards a zero of the residual and returns its last iterate.  The one
    consequence used below is that a guess whose residual is already zero is
    returned as it is. *)
Definition stays_at_root (newton : root_finder) : Prop :=
  forall (f : R -> R) (x0 : R) (maxiter : nat) (ftol xtol stpmx : R),
    f x0 = 0 -> newton f x0 maxiter ftol xtol stpmx = x0.

(** ** Dynamic (Tremblay) variant *)

Module voltage_dynamic_t.

Record t : Type := {
  params : voltage_params;
  state : voltage_state;
  _A : R;
  _B0 : R;
  _K : R;
  _E0 : R
}.

Definition set_state (m : t) (s : voltage_state) : t :=
  {| params := params m; state := s;
     _A := _A m; _B0 := _B0 m; _K := _K m; _E0 := _E0 m |}.

(** The fixed first line of the message [parameter_compute] formats; the
    four numbers [sprintf] appends to it are left out. *)
Definition negative_constants_message : string :=
  "Error during calculation of battery voltage model parameters: negative value(s) found.".

(** The message of the ordering check of [initialize]. *)
Definition ordering_message : string :=
  "voltage_dynamic_t error: For the electrochemical battery voltage model, voltage inputs must meet the requirement Vfull > Vexp > Vnom > Vcut.".

(** [voltage_dynamic_t::parameter_compute] *)
Definition parameter_compute (p : voltage_params) (s : voltage_state) : result t :=
  let d := dynamic p in
  let I := Qfull d * C_rate d in
  let A := Vfull d - Vexp d in
  let B0 := 3 / Qexp d in
  let K := ((Vfull d - Vnom d + A * (exp (- B0 * Qnom d) - 1)) * (Qfull d - Qnom d))
           / Qnom d in
  let E0 := Vfull d + K + resistance p * I - A in
  if dlt A 0 || dlt B0 0 || dlt K 0 || dlt E0 0
  then Throw negative_constants_message
  else Ok {| params := p; state := s; _A := A; _B0 := B0; _K := K; _E0 := E0 |}.

(** [voltage_dynamic_t::initialize], on the state [voltage_t::initialize]
    left. *)
Definition initialize (p : voltage_params) : result t :=
  let d := dynamic p in
  if dlt (Vfull d) (Vexp d) || dlt (Vexp d) (Vnom d) || dlt (Vnom d) (Vcut d)
  then Throw ordering_message
  else
    parameter_compute p {| cell_voltage := Vfull d; Q_full_mod := Qfull d |}.

(** The constructor from raw arguments: [voltage_t]'s constructor fills the
    shared fields, the body the dynamic ones, then [initialize] runs. *)
Definition construct (num_cells_series num_strings : Z)
    (voltage Vfull Vexp Vnom Qfull Qexp Qnom Vcut C_rate R dt_hr : R) : result t :=
  initialize
    {| voltage_choice := MODEL;
       num_cells_series := num_cells_series;
       num_strings := num_strings;
       Vnom_default := voltage;
       resistance := R;
       dt_hr := dt_hr;
       voltage_table := [];
       dynamic := {| Vfull := Vfull; Vexp := Vexp; Vnom := Vnom; Vcut := Vcut;
                     Qfull := Qfull; Qexp := Qexp; Qnom := Qnom; C_rate := C_rate |} |}.

(** [voltage_dynamic_t::calculate_Qfull_mod] *)
Definition calculate_Qfull_mod (m : t) (qmax : R) : R :=
  let d := dynamic (params m) in
  if negb (deq (Vcut d) 0)
  then
    let C := (-1 * Vcut d + _E0 m - resistance (params m) * qmax * C_rate d
              + _A m * exp (- _B0 m * qmax)) / _K m in
    let x := qmax / (C - 1) in
    qmax + x
  else qmax.

(** [voltage_dynamic_t::voltage_model_tremblay_hybrid], per cell. *)
Definition voltage_model_tremblay_hybrid (m : t) (Q_cell I q0_cell : R) : R :=
  let Q_cell_mod := calculate_Qfull_mod m Q_cell in
  let it := Q_cell - q0_cell in
  let E := _E0 m - _K m * (Q_cell_mod / (Q_cell_mod - it)) + _A m * exp (- _B0 m * it) in
  E - resistance (params m) * I.

(** [voltage_dynamic_t::calculate_voltage_for_current] *)
Definition calculate_voltage_for_current (m : t) (I q qmax T : R) : R :=
  let ns := IZR (num_strings (params m)) in
  IZR (num_cells_series (params m))
  * fmax (voltage_model_tremblay_hybrid m (qmax / ns) (I / ns) (q / ns)) 0.

(** [voltage_dynamic_t::updateVoltage] *)
Definition updateVoltage (m : t) (q qmax I temp dt : R) : t :=
  let ns := IZR (num_strings (params m)) in
  let qmax := qmax / ns in
  let q := q / ns in
  let I := I / ns in
  set_state m (set_cell_voltage (state m) (fmax (voltage_model_tremblay_hybrid m qmax I q) 0)).

(** [voltage_dynamic_t::set_initial_SOC] *)
Definition set_initial_SOC (m : t) (init_soc : R) : t :=
  let d := dynamic (params m) in
  let ns := IZR (num_strings (params m)) in
  updateVoltage m (init_soc * (1 / 100) * Qfull d * ns) (Qfull d * ns) 0 25 (dt_hr (params m)).

(** [voltage_dynamic_t::calculate_max_charge_w]: the power and the value
    written through [max_current]. *)
Definition calculate_max_charge_w (m : t) (q qmax T : R) : R * R :=
  let ns := IZR (num_strings (params m)) in
  let q := q / ns in
  let qmax := qmax / ns in
  let current := (q - qmax) / dt_hr (params m) in
  (current * voltage_model_tremblay_hybrid m qmax current qmax * ns
   * IZR (num_cells_series (params m)),
   current * ns).

(** Residual of the charge direction, [solve_current_for_charge_power]; the
    members [solver_power], [solver_q], [solver_Q] and [solver_Q_mod] are
    arguments. *)
Definition solve_current_for_charge_power (m : t)
    (solver_power solver_q solver_Q solver_Q_mod : R) (I : R) : R :=
  let it := solver_Q - (solver_q + I * dt_hr (params m)) in
  let V := _E0 m - _K m * solver_Q_mod / (solver_Q_mod - it) + _A m * exp (- _B0 m * it)
           + resistance (params m) * I in
  I * V - solver_power.

(** Residual of the discharge direction, [solve_current_for_discharge_power]. *)
Definition solve_current_for_discharge_power (m : t)
    (solver_power solver_q solver_Q solver_Q_mod : R) (I : R) : R :=
  let it := solver_Q - (solver_q - I * dt_hr (params m)) in
  let V := _E0 m - _K m * solver_Q_mod / (solver_Q_mod - it) + _A m * exp (- _B0 m * it)
           - resistance (params m) * I in
  I * V - solver_power.

Section WithCollaborators.

Variable tolerance : R.
Variable newton : root_finder.

(** The [while] loop of [calculate_max_discharge_w]; the state is
    [(current, vol, max_p, max_I, max_V)].  The source loop has no bound of
    its own, so the model runs it on [fuel] and answers [None] when the
    fuel ends before the loop does. *)
Fixpoint max_discharge_loop (fuel : nat) (m : t) (q qmax incr : R)
    (current vol max_p max_I max_V : R) : option (R * R * R) :=
  let d := dynamic (params m) in
  if dlt (current * dt_hr (params m)) (q - tolerance) && dge vol (Vcut d)
  then
    match fuel with
    | O => None
    | S fuel' =>
        let vol := voltage_model_tremblay_hybrid m qmax current
                     (q - current * dt_hr (params m)) in
        let p := current * vol in
        if dgt p max_p && dge vol (Vcut d)
        then max_discharge_loop fuel' m q qmax incr (current + incr) vol p current vol
        else max_discharge_loop fuel' m q qmax incr (current + incr) vol max_p max_I max_V
    end
  else Some (max_p, max_I, max_V).

(** [voltage_dynamic_t::calculate_max_discharge_w]: the power and the
    value written through [max_current]. *)
Definition calculate_max_discharge_w (fuel : nat) (m : t) (q qmax T : R)
  : option (R * R) :=
  let d := dynamic (params m) in
  let ns := IZR (num_strings (params m)) in
  let q := q / ns in
  let qmax := qmax / ns in
  let current := q * (1 / 2) in
  let vol := Vcut d in
  let incr := q / 10 in
  match max_discharge_loop fuel m q qmax incr current vol 0 0 0 with
  | None => None
  | Some (max_p, max_I, _) =>
      Some (max_p * ns * IZR (num_cells_series (params m)), max_I * ns)
  end.

(** [voltage_dynamic_t::calculate_current_for_target_w] *)
Definition calculate_current_for_target_w (m : t) (P_watts q qmax T : R) : R :=
  if deq P_watts 0 then 0
  else
    let d := dynamic (params m) in
    let solver_power :=
      Rabs P_watts / IZR (num_cells_series (params m) * num_strings (params m)) in
    let solver_q := q / IZR (num_strings (params m)) in
    let solver_Q := qmax / IZR (num_strings (params m)) in
    let solver_Q_mod :=
      if negb (deq (Vcut d) 0)
      then calculate_Qfull_mod m (qmax / IZR (num_strings (params m)))
      else solver_Q in
    let '(f, direction) :=
      if dgt P_watts 0
      then (solve_current_for_discharge_power m solver_power solver_q solver_Q solver_Q_mod, 1)
      else (solve_current_for_charge_power m solver_power solver_q solver_Q solver_Q_mod, -1) in
    let x0 :=
      if negb (deq (cell_voltage (state m)) 0)
      then solver_power / cell_voltage (state m) * dt_hr (params m)
      else solver_power / Vnom d * dt_hr (params m) in
    let x := newton f x0 100%nat (1 / 10 ^ 6) (1 / 10 ^ 6) (7 / 10) in
    x * IZR (num_strings (params m)) * direction.

End WithCollaborators.

End voltage_dynamic_t.

(** ** Vanadium-redox variant *)

Module voltage_vanadium_redox_t.

Record t : Type := {
  params : voltage_params;
  state : voltage_state;
  m_RCF : R
}.

Definition set_state (m : t) (s : voltage_state) : t :=
  {| params := params m; state := s; m_RCF := m_RCF m |}.

(** The value [voltage_vanadium_redox_t::initialize] stores in [m_RCF],
    [8.314 * 1.38 / (26.801 * 3600)]. *)
Definition RCF : R := (8314 / 1000) * (138 / 100) / ((26801 / 1000) * 3600).

(** [voltage_vanadium_redox_t::initialize], on the state
    [voltage_t::initialize] left. *)
Definition initialize (p : voltage_params) : t :=
  {| params := p; state := voltage_t.initialize p; m_RCF := RCF |}.

Section WithCollaborators.

Variable tolerance : R.
Variable newton : root_finder.

(** The local [SOC_use] of [voltage_model] as it enters the logarithm. *)
Definition SOC_use (q0 qmax : R) : R :=
  let SOC_use := q0 / qmax in
  if dgt SOC_use (1 - tolerance) then 1 - tolerance
  else if deq SOC_use 0 then 1 / 10 ^ 3
  else SOC_use.

(** [voltage_vanadium_redox_t::voltage_model], per string. *)
Definition voltage_model (m : t) (q0 qmax I_string T : R) : R :=
  let SOC_use := SOC_use q0 qmax in
  let A := ln (SOC_use ^ 2 / (1 - SOC_use) ^ 2) in
  Vnom_default (params m) + m_RCF m * T * A + Rabs I_string * resistance (params m).

(** [voltage_vanadium_redox_t::calculate_voltage_for_current] *)
Definition calculate_voltage_for_current (m : t) (I q qmax T_k : R) : R :=
  let ns := IZR (num_strings (params m)) in
  voltage_model m (q / ns) (qmax / ns) (I / ns) T_k * IZR (num_cells_series (params m)).

(** [voltage_vanadium_redox_t::updateVoltage] *)
Definition updateVoltage (m : t) (q qmax I temp dt : R) : t :=
  let ns := IZR (num_strings (params m)) in
  set_state m (set_cell_voltage (state m)
    (voltage_model m (q / ns) (qmax / ns) (I / ns) (temp + 27315 / 100))).

(** [voltage_vanadium_redox_t::set_initial_SOC] *)
Definition set_initial_SOC (m : t) (init_soc : R) : t :=
  updateVoltage m init_soc 100 0 25 (dt_hr (params m)).

(** [voltage_vanadium_redox_t::calculate_max_charge_w]: the power and the
    value written through [max_current]. *)
Definition calculate_max_charge_w (m : t) (q qmax kelvin : R) : R * R :=
  let ns := IZR (num_strings (params m)) in
  let qmax := qmax / ns in
  let q := q / ns in
  let max_I := (q - qmax) / dt_hr (params m) in
  (voltage_model m qmax qmax max_I kelvin * max_I * ns * IZR (num_cells_series (params m)),
   max_I * ns).

(** Residual [solve_max_discharge_power]; the members [solver_q],
    [solver_Q] and [solver_T_k] are arguments. *)
Definition solve_max_discharge_power (m : t) (solver_q solver_Q solver_T_k : R) (x : R) : R :=
  let I := Rabs x in
  let SOC := (solver_q - I * dt_hr (params m)) / solver_Q in
  Vnom_default (params m) + 2 * I * resistance (params m)
  + m_RCF m * solver_T_k
    * (ln (SOC * SOC / (1 - SOC) ^ 2) - 2 * I * (1 / SOC - 1 / (1 - SOC))).

(** Residual [solve_current_for_power]. *)
Definition solve_current_for_power (m : t)
    (solver_power solver_q solver_Q solver_T_k : R) (I : R) : R :=
  let SOC := (solver_q - I * dt_hr (params m)) / solver_Q in
  I * (Vnom_default (params m)
       + m_RCF m * solver_T_k * ln (SOC * SOC / (1 - SOC) ^ 2)
       + Rabs I * resistance (params m))
  - solver_power.

(** [voltage_vanadium_redox_t::calculate_max_discharge_w]: the power and
    the value written through [max_current]. *)
Definition calculate_max_discharge_w (m : t) (q qmax kelvin : R) : R * R :=
  let ns := IZR (num_strings (params m)) in
  let solver_q := q / ns in
  let solver_Q := qmax / ns in
  let solver_T_k := kelvin in
  let f := solve_max_discharge_power m solver_q solver_Q solver_T_k in
  let x0 := (solver_q - tolerance) / dt_hr (params m) in
  let current := newton f x0 100%nat (1 / 10 ^ 6) (1 / 10 ^ 6) (7 / 10) in
  let power :=
    current * voltage_model m (solver_q - current * dt_hr (params m)) solver_Q current kelvin
    * ns * IZR (num_cells_series (params m)) in
  if dlt power 0 then (0, 0 * ns) else (power, current * ns).

(** [voltage_vanadium_redox_t::calculate_current_for_target_w] *)
Definition calculate_current_for_target_w (m : t) (P_watts q qmax kelvin : R) : R :=
  if deq P_watts 0 then 0
  else
    let solver_power :=
      P_watts / IZR (num_cells_series (params m) * num_strings (params m)) in
    let solver_q := q / IZR (num_strings (params m)) in
    let solver_Q := qmax / IZR (num_strings (params m)) in
    let solver_T_k := kelvin in
    let f := solve_current_for_power m solver_power solver_q solver_Q solver_T_k in
    let x0 :=
      if negb (deq (cell_voltage (state m)) 0)
      then solver_power / cell_voltage (state m) * dt_hr (params m)
      else solver_power / Vnom_default (params m) * dt_hr (params m) in
    let x := newton f x0 100%nat (1 / 10 ^ 6) (1 / 10 ^ 6) (7 / 10) in
    x * IZR (num_strings (params m)).

(** The clamping the specification asks of
    [calculate_current_for_target_w], for this variant: a request at or
    beyond the extreme power of its direction is answered with the current
    of that extreme. *)
Definition clamps_to_extreme : Prop :=
  forall (m : t) (P_watts q qmax kelvin : R),
    P_watts <> 0 ->
    let extreme :=
      if dlt P_watts 0 then calculate_max_charge_w m q qmax kelvin
      else calculate_max_discharge_w m q qmax kelvin in
    Rabs (fst extreme) <= Rabs P_watts ->
    calculate_current_for_target_w m P_watts q qmax kelvin = snd extreme.

End WithCollaborators.

End voltage_vanadium_redox_t.

(** ** The connection guard of the resilience driver *)

Module dispatch_resilience.

Inductive CONNECTION : Type := DC_CONNECTED | AC_CONNECTED.

(** The fields of [BatteryPower] and of its shared inverter that the two
    outage steps read or write. *)
Record BatteryPower : Type := {
  powerPVInverterDraw : R;
  powerSystem : R;
  powerCritLoad : R;
  powerSystemClipped : R;
  voltageSystem : R;
  sharedInverter_Tdry_C : R;
  isOutageStep : bool;
  powerBatteryToLoad : R;
  powerSystemToLoad : R;
  powerFuelCellToLoad : R;
  powerCritLoadUnmet : R
}.

Section WithCollaborators.

(** What the base class [dispatch_t] holds besides [m_batteryPower] (the
    battery, its clone, the dispatch settings). *)
Variable dispatch_t : Type.

Record t : Type := {
  base : dispatch_t;
  m_batteryPower : BatteryPower;
  connection : CONNECTION;
  start_outage_index : Z;
  current_outage_index : Z;
  met_loads_kw : R
}.

Variable tolerance : R.
(** [BatteryPower::reset] *)
Variable reset : BatteryPower -> BatteryPower.
(** [dispatch_t::dispatch_ac_outage_step] and
    [dispatch_t::dispatch_dc_outage_step], which run on the whole object. *)
Variable dispatch_ac_outage_step : t -> Z -> t.
Variable dispatch_dc_outage_step : t -> Z -> t.

Definition set_batteryPower (d : t) (b : BatteryPower) : t :=
  {| base := base d; m_batteryPower := b; connection := connection d;
     start_outage_index := start_outage_index d;
     current_outage_index := current_outage_index d;
     met_loads_kw := met_loads_kw d |}.

(** [size_t] arithmetic wraps at 2^64. *)
Definition size_t_add (a b : Z) : Z := ((a + b) mod 2 ^ 64)%Z.

(** The part the two steps share after [dispatch_*_outage_step]: the met
    load is added up, and the index moves on when the step survived. *)
Definition account (d : t) : t * bool :=
  let b := m_batteryPower d in
  let met_load := powerBatteryToLoad b + powerSystemToLoad b + powerFuelCellToLoad b in
  let unmet_load := powerCritLoadUnmet b in
  let survived := dlt unmet_load tolerance in
  ({| base := base d; m_batteryPower := b; connection := connection d;
      start_outage_index := start_outage_index d;
      current_outage_index :=
        if survived then size_t_add (current_outage_index d) 1 else current_outage_index d;
      met_loads_kw := met_loads_kw d + met_load |},
   survived).

(** [dispatch_resilience::run_outage_step_ac]: the object after the call
    (after the [throw], when it throws) and the outcome. *)
Definition run_outage_step_ac (d : t) (crit_load_kwac pv_kwac : R) : t * result bool :=
  match connection d with
  | AC_CONNECTED =>
      let b := reset (m_batteryPower d) in
      let '(draw, system) :=
        if dlt pv_kwac 0 then (powerSystem b, 0) else (0, pv_kwac) in
      let b :=
        {| powerPVInverterDraw := draw;
           powerSystem := system;
           powerCritLoad := crit_load_kwac;
           powerSystemClipped := powerSystemClipped b;
           voltageSystem := voltageSystem b;
           sharedInverter_Tdry_C := sharedInverter_Tdry_C b;
           isOutageStep := true;
           powerBatteryToLoad := powerBatteryToLoad b;
           powerSystemToLoad := powerSystemToLoad b;
           powerFuelCellToLoad := powerFuelCellToLoad b;
           powerCritLoadUnmet := powerCritLoadUnmet b |} in
      let d := dispatch_ac_outage_step (set_batteryPower d b) (current_outage_index d) in
      let '(d, survived) := account d in
      (d, Ok survived)
  | DC_CONNECTED =>
      (d, Throw "Error in resilience::run_outage_step_ac: called for battery with DC connection.")
  end.

(** [dispatch_resilience::run_outage_step_dc] *)
Definition run_outage_step_dc (d : t) (crit_load_kwac pv_kwdc V_pv pv_clipped tdry : R)
  : t * result bool :=
  match connection d with
  | DC_CONNECTED =>
      let b := reset (m_batteryPower d) in
      let b :=
        {| powerPVInverterDraw := powerPVInverterDraw b;
           powerSystem := pv_kwdc;
           powerCritLoad := crit_load_kwac;
           powerSystemClipped := pv_clipped;
           voltageSystem := V_pv;
           sharedInverter_Tdry_C := tdry;
           isOutageStep := true;
           powerBatteryToLoad := powerBatteryToLoad b;
           powerSystemToLoad := powerSystemToLoad b;
           powerFuelCellToLoad := powerFuelCellToLoad b;
           powerCritLoadUnmet := powerCritLoadUnmet b |} in
      let d := dispatch_dc_outage_step (set_batteryPower d b) (current_outage_index d) in
      let '(d, survived) := account d in
      (d, Ok survived)
  | AC_CONNECTED =>
      (d, Throw "Error in resilience::run_outage_step_dc: called for battery with AC connection.")
  end.

(** [dispatch_resilience::get_indices_survived] *)
Definition get_indices_survived (d : t) : Z :=
  ((current_outage_index d - start_outage_index d) mod 2 ^ 64)%Z.

(** [dispatch_resilience::get_met_loads] *)
Definition get_met_loads (d : t) : R := met_loads_kw d.

End WithCollaborators.

Arguments base {dispatch_t} _.
Arguments m_batteryPower {dispatch_t} _.
Arguments connection {dispatch_t} _.
Arguments start_outage_index {dispatch_t} _.
Arguments current_outage_index {dispatch_t} _.
Arguments met_loads_kw {dispatch_t} _.
Arguments set_batteryPower {dispatch_t} _ _.
Arguments account {dispatch_t} _ _.
Arguments run_outage_step_ac {dispatch_t} _ _ _ _ _ _.
Arguments run_outage_step_dc {dispatch_t} _ _ _ _ _ _ _ _ _.
Arguments get_indices_survived {dispatch_t} _.
Arguments get_met_loads {dispatch_t} _.

End dispatch_resilience.

(** ** The resilience runner

    [resilience_runner] keeps one [dispatch_resilience] per outage start in a
    [std::map] keyed by the start index, steps the surviving ones, and turns
    the steps each one survived into probabilities. *)

Module resilience_runner.

(** [std::map<size_t, V>]: the entries in the order of their keys, no key
    twice. *)
Section Map.

Context {V : Type}.

(** [std::map::insert]: an entry whose key is already there is not replaced. *)
Fixpoint map_insert (k : Z) (v : V) (entries : list (Z * V)) : list (Z * V) :=
  match entries with
  | [] => [(k, v)]
  | (k', v') :: rest =>
      if (k <? k')%Z then (k, v) :: entries
      else if (k =? k')%Z then entries
      else (k', v') :: map_insert k v rest
  end.

(** [std::map::find] *)
Fixpoint map_find (k : Z) (entries : list (Z * V)) : option V :=
  match entries with
  | [] => None
  | (k', v') :: rest => if (k =? k')%Z then Some v' else map_find k rest
  end.

(** [std::map::erase] of a key *)
Fixpoint map_erase (k : Z) (entries : list (Z * V)) : list (Z * V) :=
  match entries with
  | [] => []
  | (k', v') :: rest => if (k =? k')%Z then rest else (k', v') :: map_erase k rest
  end.

End Map.

(** [v[i] = x] on a [std::vector]; an index outside the vector, undefined in
    the source, leaves the model unchanged. *)
Fixpoint vector_set {A : Type} (v : list A) (i : nat) (x : A) : list A :=
  match v, i with
  | [], _ => []
  | _ :: rest, O => x :: rest
  | a :: rest, S i' => a :: vector_set rest i' x
  end.

(** [std::accumulate] from [0.0] *)
Definition accumulate (v : list R) : R := fold_left Rplus v 0.

(** What the runner reads of the battery [batt] it was built for; the step
    counts are read as [size_t]. *)
Record battstor : Type := {
  step_per_hour : Z;
  step_per_year : Z;
  nyears : Z;
  batt_topology : dispatch_resilience.CONNECTION;
  inverter_paco : R;
  inverter_count : Z
}.

(** [std::sort] of the outage durations, ascending. *)
Fixpoint insert_duration (a : R) (sorted : list R) : list R :=
  match sorted with
  | [] => [a]
  | b :: rest => if dlt b a then b :: insert_duration a rest else a :: b :: rest
  end.

Fixpoint sort_durations (v : list R) : list R :=
  match v with
  | [] => []
  | a :: rest => insert_duration a (sort_durations rest)
  end.

(** [std::unique] followed by [erase]: of every run of equal neighbours the
    first is kept.  [unique_from a rest] is the result on [a :: rest]. *)
Fixpoint unique_from (a : R) (rest : list R) : list R :=
  match rest with
  | [] => [a]
  | b :: rest' => if deq a b then unique_from a rest' else a :: unique_from b rest'
  end.

Definition unique (v : list R) : list R :=
  match v with
  | [] => []
  | a :: rest => unique_from a rest
  end.

(** [std::count] of the duration [i] in [indices_survived], whose elements are
    converted to [double] for the comparison. *)
Definition count (indices : list Z) (i : R) : nat :=
  length (filter (fun index => deq (IZR index) i) indices).

(** The running sums of [get_cdf_of_surviving]: [prev] is [cum_prob[i-1]]. *)
Fixpoint cumulate (prev : R) (probs : list R) : list R :=
  match probs with
  | [] => []
  | p :: rest => (p + prev) :: cumulate (p + prev) rest
  end.

(** The running differences of [get_survival_function]: [prev] is
    [survival_fx[i-1]]. *)
Fixpoint deplete (prev : R) (probs : list R) : list R :=
  match probs with
  | [] => []
  | p :: rest => (prev - p) :: deplete (prev - p) rest
  end.

(** [if (survival_fx.back() < 1e-7) survival_fx.back() = 0.] *)
Definition zero_small_back (v : list R) : list R :=
  if dlt (last v 0) (1 / 10 ^ 7) then removelast v ++ [0] else v.

Section WithCollaborators.

Variable dispatch_t : Type.
Variable tolerance : R.
Variable reset : dispatch_resilience.BatteryPower -> dispatch_resilience.BatteryPower.
Variables dispatch_ac_outage_step dispatch_dc_outage_step :
  dispatch_resilience.t dispatch_t -> Z -> dispatch_resilience.t dispatch_t.
(** The constructor [dispatch_resilience(orig, start_index)], whose work on the
    copied battery lies outside the modelled files. *)
Variable make_dispatch : dispatch_t -> Z -> dispatch_resilience.t dispatch_t.

Record t : Type := {
  batt : battstor;
  battery_per_outage_start : list (Z * dispatch_resilience.t dispatch_t);
  indices_survived : list Z;
  total_load_met : list R;
  outage_durations : list R;
  probs_of_surviving : list R;
  logs : list string
}.

(** [resilience_runner::resilience_runner] *)
Definition construct (battery : battstor) : t :=
  let steps_lifetime :=
    ((step_per_hour battery * nyears battery * 8760) mod 2 ^ 64)%Z in
  {| batt := battery;
     battery_per_outage_start := [];
     indices_survived := repeat 0%Z (Z.to_nat steps_lifetime);
     total_load_met := repeat 0 (Z.to_nat steps_lifetime);
     outage_durations := [];
     probs_of_surviving := [];
     logs := [] |}.

(** [resilience_runner::add_battery_at_outage_timestep] *)
Definition add_battery_at_outage_timestep (r : t) (orig : dispatch_t) (index : Z) : t :=
  let logs' :=
    match map_find index (battery_per_outage_start r) with
    | Some _ =>
        logs r ++ [("Replacing battery which already existed at index "
                    ++ NilZero.string_of_uint (N.to_uint (Z.to_N index)) ++ ".")%string]
    | None => logs r
    end in
  {| batt := batt r;
     battery_per_outage_start :=
       map_insert index (make_dispatch orig index) (battery_per_outage_start r);
     indices_survived := indices_survived r;
     total_load_met := total_load_met r;
     outage_durations := outage_durations r;
     probs_of_surviving := probs_of_surviving r;
     logs := logs' |}.

(** The step [run_surviving_batteries] takes with one battery: the DC step for
    a DC-connected battery, the AC step otherwise. *)
Definition run_outage_step (b : dispatch_resilience.t dispatch_t)
    (crit_loads_kwac pv_kwac pv_kwdc V pv_clipped_kw tdry_c : R)
  : dispatch_resilience.t dispatch_t * result bool :=
  match dispatch_resilience.connection b with
  | dispatch_resilience.DC_CONNECTED =>
      dispatch_resilience.run_outage_step_dc tolerance reset dispatch_dc_outage_step
        b crit_loads_kwac pv_kwdc V pv_clipped_kw tdry_c
  | dispatch_resilience.AC_CONNECTED =>
      dispatch_resilience.run_outage_step_ac tolerance reset dispatch_ac_outage_step
        b crit_loads_kwac pv_kwac
  end.

(** The first loop of [run_surviving_batteries] over the entries of the map:
    every battery takes its step in place; the keys of the depleted ones are
    collected and their survived steps written to [indices_survived].  An
    exception of a step ends the loop. *)
Fixpoint step_batteries (entries : list (Z * dispatch_resilience.t dispatch_t))
    (crit_loads_kwac pv_kwac pv_kwdc V pv_clipped_kw tdry_c : R)
    (indices : list Z)
  : result (list (Z * dispatch_resilience.t dispatch_t) * list Z * list Z) :=
  match entries with
  | [] => Ok ([], [], indices)
  | (start_index, b) :: rest =>
      match run_outage_step b crit_loads_kwac pv_kwac pv_kwdc V pv_clipped_kw tdry_c with
      | (_, Throw what) => Throw what
      | (b', Ok survived) =>
          let indices :=
            if survived then indices
            else vector_set indices (Z.to_nat start_index)
                   (dispatch_resilience.get_indices_survived b') in
          do (rest', depleted, indices) <-
            step_batteries rest crit_loads_kwac pv_kwac pv_kwdc V pv_clipped_kw tdry_c indices;
          Ok ((start_index, b') :: rest',
              if survived then depleted else start_index :: depleted,
              indices)
      end
  end.

(** The second loop: the depleted batteries are recorded and erased. *)
Fixpoint retire_batteries (depleted : list Z)
    (entries : list (Z * dispatch_resilience.t dispatch_t))
    (indices : list Z) (loads : list R)
  : list (Z * dispatch_resilience.t dispatch_t) * list Z * list R :=
  match depleted with
  | [] => (entries, indices, loads)
  | i :: rest =>
      match map_find i entries with
      | Some b =>
          retire_batteries rest (map_erase i entries)
            (vector_set indices (Z.to_nat i) (dispatch_resilience.get_indices_survived b))
            (vector_set loads (Z.to_nat i) (dispatch_resilience.get_met_loads b))
      | None => retire_batteries rest entries indices loads
      end
  end.

(** [resilience_runner::run_surviving_batteries] *)
Definition run_surviving_batteries (r : t)
    (crit_loads_kwac pv_kwac pv_kwdc V pv_clipped_kw tdry_c : R) : result t :=
  let logs' :=
    match batt_topology (batt r) with
    | dispatch_resilience.DC_CONNECTED =>
        if dlt (inverter_paco (batt r) * IZR (inverter_count (batt r))) crit_loads_kwac
        then logs r ++ ["For DC-connected battery, maximum inverter AC Power less than max load will lead to dropped load."%string]
        else logs r
    | dispatch_resilience.AC_CONNECTED => logs r
    end in
  do (entries, depleted, indices) <-
    step_batteries (battery_per_outage_start r)
      crit_loads_kwac pv_kwac pv_kwdc V pv_clipped_kw tdry_c (indices_survived r);
  let '(entries, indices, loads) :=
    retire_batteries depleted entries indices (total_load_met r) in
  Ok {| batt := batt r;
        battery_per_outage_start := entries;
        indices_survived := indices;
        total_load_met := loads;
        outage_durations := outage_durations r;
        probs_of_surviving := probs_of_surviving r;
        logs := logs' |}.

(** [resilience_runner::compute_metrics]: the runner with its durations and
    probabilities, and the average of the hours survived. *)
Definition compute_metrics (r : t) : t * R :=
  let hrs_total := IZR (step_per_hour (batt r)) * 8760 * IZR (nyears (batt r)) in
  let durations := unique (sort_durations (map IZR (indices_survived r))) in
  ({| batt := batt r;
      battery_per_outage_start := battery_per_outage_start r;
      indices_survived := indices_survived r;
      total_load_met := total_load_met r;
      outage_durations := map (fun i => i / IZR (step_per_hour (batt r))) durations;
      probs_of_surviving :=
        map (fun i => INR (count (indices_survived r) i) / hrs_total) durations;
      logs := logs r |},
   accumulate (map IZR (indices_survived r)) / IZR (step_per_hour (batt r))
   / INR (length (indices_survived r))).

(** [resilience_runner::get_n_surviving_batteries] *)
Definition get_n_surviving_batteries (r : t) : nat := length (battery_per_outage_start r).

(** [resilience_runner::get_hours_survived] *)
Definition get_hours_survived (r : t) : list R :=
  let hours_per_step := 1 / IZR (step_per_hour (batt r)) in
  map (fun i => IZR i * hours_per_step) (indices_survived r).

(** [resilience_runner::get_avg_crit_load_kwh]; the product of the size and
    the steps per hour is taken in [size_t]. *)
Definition get_avg_crit_load_kwh (r : t) : R :=
  accumulate (total_load_met r)
  / IZR ((Z.of_nat (length (total_load_met r)) * step_per_hour (batt r)) mod 2 ^ 64).

(** [resilience_runner::get_cdf_of_surviving]; [None] stands for the read of
    [probs_of_surviving[0]] in an empty vector, undefined in the source. *)
Definition get_cdf_of_surviving (r : t) : option (list R) :=
  match probs_of_surviving r with
  | [] => None
  | p0 :: rest => Some (p0 :: cumulate p0 rest)
  end.

(** [resilience_runner::get_survival_function], [None] as above. *)
Definition get_survival_function (r : t) : option (list R) :=
  match probs_of_surviving r with
  | [] => None
  | p0 :: rest => Some (zero_small_back ((1 - p0) :: deplete (1 - p0) rest))
  end.

End WithCollaborators.

Arguments batt {dispatch_t} _.
Arguments battery_per_outage_start {dispatch_t} _.
Arguments indices_survived {dispatch_t} _.
Arguments total_load_met {dispatch_t} _.
Arguments outage_durations {dispatch_t} _.
Arguments probs_of_surviving {dispatch_t} _.
Arguments logs {dispatch_t} _.
Arguments compute_metrics {dispatch_t} _.
Arguments get_n_surviving_batteries {dispatch_t} _.
Arguments get_hours_survived {dispatch_t} _.
Arguments get_avg_crit_load_kwh {dispatch_t} _.
Arguments get_cdf_of_surviving {dispatch_t} _.
Arguments get_survival_function {dispatch_t} _.
Arguments add_battery_at_outage_timestep {dispatch_t} _ _ _ _.
Arguments run_outage_step {dispatch_t} _ _ _ _ _ _ _ _ _ _ _.
Arguments step_batteries {dispatch_t} _ _ _ _ _ _ _ _ _ _ _ _.
Arguments retire_batteries {dispatch_t} _ _ _ _.
Arguments run_surviving_batteries {dispatch_t} _ _ _ _ _ _ _ _ _ _ _.

End resilience_runner.

(** A dispatch step of the base class [dispatch_t] leaves the members the
    derived class [dispatch_resilience] adds alone. *)
Definition keeps_bookkeeping {dispatch_t : Type}
    (step : dispatch_resilience.t dispatch_t -> Z -> dispatch_resilience.t dispatch_t) : Prop :=
  forall d i,
    dispatch_resilience.connection (step d i) = dispatch_resilience.connection d
    /\ dispatch_resilience.start_outage_index (step d i)
       = dispatch_resilience.start_outage_index d
    /\ dispatch_resilience.current_outage_index (step d i)
       = dispatch_resilience.current_outage_index d
    /\ dispatch_resilience.met_loads_kw (step d i) = dispatch_resilience.met_loads_kw d.

(** A survival chance [s] and a cumulative probability [c] that are
    complements. *)
Definition complements (c s : R) : Prop := s = 1 - c.

(** ** The derived constants as the specification writes them *)

Module Tremblay.

Definition A (p : voltage_params) : R := Vfull (dynamic p) - Vexp (dynamic p).

Definition B0 (p : voltage_params) : R := 3 / Qexp (dynamic p).

Definition K (p : voltage_params) : R :=
  ((Vfull (dynamic p) - Vnom (dynamic p) + A p * (exp (- B0 p * Qnom (dynamic p)) - 1))
   * (Qfull (dynamic p) - Qnom (dynamic p))) / Qnom (dynamic p).

Definition E0 (p : voltage_params) : R :=
  Vfull (dynamic p) + K p + resistance p * (Qfull (dynamic p) * C_rate (dynamic p)) - A p.

(** The model [parameter_compute] is expected to build. *)
Definition model (p : voltage_params) (s : voltage_state) : voltage_dynamic_t.t :=
  {| voltage_dynamic_t.params := p; voltage_dynamic_t.state := s;
     voltage_dynamic_t._A := A p; voltage_dynamic_t._B0 := B0 p;
     voltage_dynamic_t._K := K p; voltage_dynamic_t._E0 := E0 p |}.

End Tremblay.

(** ** The table as the specification reads it

    A table is monotonically decreasing when, row after row, the depth of
    discharge grows strictly and the voltage falls strictly.  [lines] is the
    closed form of the segments the loop of [initialize] stores for rows that
    differ in depth from the row before them, and [select] the segment
    [calculate_voltage] reads for a depth of discharge. *)

Module TableSpec.

Fixpoint decreasing (rows : list (list R)) : Prop :=
  match rows with
  | [] => True
  | a :: rest =>
      match rest with
      | [] => True
      | b :: _ => col 0 a < col 0 b /\ col 1 b < col 1 a
      end /\ decreasing rest
  end.

(** Slope and intercept of the segment that ends at [row]; the first row
    gets the flat segment at its own voltage. *)
Definition line_of (prev : option (list R)) (row : list R) : R * R :=
  match prev with
  | None => (0, col 1 row)
  | Some row0 =>
      let slope := (col 1 row - col 1 row0) / (col 0 row - col 0 row0) in
      (slope, col 1 row0 - slope * col 0 row0)
  end.

Fixpoint lines (prev : option (list R)) (rows : list (list R)) : list (R * R) :=
  match rows with
  | [] => []
  | row :: rest => line_of prev row :: lines (Some row) rest
  end.

(** The segment in force at [DOD]: the one that ends at the first row not
    below [DOD], or [ln], the last one, beyond the table. *)
Fixpoint select (ln : R * R) (prev : option (list R)) (rows : list (list R)) (DOD : R)
  : R * R :=
  match rows with
  | [] => ln
  | row :: rest =>
      if dgt DOD (col 0 row) then select (line_of prev row) (Some row) rest DOD
      else line_of prev row
  end.

Definition value (ln : R * R) (DOD : R) : R := fst ln * DOD + snd ln.

End TableSpec.

(** Rows in the order of the comparator of [initialize]: no row has a higher
    voltage than the row before it. *)
Definition voltage_descends (a b : list R) : Prop := col 1 b <= col 1 a.

(** No row is at the depth of discharge of the row before it; [prev] is the
    row before the first one, if there is one. *)
Fixpoint depths_differ (prev : option (list R)) (rows : list (list R)) : Prop :=
  match rows with
  | [] => True
  | row :: rest =>
      match prev with
      | Some row0 => col 0 row <> col 0 row0
      | None => True
      end /\ depths_differ (Some row) rest
  end.

(** ** Concrete configurations used by the examples *)

Module Examples.

(** The dynamic-model scenario of the specification: one cell, one string,
    [Vfull = 4.1], [Vexp = 4.05], [Vnom = 3.6], [Vcut = 2.75],
    [Qfull = 2.25], [Qexp = 0.2], [Qnom = 1.8], [C_rate = 1], [R = 0.05]. *)
Definition dynamic_scenario : voltage_params :=
  {| voltage_choice := MODEL;
     num_cells_series := 1;
     num_strings := 1;
     Vnom_default := 36 / 10;
     resistance := 5 / 100;
     dt_hr := 1;
     voltage_table := [];
     dynamic := {| Vfull := 41 / 10; Vexp := 405 / 100; Vnom := 36 / 10; Vcut := 275 / 100;
                   Qfull := 225 / 100; Qexp := 2 / 10; Qnom := 18 / 10; C_rate := 1 |} |}.

(** The same voltages with a full capacity below the nominal capacity. *)
Definition dynamic_small_Qfull : voltage_params :=
  {| voltage_choice := MODEL;
     num_cells_series := 1;
     num_strings := 1;
     Vnom_default := 36 / 10;
     resistance := 5 / 100;
     dt_hr := 1;
     voltage_table := [];
     dynamic := {| Vfull := 41 / 10; Vexp := 405 / 100; Vnom := 36 / 10; Vcut := 275 / 100;
                   Qfull := 1; Qexp := 2 / 10; Qnom := 18 / 10; C_rate := 1 |} |}.

(** A vanadium-redox stack of one cell and one string: nominal voltage
    1.4 V, resistance 1 mOhm, hourly steps. *)
Definition vanadium_scenario : voltage_params :=
  {| voltage_choice := MODEL;
     num_cells_series := 1;
     num_strings := 1;
     Vnom_default := 14 / 10;
     resistance := 1 / 1000;
     dt_hr := 1;
     voltage_table := [];
     dynamic := {| Vfull := 0; Vexp := 0; Vnom := 0; Vcut := 0;
                   Qfull := 0; Qexp := 0; Qnom := 0; C_rate := 0 |} |}.

(** A table whose first row is repeated: 4.1 V, 4.1 V and 3.4 V at the depths
    of discharge 0, 0 and 100, around a nominal voltage of 3.8 V. *)
Definition table_repeated_row : voltage_params :=
  {| voltage_choice := TABLE;
     num_cells_series := 1;
     num_strings := 1;
     Vnom_default := 38 / 10;
     resistance := 0;
     dt_hr := 1;
     voltage_table := [[0; 41 / 10]; [0; 41 / 10]; [100; 34 / 10]];
     dynamic := {| Vfull := 0; Vexp := 0; Vnom := 0; Vcut := 0;
                   Qfull := 0; Qexp := 0; Qnom := 0; C_rate := 0 |} |}.

(** An AC-connected battery of a driver without further state, three steps
    into an outage that began at step 10, whose last dispatch met 2 kW of the
    load and left nothing unmet. *)
Definition ac_battery : dispatch_resilience.t unit :=
  {| dispatch_resilience.base := tt;
     dispatch_resilience.m_batteryPower :=
       {| dispatch_resilience.powerPVInverterDraw := 0;
          dispatch_resilience.powerSystem := 1;
          dispatch_resilience.powerCritLoad := 2;
          dispatch_resilience.powerSystemClipped := 0;
          dispatch_resilience.voltageSystem := 0;
          dispatch_resilience.sharedInverter_Tdry_C := 0;
          dispatch_resilience.isOutageStep := true;
          dispatch_resilience.powerBatteryToLoad := 1;
          dispatch_resilience.powerSystemToLoad := 1;
          dispatch_resilience.powerFuelCellToLoad := 0;
          dispatch_resilience.powerCritLoadUnmet := 0 |};
     dispatch_resilience.connection := dispatch_resilience.AC_CONNECTED;
     dispatch_resilience.start_outage_index := 10;
     dispatch_resilience.current_outage_index := 13;
     dispatch_resilience.met_loads_kw := 6 |}.

(** A DC-connected battery at the start of an outage that begins at step 5,
    whose last dispatch left 1 kW of the load unmet. *)
Definition dc_battery : dispatch_resilience.t unit :=
  {| dispatch_resilience.base := tt;
     dispatch_resilience.m_batteryPower :=
       {| dispatch_resilience.powerPVInverterDraw := 0;
          dispatch_resilience.powerSystem := 0;
          dispatch_resilience.powerCritLoad := 2;
          dispatch_resilience.powerSystemClipped := 0;
          dispatch_resilience.voltageSystem := 0;
          dispatch_resilience.sharedInverter_Tdry_C := 0;
          dispatch_resilience.isOutageStep := true;
          dispatch_resilience.powerBatteryToLoad := 1;
          dispatch_resilience.powerSystemToLoad := 0;
          dispatch_resilience.powerFuelCellToLoad := 0;
          dispatch_resilience.powerCritLoadUnmet := 1 |};
     dispatch_resilience.connection := dispatch_resilience.DC_CONNECTED;
     dispatch_resilience.start_outage_index := 5;
     dispatch_resilience.current_outage_index := 5;
     dispatch_resilience.met_loads_kw := 0 |}.

(** A runner over that driver with six recorded outages and its metrics
    computed: half of them lasted 2 steps, the others 4. *)
Definition runner_with_metrics : resilience_runner.t unit :=
  {| resilience_runner.batt :=
       {| resilience_runner.step_per_hour := 1;
          resilience_runner.step_per_year := 8760;
          resilience_runner.nyears := 1;
          resilience_runner.batt_topology := dispatch_resilience.AC_CONNECTED;
          resilience_runner.inverter_paco := 0;
          resilience_runner.inverter_count := 1 |};
     resilience_runner.battery_per_outage_start := [];
     resilience_runner.indices_survived := [2; 4; 2; 4; 2; 4]%Z;
     resilience_runner.total_load_met := [0; 0; 0; 0; 0; 0];
     resilience_runner.outage_durations := [2; 4];
     resilience_runner.probs_of_surviving := [1 / 2; 1 / 2];
     resilience_runner.logs := [] |}.

(** The same runner before its metrics, with the two batteries above still
    in its map. *)
Definition runner_with_batteries : resilience_runner.t unit :=
  {| resilience_runner.batt := resilience_runner.batt runner_with_metrics;
     resilience_runner.battery_per_outage_start := [(5%Z, dc_battery); (10%Z, ac_battery)];
     resilience_runner.indices_survived := [0; 0; 0; 0; 0; 0; 0; 0; 0; 0; 0; 0]%Z;
     resilience_runner.total_load_met := [0; 0; 0; 0; 0; 0; 0; 0; 0; 0; 0; 0];
     resilience_runner.outage_durations := [];
     resilience_runner.probs_of_surviving := [];
     resilience_runner.logs := [] |}.

(** The table scenario of the specification: rows [(0, 4.1)] and
    [(100, 3.4)], nominal voltage 3.8, one cell, one string. *)
Definition table_scenario : voltage_params :=
  {| voltage_choice := TABLE;
     num_cells_series := 1;
     num_strings := 1;
     Vnom_default := 38 / 10;
     resistance := 4 / 1000;
     dt_hr := 1;
     voltage_table := [[0; 41 / 10]; [100; 34 / 10]];
     dynamic := {| Vfull := 0; Vexp := 0; Vnom := 0; Vcut := 0;
                   Qfull := 0; Qexp := 0; Qnom := 0; C_rate := 0 |} |}.

(** The model [initialize] builds from it. *)
Definition table_model : voltage_table_t.t :=
  {| voltage_table_t.params := table_scenario;
     voltage_table_t.state := {| cell_voltage := 38 / 10; Q_full_mod := 0 |};
     voltage_table_t.slopes := [0; - (7 / 1000); - (7 / 1000)];
     voltage_table_t.intercepts := [41 / 10; 41 / 10; 41 / 10] |}.

End Examples.

(** A full vanadium tank asked to charge: one ampere-hour of one ampere-hour,
    at 25 degrees Celsius, after a step under the charging current [x0].
    [x0] is chosen so that the state of charge the power balance sees at [x0],
    [1 - x0], has the logarithm term [L] of the capped full tank; [cv] is the
    cell voltage that step leaves. *)

Module FullTank.

Definition x0 (tolerance : R) : R := - (tolerance / (1 - 2 * tolerance)).

Definition kelvin : R := 25 + 27315 / 100.

Definition m (tolerance : R) : voltage_vanadium_redox_t.t :=
  voltage_vanadium_redox_t.updateVoltage tolerance
    (voltage_vanadium_redox_t.initialize Examples.vanadium_scenario) 1 1 (x0 tolerance) 25 1.

Definition L (tolerance : R) : R := ln ((1 - tolerance) ^ 2 / (1 - (1 - tolerance)) ^ 2).

Definition cv (tolerance : R) : R :=
  14 / 10 + voltage_vanadium_redox_t.RCF * kelvin * L tolerance
  + Rabs (x0 tolerance / 1) * (1 / 1000).

End FullTank.

(** * Properties *)

(** ** Comparisons *)

Lemma dlt_spec (x y : R) : dlt x y = true <-> x < y.
Proof. unfold dlt; destruct (Rlt_dec x y); split; intros; try easy. Qed.

Lemma dle_spec (x y : R) : dle x y = true <-> x <= y.
Proof. unfold dle; destruct (Rle_dec x y); split; intros; try easy. Qed.

Lemma deq_spec (x y : R) : deq x y = true <-> x = y.
Proof. unfold deq; destruct (Req_dec_T x y); split; intros; try easy. Qed.

Lemma dlt_true (x y : R) : x < y -> dlt x y = true.
Proof. apply dlt_spec. Qed.

Lemma dlt_false (x y : R) : y <= x -> dlt x y = false.
Proof. unfold dlt; destruct (Rlt_dec x y); [lra | reflexivity]. Qed.

Lemma dle_true (x y : R) : x <= y -> dle x y = true.
Proof. apply dle_spec. Qed.

Lemma dle_false (x y : R) : y < x -> dle x y = false.
Proof. unfold dle; destruct (Rle_dec x y); [lra | reflexivity]. Qed.

Lemma deq_true (x y : R) : x = y -> deq x y = true.
Proof. apply deq_spec. Qed.

Lemma deq_false (x y : R) : x <> y -> deq x y = false.
Proof. unfold deq; destruct (Req_dec_T x y); [contradiction | reflexivity]. Qed.

(** Decide every comparison of the goal by case analysis, closing the
    impossible cases by linear arithmetic. *)
Ltac dcases :=
  unfold dgt, dge, dlt, dle, deq in *;
  repeat match goal with
         | |- context [Rlt_dec ?a ?b] => destruct (Rlt_dec a b); try lra
         | |- context [Rle_dec ?a ?b] => destruct (Rle_dec a b); try lra
         | |- context [Req_dec_T ?a ?b] => destruct (Req_dec_T a b); try lra
         end.

(** ** C1: derived constants of the dynamic model *)

Lemma parameter_compute_unfold (p : voltage_params) (s : voltage_state) :
  voltage_dynamic_t.parameter_compute p s =
  if dlt (Tremblay.A p) 0 || dlt (Tremblay.B0 p) 0 || dlt (Tremblay.K p) 0
     || dlt (Tremblay.E0 p) 0
  then Throw voltage_dynamic_t.negative_constants_message
  else Ok (Tremblay.model p s).
Proof. reflexivity. Qed.

Lemma parameter_compute_negative (p : voltage_params) (s : voltage_state) :
  Tremblay.A p < 0 \/ Tremblay.B0 p < 0 \/ Tremblay.K p < 0 \/ Tremblay.E0 p < 0 ->
  voltage_dynamic_t.parameter_compute p s = Throw voltage_dynamic_t.negative_constants_message.
Proof.
  intros H. rewrite parameter_compute_unfold.
  destruct H as [H | [H | [H | H]]]; rewrite (dlt_true _ _ H);
    rewrite ?orb_true_r; reflexivity.
Qed.

Lemma parameter_compute_nonnegative (p : voltage_params) (s : voltage_state) :
  0 <= Tremblay.A p -> 0 <= Tremblay.B0 p -> 0 <= Tremblay.K p -> 0 <= Tremblay.E0 p ->
  voltage_dynamic_t.parameter_compute p s = Ok (Tremblay.model p s).
Proof.
  intros HA HB HK HE. rewrite parameter_compute_unfold.
  now rewrite (dlt_false _ _ HA), (dlt_false _ _ HB), (dlt_false _ _ HK), (dlt_false _ _ HE).
Qed.

Lemma parameter_compute_Ok (p : voltage_params) (s : voltage_state) (m : voltage_dynamic_t.t) :
  voltage_dynamic_t.parameter_compute p s = Ok m ->
  m = Tremblay.model p s
  /\ 0 <= Tremblay.A p /\ 0 <= Tremblay.B0 p /\ 0 <= Tremblay.K p /\ 0 <= Tremblay.E0 p.
Proof.
  rewrite parameter_compute_unfold.
  destruct (Rlt_dec (Tremblay.A p) 0) as [HA | HA];
    [now rewrite (dlt_true _ _ HA) | rewrite (dlt_false _ 0) by lra].
  destruct (Rlt_dec (Tremblay.B0 p) 0) as [HB | HB];
    [now rewrite (dlt_true _ _ HB) | rewrite (dlt_false _ 0) by lra].
  destruct (Rlt_dec (Tremblay.K p) 0) as [HK | HK];
    [now rewrite (dlt_true _ _ HK) | rewrite (dlt_false _ 0) by lra].
  destruct (Rlt_dec (Tremblay.E0 p) 0) as [HE | HE];
    [now rewrite (dlt_true _ _ HE) | rewrite (dlt_false _ 0) by lra].
  cbn [orb]. intros Hm. injection Hm as <-. repeat split; lra.
Qed.

Lemma initialize_unfold (p : voltage_params) :
  voltage_dynamic_t.initialize p =
  if dlt (Vfull (dynamic p)) (Vexp (dynamic p)) || dlt (Vexp (dynamic p)) (Vnom (dynamic p))
     || dlt (Vnom (dynamic p)) (Vcut (dynamic p))
  then Throw voltage_dynamic_t.ordering_message
  else voltage_dynamic_t.parameter_compute p
         {| cell_voltage := Vfull (dynamic p); Q_full_mod := Qfull (dynamic p) |}.
Proof. reflexivity. Qed.

Lemma initialize_ordered (p : voltage_params) :
  Vexp (dynamic p) <= Vfull (dynamic p) ->
  Vnom (dynamic p) <= Vexp (dynamic p) ->
  Vcut (dynamic p) <= Vnom (dynamic p) ->
  voltage_dynamic_t.initialize p =
  voltage_dynamic_t.parameter_compute p
    {| cell_voltage := Vfull (dynamic p); Q_full_mod := Qfull (dynamic p) |}.
Proof.
  intros H1 H2 H3. rewrite initialize_unfold.
  now rewrite (dlt_false _ _ H1), (dlt_false _ _ H2), (dlt_false _ _ H3).
Qed.

Lemma initialize_Ok (p : voltage_params) (m : voltage_dynamic_t.t) :
  voltage_dynamic_t.initialize p = Ok m ->
  m = Tremblay.model p {| cell_voltage := Vfull (dynamic p); Q_full_mod := Qfull (dynamic p) |}
  /\ 0 <= Tremblay.K p.
Proof.
  rewrite initialize_unfold.
  destruct (_ || _ || _); [discriminate|].
  intros H. apply parameter_compute_Ok in H. tauto.
Qed.

(** C1. [parameter_compute], and with it [initialize], stores
    [A = Vfull - Vexp], [B0 = 3/Qexp],
    [K = ((Vfull - Vnom + A*(exp(-B0*Qnom) - 1))*(Qfull - Qnom))/Qnom] and
    [E0 = Vfull + K + R*(Qfull*C_rate) - A] whenever it returns; it returns
    whenever none of the four is negative, and both throw whenever one of
    them is. *)
Theorem parameter_compute_constants (p : voltage_params) (s : voltage_state) :
  (forall m,
     voltage_dynamic_t.parameter_compute p s = Ok m \/ voltage_dynamic_t.initialize p = Ok m ->
     voltage_dynamic_t._A m = Vfull (dynamic p) - Vexp (dynamic p)
     /\ voltage_dynamic_t._B0 m = 3 / Qexp (dynamic p)
     /\ voltage_dynamic_t._K m =
        ((Vfull (dynamic p) - Vnom (dynamic p)
          + voltage_dynamic_t._A m
            * (exp (- voltage_dynamic_t._B0 m * Qnom (dynamic p)) - 1))
         * (Qfull (dynamic p) - Qnom (dynamic p))) / Qnom (dynamic p)
     /\ voltage_dynamic_t._E0 m =
        Vfull (dynamic p) + voltage_dynamic_t._K m
        + resistance p * (Qfull (dynamic p) * C_rate (dynamic p)) - voltage_dynamic_t._A m)
  /\
  (0 <= Tremblay.A p /\ 0 <= Tremblay.B0 p /\ 0 <= Tremblay.K p /\ 0 <= Tremblay.E0 p ->
   voltage_dynamic_t.parameter_compute p s = Ok (Tremblay.model p s))
  /\
  (Tremblay.A p < 0 \/ Tremblay.B0 p < 0 \/ Tremblay.K p < 0 \/ Tremblay.E0 p < 0 ->
   voltage_dynamic_t.parameter_compute p s = Throw voltage_dynamic_t.negative_constants_message
   /\ exists what, voltage_dynamic_t.initialize p = Throw what).
Proof.
  split; [| split].
  - intros m [Hm | Hm].
    + apply parameter_compute_Ok in Hm as [-> _]. cbn. repeat split; reflexivity.
    + apply initialize_Ok in Hm as [-> _]. cbn. repeat split; reflexivity.
  - intros (HA & HB & HK & HE). now apply parameter_compute_nonnegative.
  - intros H. split; [now apply parameter_compute_negative|].
    rewrite initialize_unfold. destruct (_ || _ || _); [now eexists|].
    eexists. now apply parameter_compute_negative.
Qed.

(** ** C3: a zero power request *)

(** C3. In every variant [calculate_current_for_target_w] answers exactly 0 to
    the request [P_watts = 0], whatever the charge, the capacity, the
    temperature, the model and the root finder are. *)
Theorem zero_power_zero_current (newton : root_finder) (q qmax temperature : R) :
  (forall m : voltage_table_t.t,
      voltage_table_t.calculate_current_for_target_w m 0 q qmax temperature = 0)
  /\ (forall m : voltage_dynamic_t.t,
      voltage_dynamic_t.calculate_current_for_target_w newton m 0 q qmax temperature = 0)
  /\ (forall m : voltage_vanadium_redox_t.t,
      voltage_vanadium_redox_t.calculate_current_for_target_w newton m 0 q qmax temperature = 0).
Proof.
  repeat split; intro m.
  - unfold voltage_table_t.calculate_current_for_target_w.
    now rewrite (deq_true 0 0 eq_refl).
  - unfold voltage_dynamic_t.calculate_current_for_target_w.
    now rewrite (deq_true 0 0 eq_refl).
  - unfold voltage_vanadium_redox_t.calculate_current_for_target_w.
    now rewrite (deq_true 0 0 eq_refl).
Qed.

(** ** C10: the table voltage ignores current and temperature *)

(** C10. For the Table variant the model [updateVoltage] leaves depends on the
    charge and the capacity only: two calls that differ in the current, the
    temperature (and the time step) leave the same [cell_voltage], which is
    [calculate_voltage] at the depth of discharge [100 * (1 - q / qmax)]. *)
Theorem table_updateVoltage_ignores_current_and_temperature
    (m : voltage_table_t.t) (q qmax I1 I2 temp1 temp2 dt1 dt2 : R) :
  cell_voltage (voltage_table_t.state (voltage_table_t.updateVoltage m q qmax I1 temp1 dt1))
  = cell_voltage (voltage_table_t.state (voltage_table_t.updateVoltage m q qmax I2 temp2 dt2))
  /\ cell_voltage (voltage_table_t.state (voltage_table_t.updateVoltage m q qmax I1 temp1 dt1))
     = voltage_table_t.calculate_voltage m (100 * (1 - q / qmax)).
Proof. split; reflexivity. Qed.

(** ** C9: outage steps on the wrong connection *)

Section Resilience.

Variable dispatch_t : Type.
Variable tolerance : R.
Variable reset : dispatch_resilience.BatteryPower -> dispatch_resilience.BatteryPower.
Variables dispatch_ac_outage_step dispatch_dc_outage_step :
  dispatch_resilience.t dispatch_t -> Z -> dispatch_resilience.t dispatch_t.

(** C9. The AC outage step on a DC-connected battery and the DC outage step
    on an AC-connected battery throw, each with its own message, and the
    object is at the throw what it was at the call: neither
    [BatteryPower::reset] nor the dispatch step has run, and the outage index
    and the met load are untouched. *)
Theorem outage_step_wrong_connection
    (d : dispatch_resilience.t dispatch_t)
    (crit_load_kwac pv_kwac pv_kwdc V_pv pv_clipped tdry : R) :
  (dispatch_resilience.connection d = dispatch_resilience.DC_CONNECTED ->
   dispatch_resilience.run_outage_step_ac tolerance reset dispatch_ac_outage_step
     d crit_load_kwac pv_kwac
   = (d, Throw "Error in resilience::run_outage_step_ac: called for battery with DC connection."))
  /\
  (dispatch_resilience.connection d = dispatch_resilience.AC_CONNECTED ->
   dispatch_resilience.run_outage_step_dc tolerance reset dispatch_dc_outage_step
     d crit_load_kwac pv_kwdc V_pv pv_clipped tdry
   = (d, Throw "Error in resilience::run_outage_step_dc: called for battery with AC connection.")).
Proof.
  split; intros Hc.
  - unfold dispatch_resilience.run_outage_step_ac. now rewrite Hc.
  - unfold dispatch_resilience.run_outage_step_dc. now rewrite Hc.
Qed.

End Resilience.

(** ** C4: the ordering check of the dynamic model *)

(** The constants of the scenario of the specification: all four are positive. *)
Lemma dynamic_scenario_constants :
  0 < Tremblay.A Examples.dynamic_scenario
  /\ 0 < Tremblay.B0 Examples.dynamic_scenario
  /\ 0 < Tremblay.K Examples.dynamic_scenario
  /\ 0 < Tremblay.E0 Examples.dynamic_scenario.
Proof.
  assert (HK : 0 < Tremblay.K Examples.dynamic_scenario).
  { unfold Tremblay.K, Tremblay.A. cbn.
    pose proof (exp_pos (- Tremblay.B0 Examples.dynamic_scenario * (18 / 10))) as He.
    cbn in He. lra. }
  repeat split; trivial.
  - unfold Tremblay.A. cbn. lra.
  - unfold Tremblay.B0. cbn. lra.
  - unfold Tremblay.E0, Tremblay.A. cbn. lra.
Qed.

(** The scenario of the specification is accepted. *)
Lemma dynamic_scenario_accepted :
  voltage_dynamic_t.initialize Examples.dynamic_scenario =
  Ok (Tremblay.model Examples.dynamic_scenario {| cell_voltage := 41 / 10; Q_full_mod := 225 / 100 |}).
Proof.
  destruct dynamic_scenario_constants as (HA & HB & HK & HE).
  rewrite initialize_ordered by (cbn; lra).
  apply parameter_compute_nonnegative; lra.
Qed.

(** C4.  The ordering check fails the claim where two voltages are equal.
    Constructed with [Vfull = Vexp = 4.1], a quadruple that the claim and the
    message of the check itself ("Vfull > Vexp > Vnom > Vcut") exclude, the
    constructor returns a model instead of throwing: the check compares with
    [<] where the strict order calls for [<=]. *)
Lemma dynamic_equal_voltages_pass_the_check :
  exists m,
    voltage_dynamic_t.construct 1 1 (36 / 10)
      (41 / 10) (41 / 10) (36 / 10) (225 / 100) (2 / 10) (18 / 10) (275 / 100) 1 (5 / 100) 1
    = Ok m.
Proof.
  eexists. unfold voltage_dynamic_t.construct.
  rewrite initialize_ordered by (cbn; lra).
  apply parameter_compute_nonnegative;
    unfold Tremblay.E0, Tremblay.K, Tremblay.A, Tremblay.B0; cbn; lra.
Qed.

(** ** C5: the voltage of a full cell *)

Lemma fmax_nonneg (x : R) : 0 <= x -> fmax x 0 = x.
Proof. intros H. unfold fmax. now apply Rmax_left. Qed.

(** At [q0 = Q] no charge is removed: the exponential term is [A] and the
    polarisation term is [K] times the ratio of the adjusted capacity to
    itself. *)
Lemma tremblay_at_full (m : voltage_dynamic_t.t) (Q I : R) :
  voltage_dynamic_t.calculate_Qfull_mod m Q <> 0 ->
  voltage_dynamic_t.voltage_model_tremblay_hybrid m Q I Q =
  voltage_dynamic_t._E0 m - voltage_dynamic_t._K m + voltage_dynamic_t._A m
  - resistance (voltage_dynamic_t.params m) * I.
Proof.
  intros HQ. unfold voltage_dynamic_t.voltage_model_tremblay_hybrid.
  replace (Q - Q) with 0 by lra.
  rewrite Rminus_0_r, Rmult_0_r, exp_0.
  unfold Rdiv. rewrite Rinv_r by exact HQ. lra.
Qed.

Lemma updateVoltage_at_full (p : voltage_params) (m : voltage_dynamic_t.t) (q I temp dt : R) :
  voltage_dynamic_t.initialize p = Ok m ->
  voltage_dynamic_t.calculate_Qfull_mod m (q / IZR (num_strings p)) <> 0 ->
  cell_voltage (voltage_dynamic_t.state (voltage_dynamic_t.updateVoltage m q q I temp dt))
  = fmax (Vfull (dynamic p) + resistance p * (Qfull (dynamic p) * C_rate (dynamic p))
          - resistance p * (I / IZR (num_strings p))) 0.
Proof.
  intros Hm HQ. apply initialize_Ok in Hm as [-> _].
  unfold voltage_dynamic_t.updateVoltage. cbn [voltage_dynamic_t.state voltage_dynamic_t.set_state
    set_cell_voltage cell_voltage voltage_dynamic_t.params Tremblay.model] in *.
  rewrite tremblay_at_full by exact HQ.
  f_equal. cbn. unfold Tremblay.E0. lra.
Qed.

(** The cutoff-adjusted capacity of the scenario at its full capacity is
    positive. *)
Lemma dynamic_scenario_Qfull_mod (s : voltage_state) :
  0 < voltage_dynamic_t.calculate_Qfull_mod (Tremblay.model Examples.dynamic_scenario s) (225 / 100).
Proof.
  destruct dynamic_scenario_constants as (_ & _ & HK & _).
  unfold voltage_dynamic_t.calculate_Qfull_mod.
  cbn [Tremblay.model voltage_dynamic_t.params voltage_dynamic_t._A voltage_dynamic_t._B0
       voltage_dynamic_t._K voltage_dynamic_t._E0].
  rewrite deq_false by (cbn; lra). cbn [negb].
  set (K := Tremblay.K Examples.dynamic_scenario) in *.
  set (e := exp (- Tremblay.B0 Examples.dynamic_scenario * (225 / 100))).
  assert (He : 0 < e) by apply exp_pos.
  set (C := (_ / K)).
  assert (HC : 0 < C - 1).
  { replace (C - 1) with ((13 / 10 + 5 / 100 * e) / K).
    - apply Rdiv_lt_0_compat; lra.
    - subst C. unfold Tremblay.E0, Tremblay.A. fold K. cbn. field. lra. }
  assert (0 < 225 / 100 / (C - 1)) by (apply Rdiv_lt_0_compat; lra).
  lra.
Qed.

(** C5, as stated, fails: in the scenario of the specification a full cell at
    zero current is at 4.2125 V, above [Vfull = 4.1]. *)
Lemma dynamic_full_cell_above_Vfull :
  exists m,
    voltage_dynamic_t.initialize Examples.dynamic_scenario = Ok m
    /\ Vfull (dynamic (voltage_dynamic_t.params m)) = 41 / 10
    /\ cell_voltage (voltage_dynamic_t.state
         (voltage_dynamic_t.updateVoltage m (225 / 100) (225 / 100) 0 25 1)) = 42125 / 10000.
Proof.
  eexists. split; [apply dynamic_scenario_accepted|]. split; [reflexivity|].
  rewrite (updateVoltage_at_full Examples.dynamic_scenario) by
    (try apply dynamic_scenario_accepted; cbn; rewrite Rdiv_1_r;
     apply Rgt_not_eq, dynamic_scenario_Qfull_mod).
  cbn. rewrite fmax_nonneg by lra. lra.
Qed.

(** C5, amended.  On a model that passed [initialize], with at least one
    string and a non-zero cutoff-adjusted capacity, [updateVoltage] at
    [q = qmax] and zero current leaves
    [cell_voltage = max (Vfull + R * (Qfull * C_rate)) 0]; it leaves
    [max Vfull 0] at the rated current [Qfull * C_rate] per string. *)
Theorem dynamic_updateVoltage_full_charge
    (p : voltage_params) (m : voltage_dynamic_t.t) (q temp dt : R) :
  voltage_dynamic_t.initialize p = Ok m ->
  (0 < num_strings p)%Z ->
  voltage_dynamic_t.calculate_Qfull_mod m (q / IZR (num_strings p)) <> 0 ->
  cell_voltage (voltage_dynamic_t.state (voltage_dynamic_t.updateVoltage m q q 0 temp dt))
  = fmax (Vfull (dynamic p) + resistance p * (Qfull (dynamic p) * C_rate (dynamic p))) 0
  /\
  cell_voltage (voltage_dynamic_t.state
    (voltage_dynamic_t.updateVoltage m q q
       (Qfull (dynamic p) * C_rate (dynamic p) * IZR (num_strings p)) temp dt))
  = fmax (Vfull (dynamic p)) 0.
Proof.
  intros Hm Hns HQ.
  assert (Hns' : IZR (num_strings p) <> 0) by (apply not_0_IZR; lia).
  split; rewrite (updateVoltage_at_full p) by assumption; f_equal.
  - unfold Rdiv. lra.
  - field_simplify_eq; trivial.
Qed.

(** The amended C5 at the scenario of the specification: 4.2125 V at zero
    current, 4.1 V at the rated 2.25 A. *)
Lemma dynamic_updateVoltage_full_charge_scenario :
  let m := Tremblay.model Examples.dynamic_scenario
             {| cell_voltage := 41 / 10; Q_full_mod := 225 / 100 |} in
  (voltage_dynamic_t.initialize Examples.dynamic_scenario = Ok m
   /\ (0 < 1)%Z
   /\ voltage_dynamic_t.calculate_Qfull_mod m (225 / 100 / 1) <> 0)
  /\ cell_voltage (voltage_dynamic_t.state
        (voltage_dynamic_t.updateVoltage m (225 / 100) (225 / 100) 0 25 1))
     = fmax (41 / 10 + 5 / 100 * (225 / 100 * 1)) 0
  /\ cell_voltage (voltage_dynamic_t.state
        (voltage_dynamic_t.updateVoltage m (225 / 100) (225 / 100) (225 / 100 * 1 * 1) 25 1))
     = fmax (41 / 10) 0.
Proof.
  intros m.
  assert (H1 : voltage_dynamic_t.initialize Examples.dynamic_scenario = Ok m)
    by apply dynamic_scenario_accepted.
  assert (H2 : (0 < 1)%Z) by lia.
  assert (H3 : voltage_dynamic_t.calculate_Qfull_mod m (225 / 100 / 1) <> 0)
    by (rewrite Rdiv_1_r; apply Rgt_not_eq, dynamic_scenario_Qfull_mod).
  split; [now repeat split|].
  exact (dynamic_updateVoltage_full_charge Examples.dynamic_scenario m (225 / 100) 25 1 H1 H2 H3).
Defined.

(** ** C8: the state of charge under the logarithm *)

Lemma pow2_pos (x : R) : x <> 0 -> 0 < x ^ 2.
Proof. intros H. simpl. destruct (Rdichotomy x 0 H); nra. Qed.

Lemma SOC_use_cases (tolerance q0 qmax : R) :
  (1 - tolerance < q0 / qmax
   /\ voltage_vanadium_redox_t.SOC_use tolerance q0 qmax = 1 - tolerance)
  \/ (q0 / qmax <= 1 - tolerance /\ q0 / qmax = 0
      /\ voltage_vanadium_redox_t.SOC_use tolerance q0 qmax = 1 / 10 ^ 3)
  \/ (q0 / qmax <= 1 - tolerance /\ q0 / qmax <> 0
      /\ voltage_vanadium_redox_t.SOC_use tolerance q0 qmax = q0 / qmax).
Proof.
  unfold voltage_vanadium_redox_t.SOC_use, dgt.
  destruct (Rlt_dec (1 - tolerance) (q0 / qmax)) as [H | H].
  - left. now rewrite (dlt_true _ _ H).
  - right. rewrite dlt_false by lra.
    destruct (Req_dec_T (q0 / qmax) 0) as [H0 | H0].
    + left. rewrite (deq_true _ _ H0). repeat split; lra.
    + right. rewrite (deq_false _ _ H0). repeat split; lra.
Qed.

(** C8, as stated, fails: the ratio [q0/qmax = 1/2000] lies below [1e-3] and
    is used as it is, whatever tolerance below 1/2 the library is built with. *)
Lemma vanadium_small_SOC_not_raised :
  ~ exists tolerance : R,
      0 < tolerance < 1 / 2
      /\ 1 / 10 ^ 3 <= voltage_vanadium_redox_t.SOC_use tolerance (1 / 2000) 1.
Proof.
  intros (tol & Htol & H).
  destruct (SOC_use_cases tol (1 / 2000) 1) as [[H1 _] | [(_ & H1 & _) | (_ & _ & H1)]].
  - lra.
  - lra.
  - rewrite H1 in H. lra.
Qed.

(** C8, amended.  [voltage_model] takes the logarithm of
    [SOC_use^2 / (1 - SOC_use)^2], where [SOC_use] is [1 - tolerance] when the
    ratio [q0/qmax] is above that, [1e-3] when the ratio is exactly 0, and the
    ratio itself in every other case.  With [0 < tolerance < 1] and
    [0 < qmax], [SOC_use] is therefore never 0 and always below 1, and the
    argument of the logarithm is strictly positive: the model is evaluated
    inside the domain of the logarithm for every [q0]. *)
Theorem vanadium_SOC_use_avoids_singularities
    (tolerance : R) (m : voltage_vanadium_redox_t.t) (q0 qmax I_string T : R) :
  0 < tolerance < 1 ->
  0 < qmax ->
  let s := voltage_vanadium_redox_t.SOC_use tolerance q0 qmax in
  voltage_vanadium_redox_t.voltage_model tolerance m q0 qmax I_string T
  = Vnom_default (voltage_vanadium_redox_t.params m)
    + voltage_vanadium_redox_t.m_RCF m * T * ln (s ^ 2 / (1 - s) ^ 2)
    + Rabs I_string * resistance (voltage_vanadium_redox_t.params m)
  /\ (1 - tolerance < q0 / qmax -> s = 1 - tolerance)
  /\ (q0 = 0 -> s = 1 / 10 ^ 3)
  /\ (q0 / qmax <= 1 - tolerance -> q0 <> 0 -> s = q0 / qmax)
  /\ s <> 0 /\ s < 1
  /\ 0 < s ^ 2 / (1 - s) ^ 2.
Proof.
  intros Htol Hq s.
  assert (Hratio : q0 / qmax = 0 <-> q0 = 0).
  { split; intros H.
    - apply (Rmult_eq_compat_r qmax) in H. unfold Rdiv in H.
      rewrite Rmult_assoc, Rinv_l, Rmult_1_r, Rmult_0_l in H by lra. exact H.
    - subst q0. unfold Rdiv. apply Rmult_0_l. }
  assert (Hs0 : s <> 0 /\ s < 1).
  { subst s.
    destruct (SOC_use_cases tolerance q0 qmax) as [[H1 ->] | [(H1 & H2 & ->) | (H1 & H2 & ->)]];
      split; lra. }
  split; [reflexivity|].
  repeat split; try tauto.
  - intros H. subst s.
    destruct (SOC_use_cases tolerance q0 qmax) as [[H1 ->] | [(H1 & H2 & ->) | (H1 & H2 & ->)]];
      lra.
  - intros H. subst s.
    destruct (SOC_use_cases tolerance q0 qmax) as [[H1 H2] | [(H1 & H2 & H3) | (H1 & H2 & H3)]];
      trivial.
    + rewrite (proj2 Hratio H) in H1. lra.
    + elim H2. tauto.
  - intros H Hq0. subst s.
    destruct (SOC_use_cases tolerance q0 qmax) as [[H1 H2] | [(H1 & H2 & H3) | (H1 & H2 & H3)]];
      trivial.
    + lra.
    + elim Hq0. tauto.
  - destruct Hs0 as [Hs0 Hs1].
    apply Rdiv_lt_0_compat; apply pow2_pos; lra.
Qed.

(** The amended C8 at an empty tank, with the tolerance 0.001. *)
Lemma vanadium_SOC_use_avoids_singularities_empty_tank :
  (0 < 1 / 1000 < 1 /\ 0 < 1)
  /\ voltage_vanadium_redox_t.SOC_use (1 / 1000) 0 1 = 1 / 10 ^ 3
  /\ 0 < voltage_vanadium_redox_t.SOC_use (1 / 1000) 0 1 ^ 2
         / (1 - voltage_vanadium_redox_t.SOC_use (1 / 1000) 0 1) ^ 2.
Proof.
  assert (H1 : 0 < 1 / 1000 < 1) by lra.
  assert (H2 : 0 < 1) by lra.
  split; [split; assumption|].
  pose proof (vanadium_SOC_use_avoids_singularities (1 / 1000)
                (voltage_vanadium_redox_t.initialize Examples.vanadium_scenario) 0 1 0
                (25 + 27315 / 100) H1 H2) as H.
  cbv zeta in H. split.
  - apply H. reflexivity.
  - apply H.
Defined.

(** ** C6: the table voltage falls with the depth of discharge *)

Section TableMonotone.

Import TableSpec.

(** A decreasing table is already in the order [std::sort] produces. *)
Lemma sort_rows_decreasing (rows : list (list R)) :
  decreasing rows -> voltage_table_t.sort_rows rows = rows.
Proof.
  induction rows as [| a rest IH]; [reflexivity|].
  intros [Hhd Htl]. cbn [voltage_table_t.sort_rows]. rewrite (IH Htl).
  destruct rest as [| b rest']; [reflexivity|].
  cbn [voltage_table_t.insert_row]. unfold dgt.
  destruct Hhd as [_ Hv]. now rewrite dlt_false by lra.
Qed.

Lemma reals_snoc (v : list (option R)) (x : option R) :
  voltage_table_t.reals (v ++ [x])
  = match voltage_table_t.reals v, x with
    | Some l, Some r => Some (l ++ [r])
    | _, _ => None
    end.
Proof.
  induction v as [| [a |] v IH]; cbn [app voltage_table_t.reals].
  - now destruct x.
  - rewrite IH. destruct (voltage_table_t.reals v); destruct x; reflexivity.
  - reflexivity.
Qed.

(** The two ways a pass of the loop goes on: at the depth of discharge of
    the row before, with entries that are no real numbers, or with the
    segment from the row before, which is not flat. *)
Lemma scan_row_Ok (Vnom_d : R) (prev : option (list R)) (row : list R)
    (acc acc' : voltage_table_t.scan) :
  voltage_table_t.scan_row Vnom_d prev row acc = Ok acc' ->
  ((exists row0, prev = Some row0 /\ col 0 row = col 0 row0)
   /\ voltage_table_t.scan_slopes acc' = voltage_table_t.scan_slopes acc ++ [None]
   /\ voltage_table_t.scan_intercepts acc' = voltage_table_t.scan_intercepts acc ++ [None])
  \/
  (match prev with
   | Some row0 =>
       col 0 row <> col 0 row0 /\ 1 / 10 ^ 7 <= Rabs (fst (line_of prev row))
   | None => True
   end
   /\ voltage_table_t.scan_slopes acc'
      = voltage_table_t.scan_slopes acc ++ [Some (fst (line_of prev row))]
   /\ voltage_table_t.scan_intercepts acc'
      = voltage_table_t.scan_intercepts acc ++ [Some (snd (line_of prev row))]).
Proof.
  unfold voltage_table_t.scan_row.
  destruct (if voltage_table_t.need_less_than_nom acc && dlt (col 1 row) Vnom_d
            then (false, voltage_table_t.need_greater_than_nom acc)
            else if voltage_table_t.need_greater_than_nom acc && dgt (col 1 row) Vnom_d
                 then (voltage_table_t.need_less_than_nom acc, false)
                 else (voltage_table_t.need_less_than_nom acc,
                       voltage_table_t.need_greater_than_nom acc)) as [less greater].
  destruct prev as [row0 |]; cbn [line_of fst snd].
  - unfold deq. destruct (Req_dec_T (col 0 row - col 0 row0) 0) as [Heq | Hne].
    + intros H. injection H as <-. left. cbn.
      split; [exists row0; split; [reflexivity | lra] | auto].
    + unfold fabs.
      match goal with |- context [dlt ?a ?b] => destruct (Rlt_dec a b) as [Hs | Hs] end.
      * rewrite (dlt_true _ _ Hs). discriminate.
      * rewrite dlt_false by lra. intros H. injection H as <-. right. cbn.
        split; [split; lra | auto].
  - intros H. injection H as <-. right. cbn. auto.
Qed.

(** A pass that leaves real numbers only started from real numbers and
    appended the segment from the row before. *)
Lemma scan_row_lines (Vnom_d : R) (prev : option (list R)) (row : list R)
    (acc acc' : voltage_table_t.scan) (s i : list R) :
  voltage_table_t.scan_row Vnom_d prev row acc = Ok acc' ->
  voltage_table_t.reals (voltage_table_t.scan_slopes acc') = Some s ->
  voltage_table_t.reals (voltage_table_t.scan_intercepts acc') = Some i ->
  exists s0 i0,
    voltage_table_t.reals (voltage_table_t.scan_slopes acc) = Some s0
    /\ voltage_table_t.reals (voltage_table_t.scan_intercepts acc) = Some i0
    /\ s = s0 ++ [fst (line_of prev row)]
    /\ i = i0 ++ [snd (line_of prev row)]
    /\ match prev with
       | Some row0 =>
           col 0 row <> col 0 row0 /\ 1 / 10 ^ 7 <= Rabs (fst (line_of prev row))
       | None => True
       end.
Proof.
  intros H Hs Hi.
  destruct (scan_row_Ok _ _ _ _ _ H) as [(_ & Hs' & Hi') | (Hprev & Hs' & Hi')];
    rewrite Hs', reals_snoc in Hs; rewrite Hi', reals_snoc in Hi.
  - destruct (voltage_table_t.reals (voltage_table_t.scan_slopes acc)); discriminate.
  - destruct (voltage_table_t.reals (voltage_table_t.scan_slopes acc)) as [s0 |];
      [| discriminate].
    destruct (voltage_table_t.reals (voltage_table_t.scan_intercepts acc)) as [i0 |];
      [| discriminate].
    injection Hs as <-. injection Hi as <-.
    exists s0, i0. auto.
Qed.

Lemma scan_rows_lines (Vnom_d : R) (rows : list (list R)) :
  forall (prev : option (list R)) (acc acc' : voltage_table_t.scan) (s i : list R),
    voltage_table_t.scan_rows Vnom_d prev rows acc = Ok acc' ->
    voltage_table_t.reals (voltage_table_t.scan_slopes acc') = Some s ->
    voltage_table_t.reals (voltage_table_t.scan_intercepts acc') = Some i ->
    exists s0 i0,
      voltage_table_t.reals (voltage_table_t.scan_slopes acc) = Some s0
      /\ voltage_table_t.reals (voltage_table_t.scan_intercepts acc) = Some i0
      /\ s = s0 ++ map fst (lines prev rows)
      /\ i = i0 ++ map snd (lines prev rows)
      /\ depths_differ prev rows.
Proof.
  induction rows as [| row rest IH]; intros prev acc acc' s i H Hs Hi.
  - cbn in H. injection H as <-. exists s, i. cbn. now rewrite !app_nil_r.
  - cbn [voltage_table_t.scan_rows] in H.
    destruct (voltage_table_t.scan_row Vnom_d prev row acc) as [acc1 | what] eqn:Hrow;
      [| discriminate].
    cbn [bind] in H.
    destruct (IH _ _ _ _ _ H Hs Hi) as (s1 & i1 & Hs1 & Hi1 & -> & -> & Hrest).
    destruct (scan_row_lines _ _ _ _ _ _ _ Hrow Hs1 Hi1)
      as (s0 & i0 & Hs0 & Hi0 & -> & -> & Hprev).
    exists s0, i0. cbn [lines map depths_differ]. rewrite <- !app_assoc.
    repeat split; trivial.
    destruct prev; [apply Hprev | exact I].
Qed.

(** The segment [calculate_voltage] indexes is the one [select] names. *)
Lemma nth_find_row (dflt : R * R) (rows : list (list R)) (DOD : R) :
  forall (prev : option (list R)) (pre : list (R * R)),
    nth (voltage_table_t.find_row rows DOD (length pre))
        ((pre ++ lines prev rows) ++ [last (pre ++ lines prev rows) dflt]) dflt
    = select (last pre dflt) prev rows DOD.
Proof.
  induction rows as [| row rest IH]; intros prev pre.
  - cbn [lines voltage_table_t.find_row select]. rewrite app_nil_r.
    now rewrite nth_middle.
  - cbn [lines voltage_table_t.find_row select].
    destruct (dgt DOD (col 0 row)).
    + specialize (IH (Some row) (pre ++ [line_of prev row])).
      rewrite last_length, last_last in IH.
      replace (pre ++ line_of prev row :: lines (Some row) rest)
        with ((pre ++ [line_of prev row]) ++ lines (Some row) rest)
        by (now rewrite <- app_assoc).
      exact IH.
    + rewrite <- app_assoc. cbn [app]. now rewrite nth_middle.
Qed.

Lemma last_map_pair {A B : Type} (f : A -> B) (l : list A) (d : A) :
  last (map f l) (f d) = f (last l d).
Proof.
  induction l as [| a l IH]; [reflexivity|].
  destruct l as [| b l]; [reflexivity|]. exact IH.
Qed.

(** A segment between two rows of a decreasing table falls and passes
    through both rows. *)
Lemma line_of_through (row0 row : list R) :
  col 0 row0 < col 0 row -> col 1 row < col 1 row0 ->
  fst (line_of (Some row0) row) < 0
  /\ value (line_of (Some row0) row) (col 0 row0) = col 1 row0
  /\ value (line_of (Some row0) row) (col 0 row) = col 1 row.
Proof.
  intros HD HV. unfold value, line_of. cbn [fst snd].
  repeat split.
  - assert (H : 0 < (col 1 row0 - col 1 row) / (col 0 row - col 0 row0))
      by (apply Rdiv_lt_0_compat; lra).
    replace ((col 1 row - col 1 row0) / (col 0 row - col 0 row0))
      with (- ((col 1 row0 - col 1 row) / (col 0 row - col 0 row0))) by (field; lra).
    lra.
  - ring.
  - field. lra.
Qed.

(** Beyond a row, the selected segments fall and stay at or below the
    voltage of that row. *)
Lemma select_falls (rows : list (list R)) :
  forall (row0 : list R) (ln : R * R),
    decreasing (row0 :: rows) ->
    fst ln <= 0 ->
    value ln (col 0 row0) = col 1 row0 ->
    forall d1 d2, col 0 row0 < d1 -> d1 <= d2 ->
      value (select ln (Some row0) rows d2) d2 <= value (select ln (Some row0) rows d1) d1
      /\ value (select ln (Some row0) rows d1) d1 <= col 1 row0.
Proof.
  induction rows as [| row rest IH]; intros row0 ln Hdec Hslope Hthrough d1 d2 Hd1 Hd12.
  - cbn [select]. unfold value in *. split; nra.
  - destruct Hdec as [[HD HV] Hdec].
    destruct (line_of_through row0 row HD HV) as (Hs & H0 & H1).
    cbn [select]. unfold dgt.
    destruct (Rlt_dec (col 0 row) d1) as [Hc1 | Hc1].
    + rewrite (dlt_true _ _ Hc1), dlt_true by lra.
      destruct (IH row (line_of (Some row0) row) Hdec (Rlt_le _ _ Hs) H1 d1 d2 Hc1 Hd12)
        as [Hmono Hup].
      split; lra.
    + rewrite (dlt_false _ d1) by lra.
      assert (Hup1 : value (line_of (Some row0) row) d1 <= col 1 row0)
        by (unfold value in *; nra).
      assert (Hlow1 : col 1 row <= value (line_of (Some row0) row) d1)
        by (unfold value in *; nra).
      destruct (Rlt_dec (col 0 row) d2) as [Hc2 | Hc2].
      * rewrite (dlt_true _ _ Hc2).
        destruct (IH row (line_of (Some row0) row) Hdec (Rlt_le _ _ Hs) H1 d2 d2 Hc2
                    (Rle_refl _)) as [_ Hup].
        split; lra.
      * rewrite (dlt_false _ d2) by lra.
        split; [unfold value in *; nra | exact Hup1].
Qed.

(** The same from the first row on. *)
Lemma select_falls_from_start (rows : list (list R)) (dflt : R * R) (d1 d2 : R) :
  decreasing rows -> rows <> [] -> d1 <= d2 ->
  value (select dflt None rows d2) d2 <= value (select dflt None rows d1) d1.
Proof.
  intros Hdec Hne Hd. destruct rows as [| row0 rest]; [contradiction|].
  cbn [select line_of]. unfold dgt.
  assert (H0 : value (0, col 1 row0) (col 0 row0) = col 1 row0)
    by (unfold value; cbn; ring).
  destruct (Rlt_dec (col 0 row0) d1) as [Hc1 | Hc1].
  - rewrite (dlt_true _ _ Hc1), dlt_true by lra.
    apply (select_falls rest row0 (0, col 1 row0) Hdec (Rle_refl 0) H0 d1 d2 Hc1 Hd).
  - rewrite (dlt_false _ d1) by lra.
    destruct (Rlt_dec (col 0 row0) d2) as [Hc2 | Hc2].
    + rewrite (dlt_true _ _ Hc2).
      destruct (select_falls rest row0 (0, col 1 row0) Hdec (Rle_refl 0) H0 d2 d2 Hc2
                  (Rle_refl _)) as [_ Hup].
      unfold value at 2. cbn [fst snd]. lra.
    + rewrite (dlt_false _ d2) by lra. unfold value. cbn. lra.
Qed.

(** What [initialize] builds from a decreasing table: the table itself and
    its segments, the last one repeated. *)
Lemma initialize_decreasing (p : voltage_params) (m : voltage_table_t.t) :
  decreasing (voltage_table p) ->
  voltage_table_t.initialize p = Ok (Some m) ->
  (2 <= length (voltage_table p))%nat
  /\ voltage_table (voltage_table_t.params m) = voltage_table p
  /\ voltage_table_t.slopes m
     = map fst (lines None (voltage_table p)
                ++ [last (lines None (voltage_table p)) (0, 0)])
  /\ voltage_table_t.intercepts m
     = map snd (lines None (voltage_table p)
                ++ [last (lines None (voltage_table p)) (0, 0)]).
Proof.
  intros Hdec. unfold voltage_table_t.initialize.
  rewrite (sort_rows_decreasing _ Hdec).
  destruct (voltage_table p) as [| row0 rest] eqn:Htable; [discriminate|].
  destruct (Nat.ltb_spec (length (row0 :: rest)) 2) as [Hlen | Hlen]; [discriminate|].
  cbn [orb].
  destruct (negb _); [discriminate|].
  destruct (voltage_table_t.scan_rows _ _ _ _) as [acc | what] eqn:Hscan; [| discriminate].
  cbn [bind].
  destruct (voltage_table_t.need_less_than_nom acc); [discriminate|].
  destruct (voltage_table_t.need_greater_than_nom acc); [discriminate|].
  destruct (voltage_table_t.reals (voltage_table_t.scan_slopes acc)) as [s |] eqn:Hs;
    [| discriminate].
  destruct (voltage_table_t.reals (voltage_table_t.scan_intercepts acc)) as [i |] eqn:Hi;
    [| discriminate].
  intros H. injection H as <-.
  destruct (scan_rows_lines _ _ _ _ _ _ _ Hscan Hs Hi) as (s0 & i0 & Hs0 & Hi0 & -> & -> & _).
  cbn [voltage_table_t.scan_slopes voltage_table_t.scan_intercepts voltage_table_t.reals]
    in Hs0, Hi0.
  injection Hs0 as <-. injection Hi0 as <-. cbn [app].
  cbn [voltage_table_t.params voltage_table_t.slopes voltage_table_t.intercepts
       set_voltage_table voltage_table].
  rewrite !map_app. cbn [map].
  rewrite <- (last_map_pair fst), <- (last_map_pair snd). cbn [fst snd].
  repeat split. exact Hlen.
Qed.

(** [calculate_voltage] on such a model is the selected segment at the
    clamped depth of discharge, floored at 0. *)
Lemma calculate_voltage_select (p : voltage_params) (m : voltage_table_t.t) (DOD : R) :
  decreasing (voltage_table p) ->
  voltage_table_t.initialize p = Ok (Some m) ->
  voltage_table_t.calculate_voltage m DOD
  = fmax (value (select (0, 0) None (voltage_table p) (fmin (fmax 0 DOD) 100))
                (fmin (fmax 0 DOD) 100)) 0.
Proof.
  intros Hdec Hm.
  destruct (initialize_decreasing p m Hdec Hm) as (_ & Ht & Hs & Hi).
  unfold voltage_table_t.calculate_voltage. rewrite Ht, Hs, Hi.
  assert (Hfst : forall n (l : list (R * R)), nth n (map fst l) 0 = fst (nth n l (0, 0)))
    by (intros n l; exact (map_nth fst l (0, 0) n)).
  assert (Hsnd : forall n (l : list (R * R)), nth n (map snd l) 0 = snd (nth n l (0, 0)))
    by (intros n l; exact (map_nth snd l (0, 0) n)).
  rewrite Hfst, Hsnd.
  pose proof (nth_find_row (0, 0) (voltage_table p) (fmin (fmax 0 DOD) 100) None []) as H.
  cbn [app length last] in H. rewrite H. reflexivity.
Qed.

End TableMonotone.

(** Decide the comparisons of concrete numbers that stand in the goal. *)
Ltac decide_comparisons :=
  unfold dgt, dge, fabs;
  repeat match goal with
         | |- context [Rabs ?a] =>
             first [rewrite (Rabs_pos_eq a) by lra | rewrite (Rabs_left a) by lra]
         | |- context [dlt ?a ?b] =>
             first [rewrite (dlt_true a b) by lra | rewrite (dlt_false a b) by lra]
         | |- context [dle ?a ?b] =>
             first [rewrite (dle_true a b) by lra | rewrite (dle_false a b) by lra]
         | |- context [deq ?a ?b] =>
             first [rewrite (deq_true a b) by lra | rewrite (deq_false a b) by lra]
         end.

Lemma table_scenario_decreasing :
  TableSpec.decreasing (voltage_table Examples.table_scenario).
Proof. cbn. repeat split; lra. Qed.

Lemma table_scenario_initialize :
  voltage_table_t.initialize Examples.table_scenario = Ok (Some Examples.table_model).
Proof.
  unfold voltage_table_t.initialize.
  cbn [Examples.table_scenario voltage_table Vnom_default length Nat.ltb Nat.leb Nat.eqb
       negb orb voltage_table_t.sort_rows voltage_table_t.insert_row col nth].
  decide_comparisons.
  cbn [voltage_table_t.scan_rows].
  unfold voltage_table_t.scan_row at 1.
  cbn [col nth voltage_table_t.need_less_than_nom voltage_table_t.need_greater_than_nom andb].
  decide_comparisons.
  cbn [andb bind voltage_table_t.scan_slopes voltage_table_t.scan_intercepts app].
  unfold voltage_table_t.scan_row.
  cbn [col nth voltage_table_t.need_less_than_nom voltage_table_t.need_greater_than_nom andb].
  decide_comparisons.
  replace ((34 / 10 - 41 / 10) / (100 - 0)) with (- (7 / 1000)) by lra.
  decide_comparisons.
  cbn [andb bind voltage_table_t.scan_slopes voltage_table_t.scan_intercepts app last
       voltage_table_t.need_less_than_nom voltage_table_t.need_greater_than_nom].
  replace (41 / 10 - - (7 / 1000) * 0) with (41 / 10) by lra.
  reflexivity.
Qed.

(** The scenario of the specification: half way down the table the voltage
    is the midpoint 3.75 V. *)
Lemma table_scenario_midpoint :
  voltage_table_t.calculate_voltage Examples.table_model 50 = 375 / 100.
Proof.
  unfold voltage_table_t.calculate_voltage, fmax, fmin.
  rewrite (Rmax_right 0 50), (Rmin_left 50 100) by lra.
  cbn [Examples.table_model Examples.table_scenario voltage_table_t.params voltage_table
       voltage_table_t.find_row col nth].
  decide_comparisons.
  cbn [nth voltage_table_t.slopes voltage_table_t.intercepts Examples.table_model].
  rewrite Rmax_left by lra. lra.
Qed.

(** C6. On a model initialised from a monotonically decreasing table,
    [calculate_voltage] is non-increasing over the depths of discharge of
    [0, 100]. *)
Theorem table_voltage_nonincreasing
    (p : voltage_params) (m : voltage_table_t.t) (DOD1 DOD2 : R) :
  TableSpec.decreasing (voltage_table p) ->
  voltage_table_t.initialize p = Ok (Some m) ->
  0 <= DOD1 -> DOD1 <= DOD2 -> DOD2 <= 100 ->
  voltage_table_t.calculate_voltage m DOD2 <= voltage_table_t.calculate_voltage m DOD1.
Proof.
  intros Hdec Hm H0 H12 H100.
  rewrite !(calculate_voltage_select p m) by assumption.
  destruct (initialize_decreasing p m Hdec Hm) as (Hlen & _).
  unfold fmax, fmin.
  rewrite (Rmax_right 0 DOD1), (Rmax_right 0 DOD2) by lra.
  rewrite (Rmin_left DOD1 100), (Rmin_left DOD2 100) by lra.
  apply Rle_max_compat_r.
  apply select_falls_from_start; trivial.
  intros Hnil. rewrite Hnil in Hlen. cbn in Hlen. lia.
Qed.

(** C6 at the table scenario, between the depths of discharge 0 and 50. *)
Lemma table_voltage_nonincreasing_scenario :
  (TableSpec.decreasing (voltage_table Examples.table_scenario)
   /\ voltage_table_t.initialize Examples.table_scenario = Ok (Some Examples.table_model)
   /\ 0 <= 0 /\ 0 <= 50 /\ 50 <= 100)
  /\ voltage_table_t.calculate_voltage Examples.table_model 50
     <= voltage_table_t.calculate_voltage Examples.table_model 0.
Proof.
  assert (H1 := table_scenario_decreasing).
  assert (H2 := table_scenario_initialize).
  assert (H3 : 0 <= 0) by lra.
  assert (H4 : 0 <= 50) by lra.
  assert (H5 : 50 <= 100) by lra.
  split; [exact (conj H1 (conj H2 (conj H3 (conj H4 H5))))|].
  exact (table_voltage_nonincreasing Examples.table_scenario Examples.table_model 0 50
           H1 H2 H3 H4 H5).
Defined.

(** ** C2 and C7: the power request and the extreme powers *)

(** When the request reaches the extreme power of its direction, the Table
    variant answers with the current of that extreme. *)
Lemma table_target_at_extreme (m : voltage_table_t.t) (P_watts q qmax T : R) :
  P_watts <> 0 ->
  Rabs (fst (if dlt P_watts 0
             then voltage_table_t.calculate_max_charge_w m q qmax 0
             else voltage_table_t.calculate_max_discharge_w m q qmax 0))
  <= Rabs P_watts ->
  voltage_table_t.calculate_current_for_target_w m P_watts q qmax T
  = snd (if dlt P_watts 0
         then voltage_table_t.calculate_max_charge_w m q qmax 0
         else voltage_table_t.calculate_max_discharge_w m q qmax 0).
Proof.
  intros HP Hmax. unfold voltage_table_t.calculate_current_for_target_w.
  rewrite (deq_false _ _ HP).
  destruct (if dlt P_watts 0
            then voltage_table_t.calculate_max_charge_w m q qmax 0
            else voltage_table_t.calculate_max_discharge_w m q qmax 0) as [max_p current].
  cbn [fst snd] in *. now rewrite (dle_true _ _ Hmax).
Qed.

(** The scan of [calculate_max_discharge_w] keeps a non-negative power, and a
    zero current as long as the power is zero. *)
Lemma max_discharge_scan (m : voltage_table_t.t) (qmax DOD0 A B : R) (segments : list nat) :
  forall acc : R * R,
    0 <= fst acc -> (fst acc = 0 -> snd acc = 0) ->
    0 <= fst (fold_left (voltage_table_t.max_discharge_step m qmax DOD0 A B) segments acc)
    /\ (fst (fold_left (voltage_table_t.max_discharge_step m qmax DOD0 A B) segments acc) = 0 ->
        snd (fold_left (voltage_table_t.max_discharge_step m qmax DOD0 A B) segments acc) = 0).
Proof.
  induction segments as [| i rest IH]; intros [max_P max_I] H0 H1; [now split|].
  cbn [fold_left]. apply IH.
  - unfold voltage_table_t.max_discharge_step, dgt.
    match goal with |- context [dlt ?a ?b] => destruct (Rlt_dec a b) as [H | H] end.
    + rewrite (dlt_true _ _ H). cbn [fst] in *. lra.
    + rewrite dlt_false by lra. exact H0.
  - unfold voltage_table_t.max_discharge_step, dgt.
    match goal with |- context [dlt ?a ?b] => destruct (Rlt_dec a b) as [H | H] end.
    + rewrite (dlt_true _ _ H). cbn [fst snd] in *. lra.
    + rewrite dlt_false by lra. exact H1.
Qed.

Lemma table_max_discharge_shape (m : voltage_table_t.t) (q qmax T : R) :
  exists max_P max_I,
    voltage_table_t.calculate_max_discharge_w m q qmax T
    = (max_P * IZR (num_cells_series (voltage_table_t.params m)), fmax 0 max_I)
    /\ 0 <= max_P /\ (max_P = 0 -> max_I = 0).
Proof.
  unfold voltage_table_t.calculate_max_discharge_w.
  pose proof (max_discharge_scan m qmax (calc_DOD q qmax) (q - qmax) (qmax / 100)
                (seq 0 (length (voltage_table_t.slopes m))) (0, 0) (Rle_refl 0)
                (fun _ => eq_refl)) as [H0 H1].
  destruct (fold_left _ _ _) as [max_P max_I].
  exists max_P, max_I. cbn [fst snd] in *. auto.
Qed.

(** C7. With at least one cell in series, the current
    [calculate_current_for_target_w] returns for the power of
    [calculate_max_discharge_w] is exactly the current that came with that
    power. *)
Theorem table_max_discharge_round_trip (m : voltage_table_t.t) (q qmax T T' : R) :
  (0 < num_cells_series (voltage_table_t.params m))%Z ->
  voltage_table_t.calculate_current_for_target_w m
    (fst (voltage_table_t.calculate_max_discharge_w m q qmax T)) q qmax T'
  = snd (voltage_table_t.calculate_max_discharge_w m q qmax T).
Proof.
  intros Hcells.
  assert (Hn : 0 < IZR (num_cells_series (voltage_table_t.params m))) by now apply IZR_lt.
  destruct (table_max_discharge_shape m q qmax T) as (max_P & max_I & Heq & H0 & H1).
  destruct (Req_dec_T max_P 0) as [Hz | Hz].
  - rewrite Heq. cbn [fst snd]. rewrite Hz, (H1 Hz), Rmult_0_l.
    unfold voltage_table_t.calculate_current_for_target_w.
    rewrite (deq_true 0 0 eq_refl). unfold fmax. now rewrite Rmax_left by lra.
  - assert (HP : 0 < max_P * IZR (num_cells_series (voltage_table_t.params m)))
      by (apply Rmult_lt_0_compat; lra).
    rewrite table_target_at_extreme.
    + rewrite Heq. cbn [fst]. rewrite dlt_false by lra.
      change (voltage_table_t.calculate_max_discharge_w m q qmax 0)
        with (voltage_table_t.calculate_max_discharge_w m q qmax T).
      now rewrite Heq.
    + rewrite Heq. cbn [fst]. lra.
    + rewrite Heq. cbn [fst]. rewrite dlt_false by lra.
      change (voltage_table_t.calculate_max_discharge_w m q qmax 0)
        with (voltage_table_t.calculate_max_discharge_w m q qmax T).
      rewrite Heq. cbn [fst]. lra.
Qed.

(** C7 at the table scenario, from 1 Ah of 2 Ah. *)
Lemma table_max_discharge_round_trip_scenario :
  (0 < 1)%Z
  /\ voltage_table_t.calculate_current_for_target_w Examples.table_model
       (fst (voltage_table_t.calculate_max_discharge_w Examples.table_model 1 2 25)) 1 2 25
     = snd (voltage_table_t.calculate_max_discharge_w Examples.table_model 1 2 25).
Proof.
  assert (H : (0 < 1)%Z) by lia.
  split; [exact H|].
  exact (table_max_discharge_round_trip Examples.table_model 1 2 25 25 H).
Defined.

Section VanadiumUnclamped.

Variable tolerance : R.
Hypothesis tolerance_small : 0 < tolerance < 1 / 2.

Local Abbreviation x0 := (FullTank.x0 tolerance).
Local Abbreviation kelvin := FullTank.kelvin.
Local Abbreviation m := (FullTank.m tolerance).
Local Abbreviation L := (FullTank.L tolerance).
Local Abbreviation cv := (FullTank.cv tolerance).

Lemma unclamped_x0_negative : x0 < 0.
Proof.
  unfold FullTank.x0. assert (0 < tolerance / (1 - 2 * tolerance)) by (apply Rdiv_lt_0_compat; lra).
  lra.
Qed.

Lemma unclamped_L_positive : 0 < L.
Proof.
  unfold FullTank.L. rewrite <- ln_1. apply ln_increasing; [lra|].
  replace (1 - (1 - tolerance)) with tolerance by lra.
  apply Rmult_lt_reg_r with (tolerance ^ 2); [apply pow2_pos; lra|].
  unfold Rdiv. rewrite Rmult_assoc, Rinv_l by (apply Rgt_not_eq, pow2_pos; lra).
  simpl. nra.
Qed.

Lemma unclamped_cell_voltage : cell_voltage (voltage_vanadium_redox_t.state m) = cv.
Proof.
  unfold FullTank.m, voltage_vanadium_redox_t.updateVoltage, voltage_vanadium_redox_t.voltage_model.
  cbn [voltage_vanadium_redox_t.state voltage_vanadium_redox_t.set_state set_cell_voltage
       cell_voltage voltage_vanadium_redox_t.params voltage_vanadium_redox_t.initialize
       voltage_vanadium_redox_t.m_RCF Examples.vanadium_scenario Vnom_default resistance
       num_strings].
  destruct (SOC_use_cases tolerance (1 / 1) (1 / 1)) as [[_ ->] | [(H & _) | (H & _)]];
    [reflexivity | lra | lra].
Qed.

Lemma unclamped_cv_positive : 0 < cv.
Proof.
  unfold FullTank.cv. pose proof unclamped_L_positive. pose proof (Rabs_pos (x0 / 1)).
  assert (0 < voltage_vanadium_redox_t.RCF * kelvin)
    by (unfold voltage_vanadium_redox_t.RCF, FullTank.kelvin; lra).
  nra.
Qed.

(** The initial guess of the request [x0 * cv] is [x0], and it solves the
    power balance exactly. *)
Lemma unclamped_residual_at_guess :
  voltage_vanadium_redox_t.solve_current_for_power m (x0 * cv / 1) (1 / 1) (1 / 1) kelvin x0
  = 0.
Proof.
  unfold voltage_vanadium_redox_t.solve_current_for_power.
  cbn [FullTank.m voltage_vanadium_redox_t.updateVoltage voltage_vanadium_redox_t.set_state
       voltage_vanadium_redox_t.params voltage_vanadium_redox_t.initialize
       voltage_vanadium_redox_t.m_RCF Examples.vanadium_scenario Vnom_default resistance
       dt_hr].
  replace ((1 / 1 - x0 * 1) / (1 / 1) * ((1 / 1 - x0 * 1) / (1 / 1))
           / (1 - (1 / 1 - x0 * 1) / (1 / 1)) ^ 2)
    with ((1 - tolerance) ^ 2 / (1 - (1 - tolerance)) ^ 2)
    by (unfold FullTank.x0; field; lra).
  fold L. unfold FullTank.cv. replace (x0 / 1) with x0 by lra. lra.
Qed.

Lemma unclamped_answer (newton : root_finder) :
  stays_at_root newton ->
  voltage_vanadium_redox_t.calculate_current_for_target_w newton m (x0 * cv) 1 1 kelvin = x0.
Proof.
  intros Hstay.
  pose proof unclamped_x0_negative as Hx. pose proof unclamped_cv_positive as Hcv.
  unfold voltage_vanadium_redox_t.calculate_current_for_target_w.
  rewrite deq_false by nra.
  rewrite unclamped_cell_voltage.
  rewrite deq_false by lra. cbn [negb].
  change (num_cells_series (voltage_vanadium_redox_t.params m)) with 1%Z.
  change (num_strings (voltage_vanadium_redox_t.params m)) with 1%Z.
  change (dt_hr (voltage_vanadium_redox_t.params m)) with 1.
  change (IZR (1 * 1)) with 1.
  replace (x0 * cv / 1 / cv * 1) with x0 by (field; lra).
  rewrite Hstay by apply unclamped_residual_at_guess.
  lra.
Qed.

Lemma unclamped_extreme :
  voltage_vanadium_redox_t.calculate_max_charge_w tolerance m 1 1 kelvin = (0, 0).
Proof.
  unfold voltage_vanadium_redox_t.calculate_max_charge_w.
  change (num_cells_series (voltage_vanadium_redox_t.params m)) with 1%Z.
  change (num_strings (voltage_vanadium_redox_t.params m)) with 1%Z.
  change (dt_hr (voltage_vanadium_redox_t.params m)) with 1.
  replace ((1 / 1 - 1 / 1) / 1) with 0 by lra.
  f_equal; ring.
Qed.

(** No root finder that stays at a root makes the Vanadium variant clamp. *)
Lemma vanadium_does_not_clamp (newton : root_finder) :
  stays_at_root newton ->
  ~ voltage_vanadium_redox_t.clamps_to_extreme tolerance newton.
Proof.
  intros Hstay Hclamp.
  pose proof unclamped_x0_negative as Hx. pose proof unclamped_cv_positive as Hcv.
  assert (HP : x0 * cv < 0) by nra.
  specialize (Hclamp m (x0 * cv) 1 1 kelvin (Rlt_not_eq _ _ HP)).
  cbv zeta in Hclamp. rewrite (dlt_true _ _ HP), unclamped_extreme in Hclamp.
  cbn [fst snd] in Hclamp. rewrite Rabs_R0 in Hclamp.
  specialize (Hclamp (Rabs_pos _)).
  rewrite (unclamped_answer newton Hstay) in Hclamp. lra.
Qed.

End VanadiumUnclamped.

(** C2, as stated, fails for the VanadiumRedox variant: whatever tolerance
    below 1/2 the library is built with and whatever root finder that stays at
    a root it is linked to, some request at or beyond the extreme power of its
    direction is not answered with the current of that extreme.  (A full
    one-ampere-hour tank can take no charge, so the extreme charge power and
    its current are 0, and the request to charge is answered with the non-zero
    current the residual vanishes at.) *)
Lemma vanadium_target_not_clamped :
  ~ exists (tolerance : R) (newton : root_finder),
      0 < tolerance < 1 / 2
      /\ stays_at_root newton
      /\ voltage_vanadium_redox_t.clamps_to_extreme tolerance newton.
Proof.
  intros (tolerance & newton & Htol & Hstay & Hclamp).
  exact (vanadium_does_not_clamp tolerance Htol newton Hstay Hclamp).
Qed.

(** The charge direction of the table scenario: from 1 Ah of 2 Ah the extreme
    is 4.1 W at -1 A. *)
Lemma table_scenario_max_charge :
  voltage_table_t.calculate_max_charge_w Examples.table_model 1 2 0
  = (41 / 10 * ((1 - 2) / 1) * 1, (1 - 2) / 1).
Proof.
  unfold voltage_table_t.calculate_max_charge_w.
  cbn [Examples.table_model Examples.table_scenario voltage_table_t.params dt_hr
       num_cells_series].
  do 3 f_equal.
  unfold voltage_table_t.calculate_voltage, fmax, fmin.
  rewrite (Rmax_left 0 0), (Rmin_left 0 100) by lra.
  cbn [Examples.table_model Examples.table_scenario voltage_table_t.params voltage_table
       voltage_table_t.find_row col nth].
  decide_comparisons.
  cbn [nth voltage_table_t.slopes voltage_table_t.intercepts Examples.table_model].
  rewrite Rmax_left by lra. lra.
Qed.

(** C2, amended.  Only the Table variant clamps: a non-zero request whose
    magnitude reaches the extreme power of its direction (charge for a
    negative request, discharge otherwise) is answered with the current of
    that extreme.  The Dynamic and VanadiumRedox variants compare the request
    with nothing: their answer to a non-zero request is what the root finder
    returns for the power balance of the request, scaled by the number of
    strings (and by -1 for a charge request of the Dynamic variant). *)
Theorem target_power_clamping (newton : root_finder) (P_watts q qmax T : R) :
  P_watts <> 0 ->
  (forall m : voltage_table_t.t,
      let extreme :=
        if dlt P_watts 0 then voltage_table_t.calculate_max_charge_w m q qmax 0
        else voltage_table_t.calculate_max_discharge_w m q qmax 0 in
      Rabs (fst extreme) <= Rabs P_watts ->
      voltage_table_t.calculate_current_for_target_w m P_watts q qmax T = snd extreme)
  /\
  (forall m : voltage_dynamic_t.t,
      let p := voltage_dynamic_t.params m in
      let solver_power := Rabs P_watts / IZR (num_cells_series p * num_strings p) in
      let solver_q := q / IZR (num_strings p) in
      let solver_Q := qmax / IZR (num_strings p) in
      let solver_Q_mod :=
        if negb (deq (Vcut (dynamic p)) 0)
        then voltage_dynamic_t.calculate_Qfull_mod m solver_Q else solver_Q in
      exists x0 : R,
        voltage_dynamic_t.calculate_current_for_target_w newton m P_watts q qmax T
        = if dgt P_watts 0
          then newton (voltage_dynamic_t.solve_current_for_discharge_power m
                         solver_power solver_q solver_Q solver_Q_mod)
                      x0 100%nat (1 / 10 ^ 6) (1 / 10 ^ 6) (7 / 10)
               * IZR (num_strings p) * 1
          else newton (voltage_dynamic_t.solve_current_for_charge_power m
                         solver_power solver_q solver_Q solver_Q_mod)
                      x0 100%nat (1 / 10 ^ 6) (1 / 10 ^ 6) (7 / 10)
               * IZR (num_strings p) * -1)
  /\
  (forall m : voltage_vanadium_redox_t.t,
      let p := voltage_vanadium_redox_t.params m in
      exists x0 : R,
        voltage_vanadium_redox_t.calculate_current_for_target_w newton m P_watts q qmax T
        = newton (voltage_vanadium_redox_t.solve_current_for_power m
                    (P_watts / IZR (num_cells_series p * num_strings p))
                    (q / IZR (num_strings p)) (qmax / IZR (num_strings p)) T)
                 x0 100%nat (1 / 10 ^ 6) (1 / 10 ^ 6) (7 / 10)
          * IZR (num_strings p)).
Proof.
  intros HP. split; [| split]; intros m.
  - intros extreme Hmax. now apply table_target_at_extreme.
  - cbv zeta. unfold voltage_dynamic_t.calculate_current_for_target_w.
    rewrite (deq_false _ _ HP).
    eexists. destruct (dgt P_watts 0); reflexivity.
  - cbv zeta. unfold voltage_vanadium_redox_t.calculate_current_for_target_w.
    rewrite (deq_false _ _ HP).
    eexists. reflexivity.
Qed.

(** The Table part of the amended C2 at the table scenario: a request to
    charge with 100 W, beyond the extreme 4.1 W, is answered with the -1 A of
    that extreme. *)
Lemma target_power_clamping_scenario :
  (-100 <> 0
   /\ Rabs (fst (voltage_table_t.calculate_max_charge_w Examples.table_model 1 2 0))
      <= Rabs (-100))
  /\ voltage_table_t.calculate_current_for_target_w Examples.table_model (-100) 1 2 25
     = (1 - 2) / 1.
Proof.
  assert (H1 : -100 <> 0) by lra.
  assert (H2 : Rabs (fst (voltage_table_t.calculate_max_charge_w Examples.table_model 1 2 0))
               <= Rabs (-100)).
  { rewrite table_scenario_max_charge. cbn [fst].
    rewrite (Rabs_left (41 / 10 * ((1 - 2) / 1) * 1)), (Rabs_left (-100)) by lra. lra. }
  split; [exact (conj H1 H2)|].
  pose proof (proj1 (target_power_clamping (fun _ x _ _ _ _ => x) (-100) 1 2 25 H1)
                Examples.table_model) as H.
  cbv zeta in H. rewrite (dlt_true (-100) 0) in H by lra.
  rewrite (H H2), table_scenario_max_charge. reflexivity.
Defined.

(** * Further properties of the voltage models *)

(** ** Table variant: what [initialize] accepts and what it builds *)

Section TableInitialize.

Import TableSpec.

(** Everything an [initialize] that returns went through. *)
Lemma table_initialize_returns (p : voltage_params) (o : option voltage_table_t.t) :
  voltage_table_t.initialize p = Ok o ->
  exists row0 rest acc,
    voltage_table p = row0 :: rest
    /\ (2 <= length (voltage_table p))%nat
    /\ length row0 = 2%nat
    /\ voltage_table_t.scan_rows (Vnom_default p) None
         (voltage_table_t.sort_rows (voltage_table p))
         {| voltage_table_t.need_less_than_nom := true;
            voltage_table_t.need_greater_than_nom := true;
            voltage_table_t.scan_slopes := [];
            voltage_table_t.scan_intercepts := [] |} = Ok acc
    /\ voltage_table_t.need_less_than_nom acc = false
    /\ voltage_table_t.need_greater_than_nom acc = false
    /\ o = match voltage_table_t.reals (voltage_table_t.scan_slopes acc),
                 voltage_table_t.reals (voltage_table_t.scan_intercepts acc) with
           | Some s, Some i =>
               Some {| voltage_table_t.params :=
                         set_voltage_table p (voltage_table_t.sort_rows (voltage_table p));
                       voltage_table_t.state := voltage_t.initialize p;
                       voltage_table_t.slopes := s ++ [last s 0];
                       voltage_table_t.intercepts := i ++ [last i 0] |}
           | _, _ => None
           end.
Proof.
  unfold voltage_table_t.initialize.
  destruct (voltage_table p) as [| row0 rest] eqn:Htable; [discriminate|].
  destruct (Nat.ltb_spec (length (row0 :: rest)) 2) as [Hlen | Hlen]; [discriminate|].
  cbn [orb].
  destruct (Nat.eqb_spec (length row0) 2) as [Hcols | Hcols]; [| discriminate].
  cbn [negb].
  destruct (voltage_table_t.scan_rows _ _ _ _) as [acc | what] eqn:Hscan; [| discriminate].
  cbn [bind].
  destruct (voltage_table_t.need_less_than_nom acc) eqn:Hless; [discriminate|].
  destruct (voltage_table_t.need_greater_than_nom acc) eqn:Hgreater; [discriminate|].
  intros H. exists row0, rest, acc. repeat split; trivial.
  destruct (voltage_table_t.reals (voltage_table_t.scan_slopes acc));
    destruct (voltage_table_t.reals (voltage_table_t.scan_intercepts acc));
    now injection H as <-.
Qed.

(** Everything a successful [initialize] went through: the sorted table has
    two rows at least, no row of it is at the depth of discharge of the row
    before, and the model holds its segments, the last one repeated. *)
Lemma table_initialize_inversion (p : voltage_params) (m : voltage_table_t.t) :
  voltage_table_t.initialize p = Ok (Some m) ->
  exists row0 rest acc,
    voltage_table p = row0 :: rest
    /\ (2 <= length (voltage_table p))%nat
    /\ length row0 = 2%nat
    /\ voltage_table_t.scan_rows (Vnom_default p) None
         (voltage_table_t.sort_rows (voltage_table p))
         {| voltage_table_t.need_less_than_nom := true;
            voltage_table_t.need_greater_than_nom := true;
            voltage_table_t.scan_slopes := [];
            voltage_table_t.scan_intercepts := [] |} = Ok acc
    /\ voltage_table_t.need_less_than_nom acc = false
    /\ voltage_table_t.need_greater_than_nom acc = false
    /\ voltage_table_t.reals (voltage_table_t.scan_slopes acc)
       = Some (map fst (lines None (voltage_table_t.sort_rows (voltage_table p))))
    /\ voltage_table_t.reals (voltage_table_t.scan_intercepts acc)
       = Some (map snd (lines None (voltage_table_t.sort_rows (voltage_table p))))
    /\ depths_differ None (voltage_table_t.sort_rows (voltage_table p))
    /\ m = {| voltage_table_t.params :=
                set_voltage_table p (voltage_table_t.sort_rows (voltage_table p));
              voltage_table_t.state := voltage_t.initialize p;
              voltage_table_t.slopes :=
                map fst (lines None (voltage_table_t.sort_rows (voltage_table p)))
                ++ [last (map fst (lines None (voltage_table_t.sort_rows (voltage_table p))))
                         0];
              voltage_table_t.intercepts :=
                map snd (lines None (voltage_table_t.sort_rows (voltage_table p)))
                ++ [last (map snd (lines None (voltage_table_t.sort_rows (voltage_table p))))
                         0] |}.
Proof.
  intros Hm.
  destruct (table_initialize_returns p _ Hm)
    as (row0 & rest & acc & Ht & Hlen & Hcols & Hscan & Hless & Hgreater & Ho).
  destruct (voltage_table_t.reals (voltage_table_t.scan_slopes acc)) as [s |] eqn:Hs;
    [| discriminate].
  destruct (voltage_table_t.reals (voltage_table_t.scan_intercepts acc)) as [i |] eqn:Hi;
    [| discriminate].
  injection Ho as ->.
  destruct (scan_rows_lines _ _ _ _ _ _ _ Hscan Hs Hi)
    as (s0 & i0 & Hs0 & Hi0 & -> & -> & Hdiffer).
  cbn [voltage_table_t.scan_slopes voltage_table_t.scan_intercepts voltage_table_t.reals]
    in Hs0, Hi0.
  injection Hs0 as <-. injection Hi0 as <-. cbn [app].
  exists row0, rest, acc. repeat split; trivial.
Qed.

(** X1. [initialize] rejects an empty table, a table of one row and a table
    whose first row does not have two columns, each with the message of its
    check. *)
Theorem table_initialize_rejects_malformed (p : voltage_params) :
  (voltage_table p = [] ->
   voltage_table_t.initialize p = Throw "voltage_table_t error: Empty voltage table.")
  /\
  (forall row0 rest,
      voltage_table p = row0 :: rest ->
      rest = [] \/ length row0 <> 2%nat ->
      voltage_table_t.initialize p =
      Throw "voltage_table_t error: Battery voltage matrix must have 2 columns and at least 2 rows.").
Proof.
  split.
  - intros H. unfold voltage_table_t.initialize. now rewrite H.
  - intros row0 rest H Hbad. unfold voltage_table_t.initialize. rewrite H.
    destruct Hbad as [-> | Hcols]; [reflexivity|].
    destruct (Nat.eqb_spec (length row0) 2) as [Heq | _]; [contradiction|].
    cbn [negb]. now rewrite orb_true_r.
Qed.

Lemma insert_row_permutation (a : list R) (rows : list (list R)) :
  Permutation (a :: rows) (voltage_table_t.insert_row a rows).
Proof.
  induction rows as [| b rest IH]; [reflexivity|].
  cbn [voltage_table_t.insert_row]. destruct (dgt (col 1 b) (col 1 a)); [| reflexivity].
  rewrite perm_swap. now apply perm_skip.
Qed.

Lemma sort_rows_permutation (rows : list (list R)) :
  Permutation rows (voltage_table_t.sort_rows rows).
Proof.
  induction rows as [| a rest IH]; [reflexivity|].
  cbn [voltage_table_t.sort_rows].
  rewrite <- insert_row_permutation. now apply perm_skip.
Qed.

Lemma insert_row_sorted (a : list R) (rows : list (list R)) :
  Sorted voltage_descends rows -> Sorted voltage_descends (voltage_table_t.insert_row a rows).
Proof.
  induction rows as [| b rest IH]; intros Hs.
  - cbn. repeat constructor.
  - cbn [voltage_table_t.insert_row]. unfold dgt.
    destruct (Rlt_dec (col 1 a) (col 1 b)) as [Hab | Hab].
    + rewrite (dlt_true _ _ Hab). inversion Hs as [| ? ? Hrest Hhd]; subst.
      constructor; [now apply IH|].
      destruct rest as [| c rest'].
      * cbn. constructor. unfold voltage_descends. lra.
      * cbn [voltage_table_t.insert_row].
        inversion Hhd as [| ? ? Hbc]; subst.
        destruct (dgt (col 1 c) (col 1 a)); constructor; trivial.
        unfold voltage_descends. lra.
    + rewrite dlt_false by lra.
      constructor; [exact Hs|]. constructor. unfold voltage_descends. lra.
Qed.

Lemma sort_rows_sorted (rows : list (list R)) :
  Sorted voltage_descends (voltage_table_t.sort_rows rows).
Proof.
  induction rows as [| a rest IH]; [constructor|].
  cbn [voltage_table_t.sort_rows]. now apply insert_row_sorted.
Qed.

Lemma lines_length (rows : list (list R)) :
  forall prev, length (lines prev rows) = length rows.
Proof. induction rows as [| r rest IH]; intros prev; cbn; [reflexivity | now rewrite IH]. Qed.

Lemma find_row_bound (rows : list (list R)) (DOD : R) :
  forall row, (voltage_table_t.find_row rows DOD row <= row + length rows)%nat.
Proof.
  induction rows as [| r rest IH]; intros row; cbn; [lia|].
  destruct (dgt DOD (col 0 r)); [specialize (IH (S row)) |]; lia.
Qed.

(** X2. A model that passed [initialize] holds the rows of the given table,
    reordered so that the voltage never rises from a row to the next, one
    slope and one intercept per row plus one for the extrapolation, and the
    nominal voltage as its cell voltage.  The row [calculate_voltage] looks up
    therefore always has a slope and an intercept. *)
Theorem table_initialize_shape (p : voltage_params) (m : voltage_table_t.t) :
  voltage_table_t.initialize p = Ok (Some m) ->
  Permutation (voltage_table p) (voltage_table (voltage_table_t.params m))
  /\ Sorted voltage_descends (voltage_table (voltage_table_t.params m))
  /\ length (voltage_table_t.slopes m) = S (length (voltage_table p))
  /\ length (voltage_table_t.intercepts m) = S (length (voltage_table p))
  /\ cell_voltage (voltage_table_t.state m) = Vnom_default p
  /\ forall DOD,
       (voltage_table_t.find_row (voltage_table (voltage_table_t.params m)) DOD 0
        < length (voltage_table_t.slopes m))%nat.
Proof.
  intros Hm.
  destruct (table_initialize_inversion p m Hm)
    as (row0 & rest & acc & Ht & Hlen & Hcols & Hscan & Hless & Hgreater & _ & _ & _ & ->).
  cbn [voltage_table_t.params voltage_table_t.slopes voltage_table_t.intercepts
       voltage_table_t.state set_voltage_table voltage_table voltage_t.initialize cell_voltage].
  assert (Hperm := sort_rows_permutation (voltage_table p)).
  assert (Hl := Permutation_length Hperm).
  rewrite !length_app, !length_map, !lines_length. cbn [length].
  repeat split.
  - exact Hperm.
  - apply sort_rows_sorted.
  - lia.
  - lia.
  - intros DOD.
    pose proof (find_row_bound (voltage_table_t.sort_rows (voltage_table p)) DOD 0). lia.
Qed.

(** X2 at the table scenario of the specification. *)
Lemma table_initialize_shape_scenario :
  voltage_table_t.initialize Examples.table_scenario = Ok (Some Examples.table_model)
  /\ length (voltage_table_t.slopes Examples.table_model) = 3%nat
  /\ cell_voltage (voltage_table_t.state Examples.table_model) = 38 / 10.
Proof.
  assert (H := table_scenario_initialize).
  split; [exact H|].
  pose proof (table_initialize_shape Examples.table_scenario Examples.table_model H)
    as (_ & _ & Hs & _ & Hv & _).
  split; [exact Hs | exact Hv].
Defined.

Lemma scan_row_flags (Vnom_d : R) (prev : option (list R)) (row : list R)
    (acc acc' : voltage_table_t.scan) :
  voltage_table_t.scan_row Vnom_d prev row acc = Ok acc' ->
  (voltage_table_t.need_less_than_nom acc' = false ->
   voltage_table_t.need_less_than_nom acc = false \/ col 1 row < Vnom_d)
  /\ (voltage_table_t.need_greater_than_nom acc' = false ->
      voltage_table_t.need_greater_than_nom acc = false \/ Vnom_d < col 1 row).
Proof.
  unfold voltage_table_t.scan_row, dgt. intros H.
  assert (Hshape :
    exists slope intercept,
      acc' = {| voltage_table_t.need_less_than_nom :=
                  fst (if voltage_table_t.need_less_than_nom acc && dlt (col 1 row) Vnom_d
                       then (false, voltage_table_t.need_greater_than_nom acc)
                       else if voltage_table_t.need_greater_than_nom acc
                               && dlt Vnom_d (col 1 row)
                            then (voltage_table_t.need_less_than_nom acc, false)
                            else (voltage_table_t.need_less_than_nom acc,
                                  voltage_table_t.need_greater_than_nom acc));
                voltage_table_t.need_greater_than_nom :=
                  snd (if voltage_table_t.need_less_than_nom acc && dlt (col 1 row) Vnom_d
                       then (false, voltage_table_t.need_greater_than_nom acc)
                       else if voltage_table_t.need_greater_than_nom acc
                               && dlt Vnom_d (col 1 row)
                            then (voltage_table_t.need_less_than_nom acc, false)
                            else (voltage_table_t.need_less_than_nom acc,
                                  voltage_table_t.need_greater_than_nom acc));
                voltage_table_t.scan_slopes := voltage_table_t.scan_slopes acc ++ [slope];
                voltage_table_t.scan_intercepts :=
                  voltage_table_t.scan_intercepts acc ++ [intercept] |}).
  { destruct (if voltage_table_t.need_less_than_nom acc && dlt (col 1 row) Vnom_d
              then (false, voltage_table_t.need_greater_than_nom acc)
              else if voltage_table_t.need_greater_than_nom acc && dlt Vnom_d (col 1 row)
                   then (voltage_table_t.need_less_than_nom acc, false)
                   else (voltage_table_t.need_less_than_nom acc,
                         voltage_table_t.need_greater_than_nom acc)) as [less greater].
    destruct prev as [row0 |].
    - destruct (deq _ _); [injection H as <-; now eexists; eexists|].
      destruct (dlt _ _); [discriminate|]. injection H as <-. now eexists; eexists.
    - injection H as <-. now eexists; eexists. }
  destruct Hshape as (slope & intercept & ->).
  cbn [voltage_table_t.need_less_than_nom voltage_table_t.need_greater_than_nom].
  destruct (voltage_table_t.need_less_than_nom acc);
    destruct (voltage_table_t.need_greater_than_nom acc);
    destruct (Rlt_dec (col 1 row) Vnom_d) as [H1 | H1];
    destruct (Rlt_dec Vnom_d (col 1 row)) as [H2 | H2];
    try lra;
    rewrite ?(dlt_true _ _ H1), ?(dlt_true _ _ H2),
      ?(dlt_false (col 1 row) Vnom_d), ?(dlt_false Vnom_d (col 1 row)) by lra;
    cbn; split; intros; auto; discriminate.
Qed.

Lemma scan_rows_flags (Vnom_d : R) (rows : list (list R)) :
  forall (prev : option (list R)) (acc acc' : voltage_table_t.scan),
    voltage_table_t.scan_rows Vnom_d prev rows acc = Ok acc' ->
    (voltage_table_t.need_less_than_nom acc' = false ->
     voltage_table_t.need_less_than_nom acc = false
     \/ Exists (fun row => col 1 row < Vnom_d) rows)
    /\ (voltage_table_t.need_greater_than_nom acc' = false ->
        voltage_table_t.need_greater_than_nom acc = false
        \/ Exists (fun row => Vnom_d < col 1 row) rows).
Proof.
  induction rows as [| row rest IH]; intros prev acc acc' H.
  - cbn in H. injection H as <-. auto.
  - cbn [voltage_table_t.scan_rows] in H.
    destruct (voltage_table_t.scan_row Vnom_d prev row acc) as [acc1 | what] eqn:Hrow;
      [| discriminate].
    cbn [bind] in H.
    apply scan_row_flags in Hrow as [Hl1 Hg1].
    apply IH in H as [Hl Hg].
    split; intros Hf.
    + destruct (Hl Hf) as [H1 | H1]; [| right; now apply Exists_cons_tl].
      destruct (Hl1 H1) as [H2 | H2]; [now left | right; now apply Exists_cons_hd].
    + destruct (Hg Hf) as [H1 | H1]; [| right; now apply Exists_cons_tl].
      destruct (Hg1 H1) as [H2 | H2]; [now left | right; now apply Exists_cons_hd].
Qed.

(** X3. A table is accepted only when the nominal voltage lies strictly
    between two of its voltages: a model that passed [initialize] has a row
    below the nominal voltage and a row above it, and a table without one of
    them is rejected. *)
Theorem table_initialize_brackets_nominal (p : voltage_params) :
  (forall m, voltage_table_t.initialize p = Ok (Some m) ->
     (exists row, In row (voltage_table p) /\ col 1 row < Vnom_default p)
     /\ (exists row, In row (voltage_table p) /\ Vnom_default p < col 1 row))
  /\
  ((forall row, In row (voltage_table p) -> Vnom_default p <= col 1 row)
   \/ (forall row, In row (voltage_table p) -> col 1 row <= Vnom_default p) ->
   exists what, voltage_table_t.initialize p = Throw what).
Proof.
  assert (Hok : forall o, voltage_table_t.initialize p = Ok o ->
     (exists row, In row (voltage_table p) /\ col 1 row < Vnom_default p)
     /\ (exists row, In row (voltage_table p) /\ Vnom_default p < col 1 row)).
  { intros o Hm.
    destruct (table_initialize_returns p o Hm)
      as (row0 & rest & acc & Ht & Hlen & Hcols & Hscan & Hless & Hgreater & _).
    apply scan_rows_flags in Hscan as [Hl Hg].
    destruct (Hl Hless) as [Habs | Hl']; [discriminate|].
    destruct (Hg Hgreater) as [Habs | Hg']; [discriminate|].
    apply Exists_exists in Hl' as (r1 & Hin1 & H1).
    apply Exists_exists in Hg' as (r2 & Hin2 & H2).
    pose proof (sort_rows_permutation (voltage_table p)) as Hperm.
    split; [exists r1 | exists r2]; split; trivial;
      eapply Permutation_in; [apply Permutation_sym, Hperm | trivial
                              | apply Permutation_sym, Hperm | trivial]. }
  split; [intros m; apply Hok|].
  intros Hnone.
  destruct (voltage_table_t.initialize p) as [o | what] eqn:Hm; [| now exists what].
  destruct (Hok o eq_refl) as [(r1 & Hin1 & H1) (r2 & Hin2 & H2)].
  destruct Hnone as [Hnone | Hnone].
  - specialize (Hnone r1 Hin1). lra.
  - specialize (Hnone r2 Hin2). lra.
Qed.

Lemma scan_rows_cons (Vnom_d : R) (prev : option (list R)) (row : list R)
    (rest : list (list R)) (acc : voltage_table_t.scan) :
  voltage_table_t.scan_rows Vnom_d prev (row :: rest) acc
  = bind (voltage_table_t.scan_row Vnom_d prev row acc)
         (voltage_table_t.scan_rows Vnom_d (Some row) rest).
Proof. reflexivity. Qed.

Lemma scan_rows_slopes (Vnom_d : R) (rows : list (list R)) :
  forall (row0 : list R) (acc acc' : voltage_table_t.scan) (s i : list R),
    voltage_table_t.scan_rows Vnom_d (Some row0) rows acc = Ok acc' ->
    voltage_table_t.reals (voltage_table_t.scan_slopes acc') = Some s ->
    voltage_table_t.reals (voltage_table_t.scan_intercepts acc') = Some i ->
    Forall (fun x => 1 / 10 ^ 7 <= Rabs x) (map fst (lines (Some row0) rows)).
Proof.
  induction rows as [| row rest IH]; intros row0 acc acc' s i H Hs Hi; [constructor|].
  cbn [voltage_table_t.scan_rows] in H.
  destruct (voltage_table_t.scan_row Vnom_d (Some row0) row acc) as [acc1 | what] eqn:Hrow;
    [| discriminate].
  cbn [bind] in H. cbn [lines map].
  constructor; [| now apply (IH row acc1 acc' s i)].
  destruct (scan_rows_lines _ _ _ _ _ _ _ H Hs Hi) as (s1 & i1 & Hs1 & Hi1 & _).
  destruct (scan_row_lines _ _ _ _ _ _ _ Hrow Hs1 Hi1) as (_ & _ & _ & _ & _ & _ & _ & Hsteep).
  exact Hsteep.
Qed.

(** Rows that differ in depth from their neighbours leave real numbers
    only. *)
Lemma scan_rows_reals (Vnom_d : R) (rows : list (list R)) :
  forall (prev : option (list R)) (acc acc' : voltage_table_t.scan),
    voltage_table_t.scan_rows Vnom_d prev rows acc = Ok acc' ->
    depths_differ prev rows ->
    voltage_table_t.reals (voltage_table_t.scan_slopes acc) <> None ->
    voltage_table_t.reals (voltage_table_t.scan_intercepts acc) <> None ->
    voltage_table_t.reals (voltage_table_t.scan_slopes acc') <> None
    /\ voltage_table_t.reals (voltage_table_t.scan_intercepts acc') <> None.
Proof.
  induction rows as [| row rest IH]; intros prev acc acc' H Hdiffer Hs Hi.
  - cbn in H. injection H as <-. auto.
  - cbn [voltage_table_t.scan_rows] in H.
    destruct (voltage_table_t.scan_row Vnom_d prev row acc) as [acc1 | what] eqn:Hrow;
      [| discriminate].
    cbn [bind] in H. destruct Hdiffer as [Hprev Hrest].
    apply (IH _ _ _ H Hrest);
      destruct (scan_row_Ok _ _ _ _ _ Hrow)
        as [((row0 & -> & Heq) & _) | (_ & Hs' & Hi')];
      try contradiction;
      rewrite ?Hs', ?Hi', reals_snoc;
      destruct (voltage_table_t.reals (voltage_table_t.scan_slopes acc));
      destruct (voltage_table_t.reals (voltage_table_t.scan_intercepts acc));
      congruence.
Qed.

Lemma last_In {A : Type} (l : list A) (d : A) : l <> [] -> In (last l d) l.
Proof.
  induction l as [| a l IH]; [contradiction|]. intros _.
  destruct l as [| b l]; [now left|]. right. apply IH. discriminate.
Qed.

(** X4. A table is accepted with real slopes only when no row of the sorted
    table is at the depth of discharge of the row before it.  The model then
    has 0 as its first slope and the highest voltage of the table as its first
    intercept, and every other slope, the one repeated for the extrapolation
    included, has a magnitude of at least 1e-7 and so is not 0.  A table that
    is accepted with a slope or an intercept that is no real number has a row
    at the depth of discharge of the row before it: the check for identical
    voltages does not reject such a pair. *)
Theorem table_initialize_slopes (p : voltage_params) :
  (forall m,
      voltage_table_t.initialize p = Ok (Some m) ->
      depths_differ None (voltage_table (voltage_table_t.params m))
      /\ exists steep,
          voltage_table_t.slopes m = 0 :: steep
          /\ Forall (fun s => 1 / 10 ^ 7 <= Rabs s /\ s <> 0) steep
          /\ nth 0 (voltage_table_t.intercepts m) 0
             = cell (voltage_table (voltage_table_t.params m)) 0 1
          /\ forall row, In row (voltage_table p) ->
               col 1 row <= nth 0 (voltage_table_t.intercepts m) 0)
  /\
  (voltage_table_t.initialize p = Ok None ->
   ~ depths_differ None (voltage_table_t.sort_rows (voltage_table p))).
Proof.
  split.
  - intros m Hm.
    destruct (table_initialize_inversion p m Hm)
      as (row0 & rest & acc & Ht & Hlen & Hcols & Hscan & Hless & Hgreater
          & Hs & Hi & Hdiffer & ->).
    pose proof (sort_rows_permutation (voltage_table p)) as Hperm.
    pose proof (sort_rows_sorted (voltage_table p)) as Hsorted.
    pose proof (Permutation_length Hperm) as Hl.
    cbn [voltage_table_t.params voltage_table_t.slopes voltage_table_t.intercepts
         set_voltage_table voltage_table].
    split; [exact Hdiffer|].
    destruct (voltage_table_t.sort_rows (voltage_table p)) as [| r0 [| r1 sorted]] eqn:Hsort;
      [cbn in Hl; lia | cbn in Hl; lia |].
    rewrite scan_rows_cons in Hscan.
    destruct (voltage_table_t.scan_row (Vnom_default p) None r0 _) as [acc0 | what] eqn:Hrow0;
      [| discriminate].
    cbn [bind] in Hscan. apply (scan_rows_slopes _ _ _ _ _ _ _ Hscan Hs) in Hi.
    change (lines None (r0 :: r1 :: sorted))
      with ((0, col 1 r0) :: lines (Some r0) (r1 :: sorted)).
    set (steep := map fst (lines (Some r0) (r1 :: sorted))) in *.
    cbn [map fst snd].
    exists (steep ++ [last (0 :: steep) 0]).
    assert (Hne : steep <> []) by (subst steep; discriminate).
    split; [reflexivity|]. split; [| split; [reflexivity|]].
    + assert (Hbig : Forall (fun s => 1 / 10 ^ 7 <= Rabs s) (steep ++ [last (0 :: steep) 0])).
      { apply Forall_app. split; [exact Hi|].
        constructor; [| constructor].
        replace (last (0 :: steep) 0) with (last steep 0)
          by (destruct steep; [contradiction | reflexivity]).
        apply (proj1 (Forall_forall _ _) Hi). now apply last_In. }
      eapply Forall_impl; [| exact Hbig]. intros s Hsz. split; [exact Hsz|].
      intros ->. rewrite Rabs_R0 in Hsz.
      assert (0 < 1 / 10 ^ 7) by (apply Rdiv_lt_0_compat; [lra | apply pow_lt; lra]). lra.
    + intros row Hin. cbn [app nth].
      apply (Permutation_in _ Hperm) in Hin.
      apply Sorted_StronglySorted in Hsorted;
        [| intros a b c Hab Hbc; unfold voltage_descends in *; lra].
      inversion Hsorted as [| ? ? _ Hall]; subst.
      destruct Hin as [<- | Hin]; [lra|].
      exact (proj1 (Forall_forall _ _) Hall row Hin).
  - intros Hm Hdiffer.
    destruct (table_initialize_returns p _ Hm)
      as (row0 & rest & acc & Ht & Hlen & Hcols & Hscan & Hless & Hgreater & Ho).
    destruct (scan_rows_reals _ _ _ _ _ Hscan Hdiffer) as [Hs Hi];
      [cbn; discriminate | cbn; discriminate |].
    destruct (voltage_table_t.reals (voltage_table_t.scan_slopes acc)); [| contradiction].
    destruct (voltage_table_t.reals (voltage_table_t.scan_intercepts acc)); [| contradiction].
    discriminate.
Qed.

(** A table with a repeated row is not rejected: the slope between the two
    equal rows is a NaN in the source, which the check for identical voltages
    lets through. *)
Lemma table_repeated_row_sorted :
  voltage_table_t.sort_rows (voltage_table Examples.table_repeated_row)
  = voltage_table Examples.table_repeated_row.
Proof.
  cbn [Examples.table_repeated_row voltage_table voltage_table_t.sort_rows
       voltage_table_t.insert_row col nth].
  decide_comparisons.
  cbn [voltage_table_t.insert_row col nth].
  decide_comparisons.
  reflexivity.
Qed.

Lemma table_repeated_row_returns :
  voltage_table_t.initialize Examples.table_repeated_row = Ok None.
Proof.
  unfold voltage_table_t.initialize.
  rewrite table_repeated_row_sorted.
  cbn [Examples.table_repeated_row voltage_table Vnom_default length Nat.ltb Nat.leb Nat.eqb
       negb orb col nth].
  cbn [voltage_table_t.scan_rows].
  unfold voltage_table_t.scan_row at 1.
  cbn [col nth voltage_table_t.need_less_than_nom voltage_table_t.need_greater_than_nom andb].
  decide_comparisons.
  cbn [andb bind voltage_table_t.scan_slopes voltage_table_t.scan_intercepts app].
  unfold voltage_table_t.scan_row at 1.
  cbn [col nth voltage_table_t.need_less_than_nom voltage_table_t.need_greater_than_nom andb].
  decide_comparisons.
  cbn [andb bind voltage_table_t.scan_slopes voltage_table_t.scan_intercepts app].
  unfold voltage_table_t.scan_row.
  cbn [col nth voltage_table_t.need_less_than_nom voltage_table_t.need_greater_than_nom andb].
  decide_comparisons.
  replace ((34 / 10 - 41 / 10) / (100 - 0)) with (- (7 / 1000)) by lra.
  decide_comparisons.
  reflexivity.
Qed.

(** X4 at the table scenario of the specification, and at that table with
    its first row repeated. *)
Lemma table_initialize_slopes_scenario :
  (voltage_table_t.initialize Examples.table_scenario = Ok (Some Examples.table_model)
   /\ nth 0 (voltage_table_t.intercepts Examples.table_model) 0 = 41 / 10)
  /\
  (voltage_table_t.initialize Examples.table_repeated_row = Ok None
   /\ ~ depths_differ None
         (voltage_table_t.sort_rows (voltage_table Examples.table_repeated_row))).
Proof.
  assert (H := table_scenario_initialize).
  assert (H' := table_repeated_row_returns).
  split.
  - split; [exact H|].
    destruct (proj1 (table_initialize_slopes Examples.table_scenario) Examples.table_model H)
      as (_ & steep & _ & _ & Hi & _).
    exact Hi.
  - split; [exact H'|].
    exact (proj2 (table_initialize_slopes Examples.table_repeated_row) H').
Defined.

End TableInitialize.

(** ** Table variant: the voltage curve *)

Section TableCurve.

Import TableSpec.

(** In a decreasing table every later row lies at a larger depth of
    discharge. *)
Lemma decreasing_later (row0 : list R) (rows : list (list R)) :
  decreasing (row0 :: rows) ->
  forall row, In row rows -> col 0 row0 < col 0 row.
Proof.
  revert row0. induction rows as [| r rest IH]; intros row0 Hdec row Hin; [contradiction|].
  destruct Hdec as [[HD _] Hdec].
  destruct Hin as [<- | Hin]; [exact HD|].
  specialize (IH r Hdec row Hin). lra.
Qed.

(** At the depth of discharge of a row the selected segment passes through
    the voltage of that row. *)
Lemma select_at_row (rows : list (list R)) :
  forall (prev : option (list R)) (ln : R * R) (row : list R),
    match prev with
    | Some row0 => decreasing (row0 :: rows)
    | None => decreasing rows
    end ->
    In row rows ->
    value (select ln prev rows (col 0 row)) (col 0 row) = col 1 row.
Proof.
  induction rows as [| r rest IH]; intros prev ln row Hdec Hin; [contradiction|].
  cbn [select]. unfold dgt.
  assert (Hrest : decreasing (r :: rest)) by (destruct prev; [apply Hdec | exact Hdec]).
  destruct Hin as [<- | Hin].
  - rewrite dlt_false by lra.
    destruct prev as [row0 |].
    + destruct Hdec as [[HD HV] _].
      now destruct (line_of_through row0 r HD HV) as (_ & _ & H).
    + unfold value. cbn. ring.
  - rewrite dlt_true by (apply (decreasing_later r rest Hrest row Hin)).
    now apply IH.
Qed.

(** X5. On a model initialised from a monotonically decreasing table,
    [calculate_voltage] passes through the table: at the depth of discharge of
    a row inside [0, 100] it returns the voltage of that row, when that
    voltage is not negative. *)
Theorem table_voltage_interpolates
    (p : voltage_params) (m : voltage_table_t.t) (row : list R) :
  decreasing (voltage_table p) ->
  voltage_table_t.initialize p = Ok (Some m) ->
  In row (voltage_table p) ->
  0 <= col 0 row <= 100 ->
  0 <= col 1 row ->
  voltage_table_t.calculate_voltage m (col 0 row) = col 1 row.
Proof.
  intros Hdec Hm Hin HD HV.
  rewrite (calculate_voltage_select p m) by assumption.
  unfold fmax, fmin.
  rewrite (Rmax_right 0 (col 0 row)), (Rmin_left (col 0 row) 100) by lra.
  rewrite (select_at_row (voltage_table p) None (0, 0) row Hdec Hin).
  now apply Rmax_left.
Qed.

(** X5 at the last row of the table scenario: 3.4 V at a depth of discharge
    of 100. *)
Lemma table_voltage_interpolates_scenario :
  (decreasing (voltage_table Examples.table_scenario)
   /\ voltage_table_t.initialize Examples.table_scenario = Ok (Some Examples.table_model)
   /\ In [100; 34 / 10] (voltage_table Examples.table_scenario)
   /\ 0 <= 100 <= 100 /\ 0 <= 34 / 10)
  /\ voltage_table_t.calculate_voltage Examples.table_model 100 = 34 / 10.
Proof.
  assert (H1 := table_scenario_decreasing).
  assert (H2 := table_scenario_initialize).
  assert (H3 : In [100; 34 / 10] (voltage_table Examples.table_scenario))
    by (right; left; reflexivity).
  assert (H4 : 0 <= 100 <= 100) by lra.
  assert (H5 : 0 <= 34 / 10) by lra.
  split; [exact (conj H1 (conj H2 (conj H3 (conj H4 H5))))|].
  exact (table_voltage_interpolates Examples.table_scenario Examples.table_model
           [100; 34 / 10] H1 H2 H3 H4 H5).
Defined.

Lemma calculate_voltage_nonnegative (m : voltage_table_t.t) (DOD : R) :
  0 <= voltage_table_t.calculate_voltage m DOD.
Proof. unfold voltage_table_t.calculate_voltage, fmax. apply Rmax_r. Qed.

(** X6. Whatever the model, [calculate_voltage] is never negative and does
    not look beyond [0, 100]: below 0 it answers as at 0 and above 100 as at
    100. *)
Theorem table_voltage_clamped (m : voltage_table_t.t) (DOD : R) :
  0 <= voltage_table_t.calculate_voltage m DOD
  /\ (DOD <= 0 ->
      voltage_table_t.calculate_voltage m DOD = voltage_table_t.calculate_voltage m 0)
  /\ (100 <= DOD ->
      voltage_table_t.calculate_voltage m DOD = voltage_table_t.calculate_voltage m 100).
Proof.
  unfold voltage_table_t.calculate_voltage, fmax, fmin.
  repeat split.
  - apply Rmax_r.
  - intros H. now rewrite (Rmax_left 0 DOD), (Rmax_left 0 0) by lra.
  - intros H.
    now rewrite (Rmax_right 0 DOD), (Rmax_right 0 100), (Rmin_right DOD 100),
      (Rmin_left 100 100) by lra.
Qed.

(** X7. [set_initial_SOC] at a state of charge of [soc] percent leaves the
    cell voltage a step [updateVoltage] leaves at the charge
    [soc / 100 * qmax] of any non-zero capacity [qmax]. *)
Theorem table_set_initial_SOC_as_update
    (m : voltage_table_t.t) (soc qmax I temp dt : R) :
  qmax <> 0 ->
  cell_voltage (voltage_table_t.state (voltage_table_t.set_initial_SOC m soc))
  = cell_voltage (voltage_table_t.state
      (voltage_table_t.updateVoltage m (soc / 100 * qmax) qmax I temp dt)).
Proof.
  intros Hq. unfold voltage_table_t.set_initial_SOC, voltage_table_t.updateVoltage.
  cbn [voltage_table_t.state voltage_table_t.set_state set_cell_voltage cell_voltage].
  f_equal. field. exact Hq.
Qed.

(** X7 at the table model, 50 percent of 2 Ah. *)
Lemma table_set_initial_SOC_as_update_scenario :
  2 <> 0
  /\ cell_voltage (voltage_table_t.state (voltage_table_t.set_initial_SOC Examples.table_model 50))
     = cell_voltage (voltage_table_t.state
         (voltage_table_t.updateVoltage Examples.table_model (50 / 100 * 2) 2 0 25 1)).
Proof.
  assert (H : 2 <> 0) by lra.
  split; [exact H|].
  exact (table_set_initial_SOC_as_update Examples.table_model 50 2 0 25 1 H).
Defined.

(** X8. [calculate_voltage_for_current] hands the percentage of charge left
    after the step, [(q - I * dt) / qmax * 100], to [calculate_voltage] as if it
    were a depth of discharge: its answer at the charge [q] is the stack
    voltage [updateVoltage] leaves at the charge [qmax - (q - I * dt)]. *)
Theorem table_voltage_for_current_mirrors
    (m : voltage_table_t.t) (I q qmax T I' temp dt : R) :
  qmax <> 0 ->
  voltage_table_t.calculate_voltage_for_current m I q qmax T
  = voltage_t.battery_voltage (voltage_table_t.params m)
      (voltage_table_t.state
         (voltage_table_t.updateVoltage m
            (qmax - (q - I * dt_hr (voltage_table_t.params m))) qmax I' temp dt)).
Proof.
  intros Hq.
  unfold voltage_table_t.calculate_voltage_for_current, voltage_table_t.updateVoltage,
    voltage_t.battery_voltage.
  cbn [voltage_table_t.state voltage_table_t.set_state set_cell_voltage cell_voltage].
  rewrite Rmult_comm. f_equal. f_equal. field. exact Hq.
Qed.

(** X8 at the table model: a full battery of 2 Ah at rest is given the
    voltage [updateVoltage] leaves on the empty one. *)
Lemma table_voltage_for_current_mirrors_scenario :
  2 <> 0
  /\ voltage_table_t.calculate_voltage_for_current Examples.table_model 0 2 2 25
     = voltage_t.battery_voltage Examples.table_scenario
         (voltage_table_t.state
            (voltage_table_t.updateVoltage Examples.table_model (2 - (2 - 0 * 1)) 2 0 25 1)).
Proof.
  assert (H : 2 <> 0) by lra.
  split; [exact H|].
  exact (table_voltage_for_current_mirrors Examples.table_model 0 2 2 25 0 25 1 H).
Defined.

End TableCurve.

(** ** The extreme powers *)

(** X9. With a non-negative number of cells, the extreme discharge power of
    the Table variant and its current are never negative, and with at least
    one cell a zero power comes with a zero current. *)
Theorem table_max_discharge_nonnegative (m : voltage_table_t.t) (q qmax T : R) :
  (0 <= num_cells_series (voltage_table_t.params m))%Z ->
  0 <= fst (voltage_table_t.calculate_max_discharge_w m q qmax T)
  /\ 0 <= snd (voltage_table_t.calculate_max_discharge_w m q qmax T)
  /\ ((0 < num_cells_series (voltage_table_t.params m))%Z ->
      fst (voltage_table_t.calculate_max_discharge_w m q qmax T) = 0 ->
      snd (voltage_table_t.calculate_max_discharge_w m q qmax T) = 0).
Proof.
  intros Hcells. apply IZR_le in Hcells.
  destruct (table_max_discharge_shape m q qmax T) as (max_P & max_I & -> & H0 & H1).
  cbn [fst snd]. repeat split.
  - now apply Rmult_le_pos.
  - unfold fmax. apply Rmax_l.
  - intros Hpos Hz. apply IZR_lt in Hpos.
    assert (max_P = 0) by nra.
    rewrite (H1 H). unfold fmax. now rewrite Rmax_left by lra.
Qed.

(** X9 at the table model, from 1 Ah of 2 Ah. *)
Lemma table_max_discharge_nonnegative_scenario :
  (0 <= 1)%Z
  /\ 0 <= fst (voltage_table_t.calculate_max_discharge_w Examples.table_model 1 2 25)
  /\ 0 <= snd (voltage_table_t.calculate_max_discharge_w Examples.table_model 1 2 25).
Proof.
  assert (H : (0 <= 1)%Z) by lia.
  split; [exact H|].
  destruct (table_max_discharge_nonnegative Examples.table_model 1 2 25 H) as (H1 & H2 & _).
  exact (conj H1 H2).
Defined.

(** X10. With a positive time step and a non-negative number of cells, the
    extreme charge power of the Table variant and its current are never
    positive while the charge does not exceed the capacity. *)
Theorem table_max_charge_nonpositive (m : voltage_table_t.t) (q qmax T : R) :
  (0 <= num_cells_series (voltage_table_t.params m))%Z ->
  0 < dt_hr (voltage_table_t.params m) ->
  q <= qmax ->
  fst (voltage_table_t.calculate_max_charge_w m q qmax T) <= 0
  /\ snd (voltage_table_t.calculate_max_charge_w m q qmax T) <= 0.
Proof.
  intros Hcells Hdt Hq. apply IZR_le in Hcells.
  unfold voltage_table_t.calculate_max_charge_w. cbn [fst snd].
  assert (Hc : (q - qmax) / dt_hr (voltage_table_t.params m) <= 0).
  { unfold Rdiv. assert (0 < / dt_hr (voltage_table_t.params m)) by now apply Rinv_0_lt_compat.
    nra. }
  split; [| exact Hc].
  pose proof (calculate_voltage_nonnegative m 0) as HV.
  assert (voltage_table_t.calculate_voltage m 0
          * ((q - qmax) / dt_hr (voltage_table_t.params m)) <= 0) by nra.
  nra.
Qed.

(** X10 at the table model, from 1 Ah of 2 Ah. *)
Lemma table_max_charge_nonpositive_scenario :
  ((0 <= 1)%Z /\ 0 < 1 /\ 1 <= 2)
  /\ fst (voltage_table_t.calculate_max_charge_w Examples.table_model 1 2 25) <= 0
  /\ snd (voltage_table_t.calculate_max_charge_w Examples.table_model 1 2 25) <= 0.
Proof.
  assert (H1 : (0 <= 1)%Z) by lia.
  assert (H2 : 0 < 1) by lra.
  assert (H3 : 1 <= 2) by lra.
  split; [exact (conj H1 (conj H2 H3))|].
  exact (table_max_charge_nonpositive Examples.table_model 1 2 25 H1 H2 H3).
Defined.

(** X11. A full battery can take no charge: with a non-zero time step (and
    a non-zero number of strings where the variant divides by it) the extreme
    charge power and its current are both 0 at [q = qmax], in all three
    variants. *)
Theorem full_battery_takes_no_charge (tolerance qmax T : R) :
  (forall m : voltage_table_t.t,
      dt_hr (voltage_table_t.params m) <> 0 ->
      voltage_table_t.calculate_max_charge_w m qmax qmax T = (0, 0))
  /\ (forall m : voltage_dynamic_t.t,
      dt_hr (voltage_dynamic_t.params m) <> 0 ->
      num_strings (voltage_dynamic_t.params m) <> 0%Z ->
      voltage_dynamic_t.calculate_max_charge_w m qmax qmax T = (0, 0))
  /\ (forall m : voltage_vanadium_redox_t.t,
      dt_hr (voltage_vanadium_redox_t.params m) <> 0 ->
      num_strings (voltage_vanadium_redox_t.params m) <> 0%Z ->
      voltage_vanadium_redox_t.calculate_max_charge_w tolerance m qmax qmax T = (0, 0)).
Proof.
  split; [| split]; intros m Hdt.
  - unfold voltage_table_t.calculate_max_charge_w.
    replace ((qmax - qmax) / dt_hr (voltage_table_t.params m)) with 0 by (field; exact Hdt).
    f_equal. ring.
  - intros Hns. unfold voltage_dynamic_t.calculate_max_charge_w.
    replace ((qmax / IZR (num_strings (voltage_dynamic_t.params m))
              - qmax / IZR (num_strings (voltage_dynamic_t.params m)))
             / dt_hr (voltage_dynamic_t.params m)) with 0
      by (field; split; [now apply not_0_IZR | exact Hdt]).
    f_equal; ring.
  - intros Hns. unfold voltage_vanadium_redox_t.calculate_max_charge_w.
    replace ((qmax / IZR (num_strings (voltage_vanadium_redox_t.params m))
              - qmax / IZR (num_strings (voltage_vanadium_redox_t.params m)))
             / dt_hr (voltage_vanadium_redox_t.params m)) with 0
      by (field; split; [now apply not_0_IZR | exact Hdt]).
    f_equal; ring.
Qed.

(** ** Dynamic variant *)

(** With the voltages of the scenario strictly ordered but the full capacity
    below the nominal one, the constant [K] is negative. *)
Lemma dynamic_small_Qfull_K :
  Tremblay.K Examples.dynamic_small_Qfull < 0.
Proof.
  unfold Tremblay.K, Tremblay.A. cbn.
  pose proof (exp_pos (- Tremblay.B0 Examples.dynamic_small_Qfull * (18 / 10))) as He.
  cbn in He. lra.
Qed.

(** A strictly decreasing quadruple can still be refused: with
    [4.1 > 4.05 > 3.6 > 2.75] the constructor throws, because [Qfull = 1] is
    below [Qnom = 1.8] and makes [K] negative. *)
Lemma dynamic_ordered_quadruple_rejected :
  (275 / 100 < 36 / 10 /\ 36 / 10 < 405 / 100 /\ 405 / 100 < 41 / 10)
  /\ voltage_dynamic_t.construct 1 1 (36 / 10)
       (41 / 10) (405 / 100) (36 / 10) 1 (2 / 10) (18 / 10) (275 / 100) 1 (5 / 100) 1
     = Throw voltage_dynamic_t.negative_constants_message.
Proof.
  split; [lra|].
  change (voltage_dynamic_t.initialize Examples.dynamic_small_Qfull
          = Throw voltage_dynamic_t.negative_constants_message).
  rewrite initialize_ordered by (cbn; lra).
  apply parameter_compute_negative. right; right; left. apply dynamic_small_Qfull_K.
Qed.

(** X29. The two checks of the constructor in their order.  A quadruple
    with [Vfull < Vexp], [Vexp < Vnom] or [Vnom < Vcut] is rejected with the
    ordering message, whatever the constants are.  A strictly decreasing
    quadruple is accepted when none of the derived constants [B0], [K], [E0]
    is negative, and rejected with the negative-constants message when one of
    them is. *)
Theorem dynamic_initialize_ordering (p : voltage_params) :
  (Vfull (dynamic p) < Vexp (dynamic p) \/ Vexp (dynamic p) < Vnom (dynamic p)
   \/ Vnom (dynamic p) < Vcut (dynamic p) ->
   voltage_dynamic_t.initialize p = Throw voltage_dynamic_t.ordering_message)
  /\
  (Vcut (dynamic p) < Vnom (dynamic p) /\ Vnom (dynamic p) < Vexp (dynamic p)
   /\ Vexp (dynamic p) < Vfull (dynamic p) ->
   (0 <= Tremblay.B0 p /\ 0 <= Tremblay.K p /\ 0 <= Tremblay.E0 p ->
    voltage_dynamic_t.initialize p =
    Ok (Tremblay.model p {| cell_voltage := Vfull (dynamic p);
                            Q_full_mod := Qfull (dynamic p) |}))
   /\
   (Tremblay.B0 p < 0 \/ Tremblay.K p < 0 \/ Tremblay.E0 p < 0 ->
    voltage_dynamic_t.initialize p = Throw voltage_dynamic_t.negative_constants_message)).
Proof.
  split.
  - intros H. rewrite initialize_unfold.
    destruct H as [H | [H | H]]; rewrite (dlt_true _ _ H); rewrite ?orb_true_r; reflexivity.
  - intros (H1 & H2 & H3).
    rewrite initialize_ordered by lra.
    split.
    + intros (HB & HK & HE). apply parameter_compute_nonnegative; trivial.
      unfold Tremblay.A. lra.
    + intros H. apply parameter_compute_negative. tauto.
Qed.

(** X29 at the scenario of the specification. *)
Lemma dynamic_initialize_ordering_scenario :
  (275 / 100 < 36 / 10 /\ 36 / 10 < 405 / 100 /\ 405 / 100 < 41 / 10)
  /\ voltage_dynamic_t.initialize Examples.dynamic_scenario =
     Ok (Tremblay.model Examples.dynamic_scenario
           {| cell_voltage := 41 / 10; Q_full_mod := 225 / 100 |}).
Proof.
  split; [lra|].
  destruct dynamic_scenario_constants as (HA & HB & HK & HE).
  refine (proj1 (proj2 (dynamic_initialize_ordering Examples.dynamic_scenario) _) _).
  - cbn. lra.
  - lra.
Defined.

(** X12. A dynamic model that passed [initialize] has voltages in the order
    [Vcut <= Vnom <= Vexp <= Vfull], none of its four constants negative, the
    parameters it was built from, and starts at the full-charge voltage with
    the full capacity. *)
Theorem dynamic_initialize_invariants (p : voltage_params) (m : voltage_dynamic_t.t) :
  voltage_dynamic_t.initialize p = Ok m ->
  (Vcut (dynamic p) <= Vnom (dynamic p) /\ Vnom (dynamic p) <= Vexp (dynamic p)
   /\ Vexp (dynamic p) <= Vfull (dynamic p))
  /\ (0 <= voltage_dynamic_t._A m /\ 0 <= voltage_dynamic_t._B0 m
      /\ 0 <= voltage_dynamic_t._K m /\ 0 <= voltage_dynamic_t._E0 m)
  /\ voltage_dynamic_t.params m = p
  /\ cell_voltage (voltage_dynamic_t.state m) = Vfull (dynamic p)
  /\ Q_full_mod (voltage_dynamic_t.state m) = Qfull (dynamic p).
Proof.
  rewrite initialize_unfold.
  destruct (Rlt_dec (Vfull (dynamic p)) (Vexp (dynamic p))) as [H1 | H1];
    [now rewrite (dlt_true _ _ H1) | rewrite (dlt_false (Vfull _) _) by lra].
  destruct (Rlt_dec (Vexp (dynamic p)) (Vnom (dynamic p))) as [H2 | H2];
    [now rewrite (dlt_true _ _ H2) | rewrite (dlt_false (Vexp _) _) by lra].
  destruct (Rlt_dec (Vnom (dynamic p)) (Vcut (dynamic p))) as [H3 | H3];
    [now rewrite (dlt_true _ _ H3) | rewrite (dlt_false (Vnom _) _) by lra].
  cbn [orb]. intros Hm.
  apply parameter_compute_Ok in Hm as (-> & HA & HB & HK & HE).
  cbn. repeat split; lra.
Qed.

(** X12 at the scenario of the specification. *)
Lemma dynamic_initialize_invariants_scenario :
  voltage_dynamic_t.initialize Examples.dynamic_scenario
  = Ok (Tremblay.model Examples.dynamic_scenario
          {| cell_voltage := 41 / 10; Q_full_mod := 225 / 100 |})
  /\ 0 <= Tremblay.K Examples.dynamic_scenario.
Proof.
  assert (H := dynamic_scenario_accepted).
  split; [exact H|].
  destruct (dynamic_initialize_invariants Examples.dynamic_scenario _ H)
    as (_ & (_ & _ & HK & _) & _).
  exact HK.
Defined.

(** X13. The query predicts the step: in the Dynamic variant the stack
    voltage [updateVoltage] leaves equals [calculate_voltage_for_current] at
    the same current, charge and capacity, and in the VanadiumRedox variant it
    does so for the temperature in Kelvin, [temp + 273.15]. *)
Theorem updateVoltage_agrees_with_query
    (tolerance q qmax I temp dt T : R) :
  (forall m : voltage_dynamic_t.t,
      voltage_t.battery_voltage (voltage_dynamic_t.params m)
        (voltage_dynamic_t.state (voltage_dynamic_t.updateVoltage m q qmax I temp dt))
      = voltage_dynamic_t.calculate_voltage_for_current m I q qmax T)
  /\ (forall m : voltage_vanadium_redox_t.t,
      voltage_t.battery_voltage (voltage_vanadium_redox_t.params m)
        (voltage_vanadium_redox_t.state
           (voltage_vanadium_redox_t.updateVoltage tolerance m q qmax I temp dt))
      = voltage_vanadium_redox_t.calculate_voltage_for_current tolerance m I q qmax
          (temp + 27315 / 100)).
Proof.
  split; intros m.
  - reflexivity.
  - unfold voltage_t.battery_voltage, voltage_vanadium_redox_t.calculate_voltage_for_current.
    cbn. apply Rmult_comm.
Qed.

(** X14. With a non-negative resistance, at least one string and a
    non-negative number of cells, the stack voltage the Dynamic variant
    predicts is never negative and does not rise with the current. *)
Theorem dynamic_voltage_falls_with_current
    (m : voltage_dynamic_t.t) (I1 I2 q qmax T : R) :
  0 <= resistance (voltage_dynamic_t.params m) ->
  (0 < num_strings (voltage_dynamic_t.params m))%Z ->
  (0 <= num_cells_series (voltage_dynamic_t.params m))%Z ->
  I1 <= I2 ->
  0 <= voltage_dynamic_t.calculate_voltage_for_current m I2 q qmax T
  /\ voltage_dynamic_t.calculate_voltage_for_current m I2 q qmax T
     <= voltage_dynamic_t.calculate_voltage_for_current m I1 q qmax T.
Proof.
  intros HR Hns Hcells HI. apply IZR_lt in Hns. apply IZR_le in Hcells.
  unfold voltage_dynamic_t.calculate_voltage_for_current. split.
  - apply Rmult_le_pos; [exact Hcells | apply Rmax_r].
  - apply Rmult_le_compat_l; [exact Hcells|].
    apply Rle_max_compat_r. unfold voltage_dynamic_t.voltage_model_tremblay_hybrid.
    assert (I1 / IZR (num_strings (voltage_dynamic_t.params m))
            <= I2 / IZR (num_strings (voltage_dynamic_t.params m))).
    { unfold Rdiv. apply Rmult_le_compat_r; [| exact HI].
      apply Rlt_le. now apply Rinv_0_lt_compat. }
    nra.
Qed.

(** X14 at the scenario of the specification, between 0 A and 1 A. *)
Lemma dynamic_voltage_falls_with_current_scenario :
  (0 <= 5 / 100 /\ (0 < 1)%Z /\ (0 <= 1)%Z /\ 0 <= 1)
  /\ voltage_dynamic_t.calculate_voltage_for_current
       (Tremblay.model Examples.dynamic_scenario {| cell_voltage := 41 / 10; Q_full_mod := 225 / 100 |})
       1 2 (225 / 100) 25
     <= voltage_dynamic_t.calculate_voltage_for_current
          (Tremblay.model Examples.dynamic_scenario {| cell_voltage := 41 / 10; Q_full_mod := 225 / 100 |})
          0 2 (225 / 100) 25.
Proof.
  assert (H1 : 0 <= 5 / 100) by lra.
  assert (H2 : (0 < 1)%Z) by lia.
  assert (H3 : (0 <= 1)%Z) by lia.
  assert (H4 : 0 <= 1) by lra.
  split; [exact (conj H1 (conj H2 (conj H3 H4)))|].
  exact (proj2 (dynamic_voltage_falls_with_current
                  (Tremblay.model Examples.dynamic_scenario
                     {| cell_voltage := 41 / 10; Q_full_mod := 225 / 100 |})
                  0 1 2 (225 / 100) 25 H1 H2 H3 H4)).
Defined.

(** X15. [set_initial_SOC] at 100 percent is the step at full charge and
    zero current: on a model that passed [initialize], with at least one
    string and a non-zero cutoff-adjusted capacity at [Qfull], it leaves
    [cell_voltage = max (Vfull + R * (Qfull * C_rate)) 0]. *)
Theorem dynamic_set_initial_SOC_full (p : voltage_params) (m : voltage_dynamic_t.t) :
  voltage_dynamic_t.initialize p = Ok m ->
  (0 < num_strings p)%Z ->
  voltage_dynamic_t.calculate_Qfull_mod m (Qfull (dynamic p)) <> 0 ->
  cell_voltage (voltage_dynamic_t.state (voltage_dynamic_t.set_initial_SOC m 100))
  = fmax (Vfull (dynamic p) + resistance p * (Qfull (dynamic p) * C_rate (dynamic p))) 0.
Proof.
  intros Hm Hns HQ.
  assert (Hns' : IZR (num_strings p) <> 0) by (apply not_0_IZR; lia).
  assert (Hp : voltage_dynamic_t.params m = p) by (apply initialize_Ok in Hm as [-> _]; reflexivity).
  unfold voltage_dynamic_t.set_initial_SOC. rewrite Hp.
  replace (100 * (1 / 100) * Qfull (dynamic p) * IZR (num_strings p))
    with (Qfull (dynamic p) * IZR (num_strings p)) by lra.
  rewrite (updateVoltage_at_full p).
  - f_equal. unfold Rdiv. lra.
  - exact Hm.
  - replace (Qfull (dynamic p) * IZR (num_strings p) / IZR (num_strings p))
      with (Qfull (dynamic p)) by (field; exact Hns').
    exact HQ.
Qed.

(** X15 at the scenario of the specification: 4.2125 V. *)
Lemma dynamic_set_initial_SOC_full_scenario :
  let m := Tremblay.model Examples.dynamic_scenario
             {| cell_voltage := 41 / 10; Q_full_mod := 225 / 100 |} in
  (voltage_dynamic_t.initialize Examples.dynamic_scenario = Ok m
   /\ (0 < 1)%Z
   /\ voltage_dynamic_t.calculate_Qfull_mod m (225 / 100) <> 0)
  /\ cell_voltage (voltage_dynamic_t.state (voltage_dynamic_t.set_initial_SOC m 100))
     = fmax (41 / 10 + 5 / 100 * (225 / 100 * 1)) 0.
Proof.
  intros m.
  assert (H1 : voltage_dynamic_t.initialize Examples.dynamic_scenario = Ok m)
    by apply dynamic_scenario_accepted.
  assert (H2 : (0 < 1)%Z) by lia.
  assert (H3 : voltage_dynamic_t.calculate_Qfull_mod m (225 / 100) <> 0)
    by (apply Rgt_not_eq, dynamic_scenario_Qfull_mod).
  split; [exact (conj H1 (conj H2 H3))|].
  exact (dynamic_set_initial_SOC_full Examples.dynamic_scenario m H1 H2 H3).
Defined.

Section DynamicMaxDischarge.

Variable tolerance : R.
Variable m : voltage_dynamic_t.t.

Local Abbreviation dt := (dt_hr (voltage_dynamic_t.params m)).
Local Abbreviation cutoff := (Vcut (dynamic (voltage_dynamic_t.params m))).
Local Abbreviation loop := (voltage_dynamic_t.max_discharge_loop tolerance).

Lemma max_discharge_loop_unfold (fuel : nat) (q qmax incr current vol max_p max_I max_V : R) :
  loop fuel m q qmax incr current vol max_p max_I max_V =
  if dlt (current * dt) (q - tolerance) && dge vol cutoff
  then
    match fuel with
    | O => None
    | S fuel' =>
        if dgt (current
                * voltage_dynamic_t.voltage_model_tremblay_hybrid m qmax current
                    (q - current * dt)) max_p
           && dge (voltage_dynamic_t.voltage_model_tremblay_hybrid m qmax current
                     (q - current * dt)) cutoff
        then loop fuel' m q qmax incr (current + incr)
               (voltage_dynamic_t.voltage_model_tremblay_hybrid m qmax current
                  (q - current * dt))
               (current
                * voltage_dynamic_t.voltage_model_tremblay_hybrid m qmax current
                    (q - current * dt))
               current
               (voltage_dynamic_t.voltage_model_tremblay_hybrid m qmax current
                  (q - current * dt))
        else loop fuel' m q qmax incr (current + incr)
               (voltage_dynamic_t.voltage_model_tremblay_hybrid m qmax current
                  (q - current * dt))
               max_p max_I max_V
    end
  else Some (max_p, max_I, max_V).
Proof. destruct fuel; reflexivity. Qed.

(** The scan ends once the current times the step reaches the charge less
    the tolerance; with a non-negative increment that is after at most [fuel]
    rounds when [current + fuel * incr] is that large. *)
Lemma max_discharge_loop_returns (q qmax incr : R) (fuel : nat) :
  0 <= incr -> 0 <= dt ->
  forall current vol max_p max_I max_V,
    q - tolerance <= (current + INR fuel * incr) * dt ->
    exists r, loop fuel m q qmax incr current vol max_p max_I max_V = Some r.
Proof.
  intros Hincr Hdt. induction fuel as [| fuel IH]; intros current vol max_p max_I max_V Hend.
  - rewrite max_discharge_loop_unfold. cbn [INR] in Hend.
    rewrite dlt_false by lra. cbn [andb]. now eexists.
  - rewrite max_discharge_loop_unfold.
    destruct (dlt (current * dt) (q - tolerance) && dge vol cutoff); [| now eexists].
    rewrite S_INR in Hend.
    destruct (_ && _); apply IH; lra.
Qed.

(** More fuel does not change an answer. *)
Lemma max_discharge_loop_more_fuel (q qmax incr : R) (fuel : nat) :
  forall current vol max_p max_I max_V r,
    loop fuel m q qmax incr current vol max_p max_I max_V = Some r ->
    forall extra, loop (extra + fuel) m q qmax incr current vol max_p max_I max_V = Some r.
Proof.
  induction fuel as [| fuel IH]; intros current vol max_p max_I max_V r H extra.
  - rewrite max_discharge_loop_unfold in H. rewrite max_discharge_loop_unfold.
    destruct (dlt (current * dt) (q - tolerance) && dge vol cutoff); [discriminate|].
    exact H.
  - rewrite max_discharge_loop_unfold in H.
    replace (extra + S fuel)%nat with (S (extra + fuel)) by lia.
    rewrite max_discharge_loop_unfold.
    destruct (dlt (current * dt) (q - tolerance) && dge vol cutoff); [| exact H].
    destruct (_ && _); now apply IH.
Qed.

(** The power kept is never negative, and with a non-negative cutoff voltage
    neither is the current kept. *)
Lemma max_discharge_loop_nonnegative (q qmax incr : R) (fuel : nat) :
  forall current vol max_p max_I max_V p I V,
    0 <= max_p -> (0 <= cutoff -> 0 <= max_I) ->
    loop fuel m q qmax incr current vol max_p max_I max_V = Some (p, I, V) ->
    0 <= p /\ (0 <= cutoff -> 0 <= I).
Proof.
  induction fuel as [| fuel IH]; intros current vol max_p max_I max_V p I V Hp HI H;
    rewrite max_discharge_loop_unfold in H.
  - destruct (_ && _); [discriminate|]. injection H as <- <- <-. now split.
  - destruct (dlt (current * dt) (q - tolerance) && dge vol cutoff);
      [| injection H as <- <- <-; now split].
    set (v := voltage_dynamic_t.voltage_model_tremblay_hybrid m qmax current
                (q - current * dt)) in *.
    destruct (dgt (current * v) max_p && dge v cutoff) eqn:Hup.
    + apply andb_true_iff in Hup as [Hgt Hge].
      apply dlt_spec in Hgt. apply dle_spec in Hge.
      apply (IH _ _ _ _ _ _ _ _) in H; [exact H | lra |].
      intros Hc. assert (0 <= v) by lra. nra.
    + now apply (IH _ _ _ _ _ _ _ _) in H.
Qed.

(** X16. With at least one string, a non-negative charge, tolerance and
    number of cells and a positive time step, the scan of
    [calculate_max_discharge_w] ends within [fuel] rounds as soon as
    [(1/2 + fuel/10) * dt_hr >= 1], more rounds change nothing, and the power
    it returns is never negative; neither is the current when the cutoff
    voltage is not negative. *)
Theorem dynamic_max_discharge_returns (fuel : nat) (q qmax T : R) :
  (0 < num_strings (voltage_dynamic_t.params m))%Z ->
  (0 <= num_cells_series (voltage_dynamic_t.params m))%Z ->
  0 <= q -> 0 <= tolerance -> 0 < dt ->
  1 <= (1 / 2 + INR fuel / 10) * dt ->
  exists P I,
    (forall extra,
        voltage_dynamic_t.calculate_max_discharge_w tolerance (extra + fuel) m q qmax T
        = Some (P, I))
    /\ 0 <= P
    /\ (0 <= cutoff -> 0 <= I).
Proof.
  intros Hns Hcells Hq Htol Hdt Hfuel. apply IZR_lt in Hns. apply IZR_le in Hcells.
  set (ns := IZR (num_strings (voltage_dynamic_t.params m))) in *.
  assert (Hqs : 0 <= q / ns) by (apply Rmult_le_pos; [lra | apply Rlt_le, Rinv_0_lt_compat; lra]).
  destruct (max_discharge_loop_returns (q / ns) (qmax / ns) (q / ns / 10) fuel
              ltac:(lra) ltac:(lra) (q / ns * (1 / 2)) cutoff 0 0 0) as [[[p I] V] Hr].
  { assert (q / ns <= q / ns * ((1 / 2 + INR fuel / 10) * dt)) by nra. nra. }
  destruct (max_discharge_loop_nonnegative _ _ _ _ _ _ _ _ _ _ _ _
              (Rle_refl 0) (fun _ => Rle_refl 0) Hr) as [Hp HI].
  exists (p * ns * IZR (num_cells_series (voltage_dynamic_t.params m))), (I * ns).
  repeat split.
  - intros extra. unfold voltage_dynamic_t.calculate_max_discharge_w. fold ns.
    now rewrite (max_discharge_loop_more_fuel _ _ _ _ _ _ _ _ _ _ Hr extra).
  - apply Rmult_le_pos; [apply Rmult_le_pos|]; lra.
  - intros Hc. apply Rmult_le_pos; [auto | lra].
Qed.

End DynamicMaxDischarge.

(** X16 at the scenario of the specification: with hourly steps five rounds
    are enough. *)
Lemma dynamic_max_discharge_returns_scenario :
  ((0 < 1)%Z /\ (0 <= 1)%Z /\ 0 <= 2 /\ 0 <= 1 / 1000 /\ 0 < 1
   /\ 1 <= (1 / 2 + INR 5 / 10) * 1)
  /\ exists P I,
       voltage_dynamic_t.calculate_max_discharge_w (1 / 1000) 5
         (Tremblay.model Examples.dynamic_scenario
            {| cell_voltage := 41 / 10; Q_full_mod := 225 / 100 |}) 2 (225 / 100) 25
       = Some (P, I)
       /\ 0 <= P /\ 0 <= I.
Proof.
  assert (H1 : (0 < 1)%Z) by lia.
  assert (H2 : (0 <= 1)%Z) by lia.
  assert (H3 : 0 <= 2) by lra.
  assert (H4 : 0 <= 1 / 1000) by lra.
  assert (H5 : 0 < 1) by lra.
  assert (H6 : 1 <= (1 / 2 + INR 5 / 10) * 1) by (simpl; lra).
  split; [exact (conj H1 (conj H2 (conj H3 (conj H4 (conj H5 H6)))))|].
  destruct (dynamic_max_discharge_returns (1 / 1000)
              (Tremblay.model Examples.dynamic_scenario
                 {| cell_voltage := 41 / 10; Q_full_mod := 225 / 100 |})
              5 2 (225 / 100) 25 H1 H2 H3 H4 H5 H6) as (P & I & Hr & HP & HI).
  exists P, I. split; [exact (Hr 0%nat)|]. split; [exact HP|].
  apply HI. cbn. lra.
Defined.

(** X17. The scan of [calculate_max_discharge_w] starts at half the charge
    per hour, so it does not run at all when the time step is two hours or
    more, or when the charge per string is within the tolerance: with at least
    one string and a non-negative charge and tolerance, the extreme discharge
    power and its current are then both 0, whatever the fuel. *)
Theorem dynamic_max_discharge_without_scan
    (tolerance : R) (fuel : nat) (m : voltage_dynamic_t.t) (q qmax T : R) :
  (0 < num_strings (voltage_dynamic_t.params m))%Z ->
  0 <= q -> 0 <= tolerance ->
  2 <= dt_hr (voltage_dynamic_t.params m)
  \/ (0 <= dt_hr (voltage_dynamic_t.params m)
      /\ q <= tolerance * IZR (num_strings (voltage_dynamic_t.params m))) ->
  voltage_dynamic_t.calculate_max_discharge_w tolerance fuel m q qmax T = Some (0, 0).
Proof.
  intros Hns Hq Htol Hcase. apply IZR_lt in Hns.
  set (ns := IZR (num_strings (voltage_dynamic_t.params m))) in *.
  assert (Hinv : 0 < / ns) by now apply Rinv_0_lt_compat.
  assert (Hqs : 0 <= q / ns) by (apply Rmult_le_pos; lra).
  unfold voltage_dynamic_t.calculate_max_discharge_w. fold ns.
  rewrite max_discharge_loop_unfold.
  rewrite dlt_false.
  - cbn [andb]. f_equal. f_equal; ring.
  - destruct Hcase as [Hdt | [Hdt Hsmall]].
    + nra.
    + assert (q / ns <= tolerance).
      { apply Rmult_le_reg_r with ns; [lra|]. unfold Rdiv.
        rewrite Rmult_assoc, Rinv_l by lra. lra. }
      nra.
Qed.

(** X17 at the scenario of the specification run with two-hour steps. *)
Lemma dynamic_max_discharge_without_scan_two_hours :
  ((0 < 1)%Z /\ 0 <= 2 /\ 0 <= 1 / 1000 /\ 2 <= 2)
  /\ voltage_dynamic_t.calculate_max_discharge_w (1 / 1000) 0
       {| voltage_dynamic_t.params :=
            {| voltage_choice := MODEL; num_cells_series := 1; num_strings := 1;
               Vnom_default := 36 / 10; resistance := 5 / 100; dt_hr := 2;
               voltage_table := []; dynamic := dynamic Examples.dynamic_scenario |};
          voltage_dynamic_t.state := {| cell_voltage := 41 / 10; Q_full_mod := 225 / 100 |};
          voltage_dynamic_t._A := Tremblay.A Examples.dynamic_scenario;
          voltage_dynamic_t._B0 := Tremblay.B0 Examples.dynamic_scenario;
          voltage_dynamic_t._K := Tremblay.K Examples.dynamic_scenario;
          voltage_dynamic_t._E0 := Tremblay.E0 Examples.dynamic_scenario |}
       2 (225 / 100) 25
     = Some (0, 0).
Proof.
  assert (H1 : (0 < 1)%Z) by lia.
  assert (H2 : 0 <= 2) by lra.
  assert (H3 : 0 <= 1 / 1000) by lra.
  assert (H4 : 2 <= 2) by lra.
  split; [exact (conj H1 (conj H2 (conj H3 H4)))|].
  apply dynamic_max_discharge_without_scan; trivial. left. exact H4.
Defined.

(** ** VanadiumRedox variant *)

Section VanadiumCurve.

Variable tolerance : R.
Variable m : voltage_vanadium_redox_t.t.

Local Abbreviation V := (voltage_vanadium_redox_t.voltage_model tolerance m).
Local Abbreviation Vnom_d := (Vnom_default (voltage_vanadium_redox_t.params m)).
Local Abbreviation Rint := (resistance (voltage_vanadium_redox_t.params m)).

(** X18. The vanadium cell voltage depends on the current through its
    magnitude only: it is the same for a current and its opposite, with a
    non-negative resistance it does not fall when the magnitude grows, and a
    half-full tank at rest is at the nominal voltage (for a tolerance of at
    most 1/2). *)
Theorem vanadium_voltage_and_current (q0 qmax I1 I2 T : R) :
  voltage_vanadium_redox_t.voltage_model tolerance m q0 qmax (- I1) T
  = voltage_vanadium_redox_t.voltage_model tolerance m q0 qmax I1 T
  /\ (0 <= Rint -> Rabs I1 <= Rabs I2 ->
      voltage_vanadium_redox_t.voltage_model tolerance m q0 qmax I1 T
      <= voltage_vanadium_redox_t.voltage_model tolerance m q0 qmax I2 T)
  /\ (tolerance <= 1 / 2 -> qmax <> 0 ->
      voltage_vanadium_redox_t.voltage_model tolerance m (qmax / 2) qmax 0 T
      = Vnom_d).
Proof.
  unfold voltage_vanadium_redox_t.voltage_model. repeat split.
  - now rewrite Rabs_Ropp.
  - intros HR HI. nra.
  - intros Htol Hq.
    destruct (SOC_use_cases tolerance (qmax / 2) qmax)
      as [[H _] | [(_ & H & _) | (_ & _ & ->)]].
    + replace (qmax / 2 / qmax) with (1 / 2) in H by (field; exact Hq). lra.
    + replace (qmax / 2 / qmax) with (1 / 2) in H by (field; exact Hq). lra.
    + replace (qmax / 2 / qmax) with (1 / 2) by (field; exact Hq).
      replace ((1 / 2) ^ 2 / (1 - 1 / 2) ^ 2) with 1 by lra.
      rewrite ln_1, Rabs_R0. ring.
Qed.

Lemma ln_monotone (x y : R) : 0 < x -> x <= y -> ln x <= ln y.
Proof.
  intros Hx [Hlt | ->]; [| apply Rle_refl]. apply Rlt_le. now apply ln_increasing.
Qed.

Lemma log_argument_grows (s1 s2 : R) :
  0 < s1 -> s1 <= s2 -> s2 < 1 ->
  0 < s1 ^ 2 / (1 - s1) ^ 2 /\ s1 ^ 2 / (1 - s1) ^ 2 <= s2 ^ 2 / (1 - s2) ^ 2.
Proof.
  intros H0 H12 H1.
  assert (Hd1 : 0 < (1 - s1) ^ 2) by (apply pow2_pos; lra).
  assert (Hd2 : 0 < (1 - s2) ^ 2) by (apply pow2_pos; lra).
  split; [apply Rdiv_lt_0_compat; [apply pow2_pos; lra | exact Hd1]|].
  replace (s1 ^ 2 / (1 - s1) ^ 2)
    with (s1 ^ 2 * (1 - s2) ^ 2 * / ((1 - s1) ^ 2 * (1 - s2) ^ 2)) by (field; lra).
  replace (s2 ^ 2 / (1 - s2) ^ 2)
    with (s2 ^ 2 * (1 - s1) ^ 2 * / ((1 - s1) ^ 2 * (1 - s2) ^ 2)) by (field; lra).
  apply Rmult_le_compat_r.
  - apply Rlt_le, Rinv_0_lt_compat. now apply Rmult_lt_0_compat.
  - assert (0 <= s1 * (1 - s2)) by nra.
    assert (s1 * (1 - s2) <= s2 * (1 - s1)) by nra.
    simpl. nra.
Qed.

(** X19. With a positive capacity, a tolerance strictly between 0 and 1 and
    a non-negative product of [m_RCF] and the temperature, the vanadium cell
    voltage does not fall when a positive charge grows. *)
Theorem vanadium_voltage_rises_with_charge (q1 q2 qmax I T : R) :
  0 < tolerance < 1 ->
  0 < qmax ->
  0 <= voltage_vanadium_redox_t.m_RCF m * T ->
  0 < q1 -> q1 <= q2 ->
  V q1 qmax I T <= V q2 qmax I T.
Proof.
  intros Htol Hqmax HT Hq1 Hq12.
  assert (Hinv : 0 < / qmax) by now apply Rinv_0_lt_compat.
  assert (Hr1 : 0 < q1 / qmax) by (apply Rmult_lt_0_compat; lra).
  assert (Hr12 : q1 / qmax <= q2 / qmax) by (apply Rmult_le_compat_r; lra).
  unfold voltage_vanadium_redox_t.voltage_model.
  set (s1 := voltage_vanadium_redox_t.SOC_use tolerance q1 qmax).
  set (s2 := voltage_vanadium_redox_t.SOC_use tolerance q2 qmax).
  assert (Hs : 0 < s1 /\ s1 <= s2 /\ s2 < 1).
  { subst s1 s2.
    destruct (SOC_use_cases tolerance q1 qmax) as [[A1 ->] | [(A1 & A2 & ->) | (A1 & A2 & ->)]];
      destruct (SOC_use_cases tolerance q2 qmax)
        as [[B1 ->] | [(B1 & B2 & ->) | (B1 & B2 & ->)]]; lra. }
  destruct Hs as (Hs1 & Hs12 & Hs2).
  destruct (log_argument_grows s1 s2 Hs1 Hs12 Hs2) as [Hpos Hle].
  assert (ln (s1 ^ 2 / (1 - s1) ^ 2) <= ln (s2 ^ 2 / (1 - s2) ^ 2)) by now apply ln_monotone.
  nra.
Qed.

End VanadiumCurve.

(** X19 at the vanadium stack, between 1 Ah and 2 Ah of 4 Ah at 298.15 K. *)
Lemma vanadium_voltage_rises_with_charge_scenario :
  (0 < 1 / 1000 < 1 /\ 0 < 4
   /\ 0 <= voltage_vanadium_redox_t.RCF * (25 + 27315 / 100)
   /\ 0 < 1 /\ 1 <= 2)
  /\ voltage_vanadium_redox_t.voltage_model (1 / 1000)
       (voltage_vanadium_redox_t.initialize Examples.vanadium_scenario) 1 4 0 (25 + 27315 / 100)
     <= voltage_vanadium_redox_t.voltage_model (1 / 1000)
          (voltage_vanadium_redox_t.initialize Examples.vanadium_scenario) 2 4 0
          (25 + 27315 / 100).
Proof.
  assert (H1 : 0 < 1 / 1000 < 1) by lra.
  assert (H2 : 0 < 4) by lra.
  assert (H3 : 0 <= voltage_vanadium_redox_t.RCF * (25 + 27315 / 100))
    by (unfold voltage_vanadium_redox_t.RCF; lra).
  assert (H4 : 0 < 1) by lra.
  assert (H5 : 1 <= 2) by lra.
  split; [exact (conj H1 (conj H2 (conj H3 (conj H4 H5))))|].
  exact (vanadium_voltage_rises_with_charge (1 / 1000)
           (voltage_vanadium_redox_t.initialize Examples.vanadium_scenario)
           1 2 4 0 (25 + 27315 / 100) H1 H2 H3 H4 H5).
Defined.

Section VanadiumEnds.

Variable tolerance : R.
Variable m : voltage_vanadium_redox_t.t.

Local Abbreviation V := (voltage_vanadium_redox_t.voltage_model tolerance m).

Lemma log_argument_grows_strictly (s1 s2 : R) :
  0 < s1 -> s1 < s2 -> s2 < 1 ->
  s1 ^ 2 / (1 - s1) ^ 2 < s2 ^ 2 / (1 - s2) ^ 2.
Proof.
  intros H0 H12 H1.
  assert (Hd1 : 0 < (1 - s1) ^ 2) by (apply pow2_pos; lra).
  assert (Hd2 : 0 < (1 - s2) ^ 2) by (apply pow2_pos; lra).
  replace (s1 ^ 2 / (1 - s1) ^ 2)
    with (s1 ^ 2 * (1 - s2) ^ 2 * / ((1 - s1) ^ 2 * (1 - s2) ^ 2)) by (field; lra).
  replace (s2 ^ 2 / (1 - s2) ^ 2)
    with (s2 ^ 2 * (1 - s1) ^ 2 * / ((1 - s1) ^ 2 * (1 - s2) ^ 2)) by (field; lra).
  apply Rmult_lt_compat_r.
  - apply Rinv_0_lt_compat. now apply Rmult_lt_0_compat.
  - assert (0 < s1 * (1 - s2)) by nra.
    assert (s1 * (1 - s2) < s2 * (1 - s1)) by nra.
    simpl. nra.
Qed.

(** X20. The two ends of the vanadium curve.  From [(1 - tolerance) * qmax]
    upwards the cell voltage is the one of the full tank.  An exactly empty
    tank is treated as one charged to 0.1 percent; a tank charged to less than
    that, but not empty, is used as it is and, with a positive product of
    [m_RCF] and the temperature, gets a strictly lower voltage than the empty
    one. *)
Theorem vanadium_voltage_at_the_ends (q0 qmax I T : R) :
  0 < tolerance <= 999 / 1000 ->
  0 < qmax ->
  ((1 - tolerance) * qmax <= q0 -> V q0 qmax I T = V qmax qmax I T)
  /\ V 0 qmax I T = V (qmax / 1000) qmax I T
  /\ (0 < voltage_vanadium_redox_t.m_RCF m * T -> 0 < q0 -> q0 < qmax / 1000 ->
      V q0 qmax I T < V 0 qmax I T).
Proof.
  intros Htol Hqmax.
  assert (Hinv : 0 < / qmax) by now apply Rinv_0_lt_compat.
  assert (Hfull : qmax / qmax = 1) by (field; lra).
  assert (Hzero : 0 / qmax = 0) by (field; lra).
  assert (Hmilli : qmax / 1000 / qmax = 1 / 1000) by (field; lra).
  assert (Hs0 : voltage_vanadium_redox_t.SOC_use tolerance 0 qmax = 1 / 10 ^ 3).
  { destruct (SOC_use_cases tolerance 0 qmax) as [[H _] | [(_ & _ & H) | (_ & H & _)]];
      [lra | exact H | lra]. }
  unfold voltage_vanadium_redox_t.voltage_model. repeat split.
  - intros Hq.
    assert (Hr : 1 - tolerance <= q0 / qmax).
    { apply Rmult_le_reg_r with qmax; [lra|]. unfold Rdiv.
      rewrite Rmult_assoc, Rinv_l by lra. lra. }
    assert (voltage_vanadium_redox_t.SOC_use tolerance q0 qmax = 1 - tolerance) as ->.
    { destruct (SOC_use_cases tolerance q0 qmax) as [[_ H] | [(_ & H & _) | (H1 & _ & H)]];
        [exact H | lra | rewrite H; lra]. }
    assert (voltage_vanadium_redox_t.SOC_use tolerance qmax qmax = 1 - tolerance) as ->.
    { destruct (SOC_use_cases tolerance qmax qmax) as [[_ H] | [(H & _) | (H & _)]];
        [exact H | lra | lra]. }
    reflexivity.
  - rewrite Hs0.
    assert (voltage_vanadium_redox_t.SOC_use tolerance (qmax / 1000) qmax = 1 / 10 ^ 3) as ->.
    { destruct (SOC_use_cases tolerance (qmax / 1000) qmax)
        as [[H _] | [(_ & H & _) | (_ & _ & H)]]; [lra | lra | rewrite H; lra]. }
    reflexivity.
  - intros HT Hq0 Hsmall. rewrite Hs0.
    assert (Hr0 : 0 < q0 / qmax) by (apply Rmult_lt_0_compat; lra).
    assert (Hr1 : q0 / qmax < 1 / 1000).
    { rewrite <- Hmilli. apply Rmult_lt_compat_r; lra. }
    assert (voltage_vanadium_redox_t.SOC_use tolerance q0 qmax = q0 / qmax) as ->.
    { destruct (SOC_use_cases tolerance q0 qmax) as [[H _] | [(_ & H & _) | (_ & _ & H)]];
        [lra | lra | exact H]. }
    assert (Hlt : (q0 / qmax) ^ 2 / (1 - q0 / qmax) ^ 2
                  < (1 / 10 ^ 3) ^ 2 / (1 - 1 / 10 ^ 3) ^ 2)
      by (apply log_argument_grows_strictly; lra).
    assert (Hpos : 0 < (q0 / qmax) ^ 2 / (1 - q0 / qmax) ^ 2)
      by (apply Rdiv_lt_0_compat; apply pow2_pos; lra).
    pose proof (ln_increasing _ _ Hpos Hlt). nra.
Qed.

(** X21. The VanadiumRedox variant depends on the charge and the capacity
    through their ratio only, so [set_initial_SOC] is blind to the number of
    strings (as long as it is not 0) and to the resistance: it leaves
    [Vnom + m_RCF * 298.15 * ln (s^2 / (1 - s)^2)] for [s] the state of charge
    used for [init_soc / 100], which is the nominal voltage itself at 50
    percent (for a tolerance of at most 1/2). *)
Theorem vanadium_set_initial_SOC (init_soc : R) :
  num_strings (voltage_vanadium_redox_t.params m) <> 0%Z ->
  let s := voltage_vanadium_redox_t.SOC_use tolerance init_soc 100 in
  cell_voltage (voltage_vanadium_redox_t.state
                  (voltage_vanadium_redox_t.set_initial_SOC tolerance m init_soc))
  = Vnom_default (voltage_vanadium_redox_t.params m)
    + voltage_vanadium_redox_t.m_RCF m * (25 + 27315 / 100) * ln (s ^ 2 / (1 - s) ^ 2)
  /\ (tolerance <= 1 / 2 -> init_soc = 50 ->
      cell_voltage (voltage_vanadium_redox_t.state
                      (voltage_vanadium_redox_t.set_initial_SOC tolerance m init_soc))
      = Vnom_default (voltage_vanadium_redox_t.params m)).
Proof.
  intros Hns s. apply not_0_IZR in Hns.
  set (ns := IZR (num_strings (voltage_vanadium_redox_t.params m))) in *.
  assert (Hratio : voltage_vanadium_redox_t.SOC_use tolerance (init_soc / ns) (100 / ns) = s).
  { subst s. unfold voltage_vanadium_redox_t.SOC_use.
    replace (init_soc / ns / (100 / ns)) with (init_soc / 100) by (field; lra).
    reflexivity. }
  assert (Hcell :
    cell_voltage (voltage_vanadium_redox_t.state
                    (voltage_vanadium_redox_t.set_initial_SOC tolerance m init_soc))
    = Vnom_default (voltage_vanadium_redox_t.params m)
      + voltage_vanadium_redox_t.m_RCF m * (25 + 27315 / 100) * ln (s ^ 2 / (1 - s) ^ 2)).
  { unfold voltage_vanadium_redox_t.set_initial_SOC, voltage_vanadium_redox_t.updateVoltage,
      voltage_vanadium_redox_t.voltage_model.
    cbn [voltage_vanadium_redox_t.state voltage_vanadium_redox_t.set_state set_cell_voltage
         cell_voltage].
    fold ns. rewrite Hratio.
    replace (0 / ns) with 0 by (field; lra). rewrite Rabs_R0. ring. }
  split; [exact Hcell|].
  intros Htol Hsoc. rewrite Hcell.
  assert (s = 1 / 2) as ->.
  { subst s init_soc.
    destruct (SOC_use_cases tolerance 50 100) as [[H _] | [(_ & H & _) | (_ & _ & ->)]];
      lra. }
  replace ((1 / 2) ^ 2 / (1 - 1 / 2) ^ 2) with 1 by lra.
  rewrite ln_1. ring.
Qed.

(** X22. The extreme discharge power of the VanadiumRedox variant is never
    negative, whatever the root finder returns: a negative product of current
    and voltage is replaced by a zero power with a zero current. *)
Theorem vanadium_max_discharge_nonnegative (newton : root_finder) (q qmax kelvin : R) :
  0 <= fst (voltage_vanadium_redox_t.calculate_max_discharge_w tolerance newton m q qmax kelvin)
  /\ (fst (voltage_vanadium_redox_t.calculate_max_discharge_w tolerance newton m q qmax kelvin)
      = 0
      \/ snd (voltage_vanadium_redox_t.calculate_max_discharge_w tolerance newton m q qmax
                kelvin)
         = newton
             (voltage_vanadium_redox_t.solve_max_discharge_power m
                (q / IZR (num_strings (voltage_vanadium_redox_t.params m)))
                (qmax / IZR (num_strings (voltage_vanadium_redox_t.params m))) kelvin)
             ((q / IZR (num_strings (voltage_vanadium_redox_t.params m)) - tolerance)
              / dt_hr (voltage_vanadium_redox_t.params m))
             100%nat (1 / 10 ^ 6) (1 / 10 ^ 6) (7 / 10)
           * IZR (num_strings (voltage_vanadium_redox_t.params m))).
Proof.
  unfold voltage_vanadium_redox_t.calculate_max_discharge_w.
  match goal with |- context [dlt ?a 0] => destruct (Rlt_dec a 0) as [H | H] end.
  - rewrite (dlt_true _ _ H). cbn [fst snd]. split; [lra | now left].
  - rewrite dlt_false by lra. cbn [fst snd]. split; [lra | now right].
Qed.

End VanadiumEnds.

(** X20 at the vanadium stack: 4 Ah, tolerance 0.001, 298.15 K. *)
Lemma vanadium_voltage_at_the_ends_scenario :
  (0 < 1 / 1000 <= 999 / 1000 /\ 0 < 4)
  /\ voltage_vanadium_redox_t.voltage_model (1 / 1000)
       (voltage_vanadium_redox_t.initialize Examples.vanadium_scenario)
       (1 / 1000) 4 0 (25 + 27315 / 100)
     < voltage_vanadium_redox_t.voltage_model (1 / 1000)
         (voltage_vanadium_redox_t.initialize Examples.vanadium_scenario)
         0 4 0 (25 + 27315 / 100).
Proof.
  assert (H1 : 0 < 1 / 1000 <= 999 / 1000) by lra.
  assert (H2 : 0 < 4) by lra.
  split; [exact (conj H1 H2)|].
  refine (proj2 (proj2 (vanadium_voltage_at_the_ends (1 / 1000)
            (voltage_vanadium_redox_t.initialize Examples.vanadium_scenario)
            (1 / 1000) 4 0 (25 + 27315 / 100) H1 H2)) _ _ _).
  - cbn. unfold voltage_vanadium_redox_t.RCF. lra.
  - lra.
  - lra.
Defined.

(** X21 at the vanadium stack, at 50 percent. *)
Lemma vanadium_set_initial_SOC_scenario :
  1%Z <> 0%Z
  /\ cell_voltage (voltage_vanadium_redox_t.state
       (voltage_vanadium_redox_t.set_initial_SOC (1 / 1000)
          (voltage_vanadium_redox_t.initialize Examples.vanadium_scenario) 50))
     = 14 / 10.
Proof.
  assert (H : 1%Z <> 0%Z) by lia.
  split; [exact H|].
  refine (proj2 (vanadium_set_initial_SOC (1 / 1000)
            (voltage_vanadium_redox_t.initialize Examples.vanadium_scenario) 50 H) _ _).
  - lra.
  - reflexivity.
Defined.

(** ** The outage steps of the resilience driver *)

Section OutageAccounting.

Variable dispatch_t : Type.
Variable tolerance : R.
Variable reset : dispatch_resilience.BatteryPower -> dispatch_resilience.BatteryPower.
Variables dispatch_ac_outage_step dispatch_dc_outage_step :
  dispatch_resilience.t dispatch_t -> Z -> dispatch_resilience.t dispatch_t.

Lemma indices_survived_next (current start : Z) :
  ((dispatch_resilience.size_t_add current 1 - start) mod 2 ^ 64
   = ((current - start) mod 2 ^ 64 + 1) mod 2 ^ 64)%Z.
Proof.
  unfold dispatch_resilience.size_t_add.
  rewrite Zminus_mod_idemp_l, Zplus_mod_idemp_l. f_equal. lia.
Qed.

(** X23. An outage step on the matching connection does not throw.  When the
    dispatch step leaves the bookkeeping of the driver alone, the step keeps
    the connection and the start index, adds the load met in the step to
    [met_loads_kw], and reports survival exactly when the unmet load is below
    the tolerance; [get_indices_survived] then grows by one (in [size_t]) and
    otherwise stays. *)
Theorem outage_step_accounting
    (d : dispatch_resilience.t dispatch_t) (crit_load_kwac pv_kwac : R) :
  keeps_bookkeeping dispatch_ac_outage_step ->
  dispatch_resilience.connection d = dispatch_resilience.AC_CONNECTED ->
  exists d' survived,
    dispatch_resilience.run_outage_step_ac tolerance reset dispatch_ac_outage_step
      d crit_load_kwac pv_kwac = (d', Ok survived)
    /\ dispatch_resilience.connection d' = dispatch_resilience.AC_CONNECTED
    /\ dispatch_resilience.start_outage_index d' = dispatch_resilience.start_outage_index d
    /\ dispatch_resilience.met_loads_kw d'
       = dispatch_resilience.met_loads_kw d
         + (dispatch_resilience.powerBatteryToLoad (dispatch_resilience.m_batteryPower d')
            + dispatch_resilience.powerSystemToLoad (dispatch_resilience.m_batteryPower d')
            + dispatch_resilience.powerFuelCellToLoad (dispatch_resilience.m_batteryPower d'))
    /\ (survived = true <->
        dispatch_resilience.powerCritLoadUnmet (dispatch_resilience.m_batteryPower d')
        < tolerance)
    /\ dispatch_resilience.get_indices_survived d'
       = if survived
         then ((dispatch_resilience.get_indices_survived d + 1) mod 2 ^ 64)%Z
         else dispatch_resilience.get_indices_survived d.
Proof.
  intros Hkeep Hc. unfold dispatch_resilience.run_outage_step_ac. rewrite Hc.
  cbv beta iota zeta. destruct (dlt pv_kwac 0); cbv beta iota zeta.
  all: match goal with
  | |- context [dispatch_ac_outage_step ?x ?i] =>
      destruct (Hkeep x i) as (K1 & K2 & K3 & K4); set (d1 := dispatch_ac_outage_step x i) in *
  end.
  all: cbn [dispatch_resilience.set_batteryPower dispatch_resilience.connection
            dispatch_resilience.start_outage_index dispatch_resilience.current_outage_index
            dispatch_resilience.met_loads_kw] in K1, K2, K3, K4.
  all: unfold dispatch_resilience.account.
  all: eexists; eexists; (split; [reflexivity|]).
  all: cbn [dispatch_resilience.connection dispatch_resilience.start_outage_index
            dispatch_resilience.met_loads_kw dispatch_resilience.m_batteryPower].
  all: unfold dispatch_resilience.get_indices_survived;
    cbn [dispatch_resilience.start_outage_index dispatch_resilience.current_outage_index].
  all: rewrite ?K1, ?K2, ?K3, ?K4; repeat split; trivial; try apply dlt_spec.
  all: destruct (dlt _ tolerance); [apply indices_survived_next | reflexivity].
Qed.

End OutageAccounting.

(** X23 at a battery three steps into its outage, with a dispatch step that
    changes nothing: the fourth step is survived. *)
Lemma outage_step_accounting_scenario :
  (keeps_bookkeeping (fun (d : dispatch_resilience.t unit) (_ : Z) => d)
   /\ dispatch_resilience.connection Examples.ac_battery = dispatch_resilience.AC_CONNECTED)
  /\ exists d',
       dispatch_resilience.run_outage_step_ac (1 / 1000) (fun b => b) (fun d _ => d)
         Examples.ac_battery 2 1 = (d', Ok true)
       /\ dispatch_resilience.get_indices_survived d' = 4%Z.
Proof.
  assert (H1 : keeps_bookkeeping (fun (d : dispatch_resilience.t unit) (_ : Z) => d))
    by (intros d i; repeat split).
  assert (H2 : dispatch_resilience.connection Examples.ac_battery
               = dispatch_resilience.AC_CONNECTED) by reflexivity.
  split; [exact (conj H1 H2)|].
  destruct (outage_step_accounting unit (1 / 1000) (fun b => b) (fun d _ => d)
              Examples.ac_battery 2 1 H1 H2)
    as (d' & survived & Hrun & _ & _ & _ & Hs & Hi).
  assert (Hsurvived : survived = true).
  { apply Hs.
    unfold dispatch_resilience.run_outage_step_ac in Hrun.
    cbn [Examples.ac_battery dispatch_resilience.connection] in Hrun.
    rewrite (dlt_false 1 0) in Hrun by lra.
    unfold dispatch_resilience.account in Hrun. cbv beta iota zeta in Hrun.
    injection Hrun as <- _. cbn. lra. }
  subst survived. exists d'. split; [exact Hrun | exact Hi].
Defined.

(** ** The metrics of the resilience runner *)

Section RunnerMetrics.

Import resilience_runner.

Lemma accumulate_from (v : list R) :
  forall a, fold_left Rplus v a = a + fold_right Rplus 0 v.
Proof.
  induction v as [| x v IH]; intros a; cbn; [lra|]. rewrite IH. lra.
Qed.

Lemma accumulate_sum (v : list R) : accumulate v = fold_right Rplus 0 v.
Proof. unfold accumulate. rewrite accumulate_from. lra. Qed.

Lemma insert_duration_In (a x : R) (sorted : list R) :
  In x (insert_duration a sorted) <-> x = a \/ In x sorted.
Proof.
  induction sorted as [| b rest IH]; cbn; [intuition|].
  destruct (dlt b a); cbn; rewrite ?IH; intuition.
Qed.

Lemma sort_durations_In (x : R) (v : list R) : In x (sort_durations v) <-> In x v.
Proof.
  induction v as [| a rest IH]; cbn; [tauto|].
  rewrite insert_duration_In, IH. intuition.
Qed.

Lemma insert_duration_sorted (a : R) (sorted : list R) :
  StronglySorted Rle sorted -> StronglySorted Rle (insert_duration a sorted).
Proof.
  induction sorted as [| b rest IH]; intros Hs; cbn.
  - repeat constructor.
  - inversion Hs as [| ? ? Hrest Hall]; subst.
    destruct (Rlt_dec b a) as [Hba | Hba].
    + rewrite (dlt_true _ _ Hba). constructor; [now apply IH|].
      apply Forall_forall. intros x Hx. apply insert_duration_In in Hx as [-> | Hx]; [lra|].
      exact (proj1 (Forall_forall _ _) Hall x Hx).
    + rewrite dlt_false by lra. constructor; [exact Hs|].
      constructor; [lra|].
      apply Forall_forall. intros x Hx.
      pose proof (proj1 (Forall_forall _ _) Hall x Hx). lra.
Qed.

Lemma sort_durations_sorted (v : list R) : StronglySorted Rle (sort_durations v).
Proof.
  induction v as [| a rest IH]; cbn; [constructor | now apply insert_duration_sorted].
Qed.

(** On a sorted vector [unique] keeps every value once. *)
Lemma unique_from_sorted (rest : list R) :
  forall a,
    StronglySorted Rle (a :: rest) ->
    StronglySorted Rlt (unique_from a rest)
    /\ (forall x, In x (unique_from a rest) <-> In x (a :: rest))
    /\ (forall x, In x (unique_from a rest) -> a <= x).
Proof.
  induction rest as [| b rest IH]; intros a Hs.
  - cbn. repeat split; try tauto.
    + repeat constructor.
    + intros x [-> | []]. lra.
  - inversion Hs as [| ? ? Hrest Hall]; subst.
    inversion Hall as [| ? ? Hab Hall']; subst.
    cbn [unique_from].
    destruct (Req_dec_T a b) as [Heq | Hne].
    + rewrite (deq_true _ _ Heq). subst b.
      assert (Hs' : StronglySorted Rle (a :: rest)).
      { inversion Hrest; subst. now constructor. }
      destruct (IH a Hs') as (H1 & H2 & H3).
      repeat split; trivial.
      * intros Hx. apply H2 in Hx. cbn in *. tauto.
      * intros Hx. apply H2. cbn in *. tauto.
    + rewrite (deq_false _ _ Hne).
      destruct (IH b Hrest) as (H1 & H2 & H3).
      repeat split.
      * constructor; [exact H1|]. apply Forall_forall. intros x Hx.
        specialize (H3 x Hx). lra.
      * intros [-> | Hx]; [now left | right; now apply H2].
      * intros [-> | Hx]; [now left | right; now apply H2].
      * intros x [<- | Hx]; [lra | specialize (H3 x Hx); lra].
Qed.

Lemma strictly_sorted_NoDup (v : list R) : StronglySorted Rlt v -> NoDup v.
Proof.
  induction 1 as [| a v Hs IH Hall]; constructor; trivial.
  intros Hin. pose proof (proj1 (Forall_forall _ _) Hall a Hin). lra.
Qed.

Lemma durations_distinct (v : list R) :
  NoDup (unique (sort_durations v))
  /\ forall x, In x (unique (sort_durations v)) <-> In x v.
Proof.
  pose proof (sort_durations_sorted v) as Hs.
  assert (Hin : forall x, In x v <-> In x (sort_durations v))
    by (intros x; symmetry; apply sort_durations_In).
  destruct (sort_durations v) as [| a rest] eqn:Hsort.
  - split; [constructor|]. intros x. rewrite Hin. tauto.
  - cbn [unique]. destruct (unique_from_sorted rest a Hs) as (H1 & H2 & _).
    split; [now apply strictly_sorted_NoDup|].
    intros x. rewrite H2, Hin. tauto.
Qed.

Lemma list_sum_cons (c : nat) (counts : list nat) :
  list_sum (c :: counts) = (c + list_sum counts)%nat.
Proof. reflexivity. Qed.

Lemma count_none (values : list R) (x : R) :
  ~ In x values ->
  list_sum (map (fun i => if deq x i then 1%nat else 0%nat) values) = 0%nat.
Proof.
  induction values as [| b values IH]; intros Hnot; [reflexivity|].
  cbn [map]. rewrite list_sum_cons, deq_false by (intros ->; apply Hnot; now left).
  apply IH. intros H. apply Hnot. now right.
Qed.

(** Counting every value of a vector once counts the vector. *)
Lemma count_one (values : list R) (x : R) :
  NoDup values -> In x values ->
  list_sum (map (fun i => if deq x i then 1%nat else 0%nat) values) = 1%nat.
Proof.
  induction 1 as [| a values Hnot Hnd IH]; intros Hin; [contradiction|].
  cbn [map]. rewrite list_sum_cons. destruct Hin as [-> | Hin].
  - rewrite (deq_true x x eq_refl). now rewrite count_none.
  - rewrite deq_false by (intros ->; contradiction). now rewrite IH.
Qed.

Lemma list_sum_plus {A : Type} (f g : A -> nat) (values : list A) :
  list_sum (map (fun i => (f i + g i)%nat) values)
  = (list_sum (map f values) + list_sum (map g values))%nat.
Proof.
  induction values as [| a values IH]; [reflexivity|].
  cbn [map]. rewrite !list_sum_cons, IH. lia.
Qed.

Lemma count_all (indices : list Z) (values : list R) :
  NoDup values ->
  (forall index, In index indices -> In (IZR index) values) ->
  list_sum (map (count indices) values) = length indices.
Proof.
  intros Hnd. induction indices as [| index indices IH]; intros Hall.
  - unfold count. cbn [filter length]. clear Hnd Hall.
    induction values as [| a values IHv]; [reflexivity|].
    cbn [map]. now rewrite list_sum_cons, IHv.
  - assert (Hstep : forall i, count (index :: indices) i
                              = ((if deq (IZR index) i then 1 else 0) + count indices i)%nat).
    { intros i. unfold count. cbn [filter]. destruct (deq (IZR index) i); reflexivity. }
    rewrite (map_ext _ _ Hstep), list_sum_plus, IH, count_one; trivial.
    + apply Hall. now left.
    + intros i Hi. apply Hall. now right.
Qed.

Lemma sum_of_quotients (counts : list nat) (h : R) :
  fold_right Rplus 0 (map (fun c => INR c / h) counts) = INR (list_sum counts) / h.
Proof.
  induction counts as [| c counts IH]; cbn [map fold_right].
  - change (INR (list_sum [])) with 0. unfold Rdiv. lra.
  - rewrite IH, list_sum_cons, plus_INR. unfold Rdiv. lra.
Qed.

(** X26. The probabilities [compute_metrics] stores add up to the number of
    recorded outages over [step_per_hour * 8760 * nyears]; they add up to 1
    when that product is the number of recorded outages, as it is for the
    vector the constructor sizes. *)
Theorem compute_metrics_probabilities {dispatch_t : Type} (r : t dispatch_t) :
  accumulate (probs_of_surviving (fst (compute_metrics r)))
  = INR (length (indices_survived r))
    / (IZR (step_per_hour (batt r)) * 8760 * IZR (nyears (batt r)))
  /\ (INR (length (indices_survived r))
      = IZR (step_per_hour (batt r)) * 8760 * IZR (nyears (batt r)) ->
      indices_survived r <> [] ->
      accumulate (probs_of_surviving (fst (compute_metrics r))) = 1)
  /\ length (outage_durations (fst (compute_metrics r)))
     = length (probs_of_surviving (fst (compute_metrics r)))
  /\ indices_survived (fst (compute_metrics r)) = indices_survived r.
Proof.
  assert (Hsum :
    accumulate (probs_of_surviving (fst (compute_metrics r)))
    = INR (length (indices_survived r))
      / (IZR (step_per_hour (batt r)) * 8760 * IZR (nyears (batt r)))).
  { rewrite accumulate_sum. cbn [compute_metrics fst probs_of_surviving].
    destruct (durations_distinct (map IZR (indices_survived r))) as [Hnd Hin].
    rewrite <- (map_map (count (indices_survived r)) (fun c => INR c / _)).
    rewrite sum_of_quotients, count_all; trivial.
    intros index Hi. apply Hin. now apply in_map. }
  split; [exact Hsum|]. split; [| split].
  - intros Hlen Hne. rewrite Hsum, <- Hlen. field.
    destruct (indices_survived r); [contradiction|].
    apply not_0_INR. discriminate.
  - cbn. now rewrite !length_map.
  - reflexivity.
Qed.

End RunnerMetrics.

Section RunnerCurves.

Import resilience_runner.

Lemma cumulate_deplete (probs : list R) :
  forall prev_c prev_s,
    complements prev_c prev_s ->
    Forall2 complements (cumulate prev_c probs) (deplete prev_s probs).
Proof.
  unfold complements.
  induction probs as [| p rest IH]; intros prev_c prev_s H; cbn; constructor.
  - lra.
  - apply IH. lra.
Qed.

Lemma cumulate_last (probs : list R) :
  forall prev, last (prev :: cumulate prev probs) 0 = prev + fold_right Rplus 0 probs.
Proof.
  induction probs as [| p rest IH]; intros prev.
  - cbn. lra.
  - change (last (prev :: cumulate prev (p :: rest)) 0)
      with (last ((p + prev) :: cumulate (p + prev) rest) 0).
    rewrite IH. cbn. lra.
Qed.

Lemma Forall2_removelast {A B : Type} (P : A -> B -> Prop) (l : list A) (l' : list B) :
  Forall2 P l l' -> Forall2 P (removelast l) (removelast l').
Proof.
  induction 1 as [| a b l l' Hab Hl IH]; [constructor|].
  cbn [removelast]. destruct Hl; [constructor | now constructor].
Qed.

Lemma Forall2_last {A B : Type} (P : A -> B -> Prop) (l : list A) (l' : list B) (a : A) (b : B) :
  Forall2 P l l' -> l <> [] -> P (last l a) (last l' b).
Proof.
  induction 1 as [| x y l l' Hxy Hl IH]; intros Hne; [contradiction|].
  destruct Hl as [| x' y' l l' Hxy' Hl]; [exact Hxy|].
  apply IH. discriminate.
Qed.

Lemma length_replace_last {A : Type} (l : list A) (x : A) :
  l <> [] -> length (removelast l ++ [x]) = length l.
Proof.
  intros H. rewrite (app_removelast_last x H) at 2. now rewrite !length_app.
Qed.

(** X27. The survival function is the complement of the cumulative
    distribution: both have one entry per probability, every entry of the
    survival function but the last is 1 less the entry of the distribution,
    the distribution ends at the sum of the probabilities, and the last entry
    of the survival function is 1 less that sum, or 0 when that is below
    1e-7. *)
Theorem survival_complements_cdf {dispatch_t : Type} (r : t dispatch_t) (cdf survival : list R) :
  get_cdf_of_surviving r = Some cdf ->
  get_survival_function r = Some survival ->
  length cdf = length (probs_of_surviving r)
  /\ length survival = length (probs_of_surviving r)
  /\ Forall2 complements (removelast cdf) (removelast survival)
  /\ last cdf 0 = accumulate (probs_of_surviving r)
  /\ last survival 0
     = if dlt (1 - last cdf 0) (1 / 10 ^ 7) then 0 else 1 - last cdf 0.
Proof.
  unfold get_cdf_of_surviving, get_survival_function.
  destruct (probs_of_surviving r) as [| p0 rest]; [discriminate|].
  intros Hc Hs. injection Hc as <-. injection Hs as <-.
  assert (Hraw : Forall2 complements (p0 :: cumulate p0 rest)
                   ((1 - p0) :: deplete (1 - p0) rest)).
  { constructor; [reflexivity|]. now apply cumulate_deplete. }
  assert (Hlast : last ((1 - p0) :: deplete (1 - p0) rest) 0
                  = 1 - last (p0 :: cumulate p0 rest) 0).
  { apply (Forall2_last complements _ _ 0 0 Hraw). discriminate. }
  assert (Hlen : length ((1 - p0) :: deplete (1 - p0) rest) = length (p0 :: rest)).
  { rewrite <- (Forall2_length Hraw). cbn. f_equal.
    clear. generalize p0. induction rest as [| p rest IH]; intros prev; cbn; [| rewrite IH];
      reflexivity. }
  rewrite <- Hlast. unfold zero_small_back.
  repeat split.
  - rewrite (Forall2_length Hraw). exact Hlen.
  - destruct (dlt _ _); [| exact Hlen].
    rewrite length_replace_last by discriminate. exact Hlen.
  - destruct (dlt _ _).
    + rewrite removelast_last. now apply Forall2_removelast.
    + now apply Forall2_removelast.
  - rewrite cumulate_last, accumulate_sum. cbn. lra.
  - destruct (dlt _ _); [apply last_last | reflexivity].
Qed.

End RunnerCurves.

(** X27 at a runner with two durations of probability 1/2 each. *)
Lemma survival_complements_cdf_scenario :
  (resilience_runner.get_cdf_of_surviving Examples.runner_with_metrics
   = Some [1 / 2; 1 / 2 + 1 / 2]
   /\ resilience_runner.get_survival_function Examples.runner_with_metrics
      = Some (resilience_runner.zero_small_back [1 - 1 / 2; 1 - 1 / 2 - 1 / 2]))
  /\ last (resilience_runner.zero_small_back [1 - 1 / 2; 1 - 1 / 2 - 1 / 2]) 0 = 0.
Proof.
  assert (H1 : resilience_runner.get_cdf_of_surviving Examples.runner_with_metrics
               = Some [1 / 2; 1 / 2 + 1 / 2]) by reflexivity.
  assert (H2 : resilience_runner.get_survival_function Examples.runner_with_metrics
               = Some (resilience_runner.zero_small_back [1 - 1 / 2; 1 - 1 / 2 - 1 / 2]))
    by reflexivity.
  split; [exact (conj H1 H2)|].
  destruct (survival_complements_cdf Examples.runner_with_metrics _ _ H1 H2)
    as (_ & _ & _ & _ & Hlast).
  rewrite Hlast. cbn [last]. rewrite dlt_true; [reflexivity|].
  assert (0 < 1 / 10 ^ 7) by (apply Rdiv_lt_0_compat; [lra | apply pow_lt; lra]). lra.
Defined.

(** ** The batteries of the resilience runner *)

Section RunnerMap.

Import resilience_runner.

Context {V : Type}.

Lemma map_insert_find_new (k : Z) (v : V) (entries : list (Z * V)) :
  map_find k entries = None -> map_find k (map_insert k v entries) = Some v.
Proof.
  induction entries as [| [k' v'] rest IH]; cbn; intros H.
  - now rewrite Z.eqb_refl.
  - destruct (Z.eqb_spec k k') as [-> | Hne]; [discriminate|].
    destruct (k <? k')%Z; cbn.
    + now rewrite Z.eqb_refl.
    + destruct (Z.eqb_spec k k'); [contradiction | now apply IH].
Qed.

Lemma map_insert_find_other (k k0 : Z) (v : V) (entries : list (Z * V)) :
  k0 <> k -> map_find k0 (map_insert k v entries) = map_find k0 entries.
Proof.
  intros Hne. induction entries as [| [k' v'] rest IH]; cbn.
  - destruct (Z.eqb_spec k0 k); [contradiction | reflexivity].
  - destruct (k <? k')%Z; cbn.
    + destruct (Z.eqb_spec k0 k); [contradiction | reflexivity].
    + destruct (Z.eqb_spec k k'); cbn; [reflexivity|].
      destruct (k0 =? k')%Z; [reflexivity | exact IH].
Qed.

Lemma map_find_keys (k : Z) (entries : list (Z * V)) :
  map_find k entries = None <-> ~ In k (map fst entries).
Proof.
  induction entries as [| [k' v'] rest IH]; cbn; [tauto|].
  destruct (Z.eqb_spec k k') as [-> | Hne].
  - split; [discriminate | intros H; elim H; now left].
  - rewrite IH. split; [intros H [Heq | Hin]; [congruence | contradiction] | tauto].
Qed.

Lemma map_insert_existing (k : Z) (v : V) (entries : list (Z * V)) :
  StronglySorted Z.lt (map fst entries) ->
  map_find k entries <> None -> map_insert k v entries = entries.
Proof.
  induction entries as [| [k' v'] rest IH]; cbn; intros Hs Hfind; [contradiction|].
  inversion Hs as [| ? ? Hrest Hall]; subst.
  destruct (Z.eqb_spec k k') as [-> | Hne].
  - now rewrite Z.ltb_irrefl.
  - destruct (Z.ltb_spec k k') as [Hlt | Hge].
    + elim Hfind. apply map_find_keys. intros Hin.
      pose proof (proj1 (Forall_forall _ _) Hall k Hin). lia.
    + f_equal. now apply IH.
Qed.

Lemma map_insert_keys (k k0 : Z) (v : V) (entries : list (Z * V)) :
  In k0 (map fst (map_insert k v entries)) -> k0 = k \/ In k0 (map fst entries).
Proof.
  induction entries as [| [k' v'] rest IH]; cbn; [intuition congruence|].
  destruct (k <? k')%Z; cbn; [intuition congruence|].
  destruct (k =? k')%Z; cbn; intuition congruence.
Qed.

Lemma map_insert_sorted (k : Z) (v : V) (entries : list (Z * V)) :
  StronglySorted Z.lt (map fst entries) ->
  StronglySorted Z.lt (map fst (map_insert k v entries)).
Proof.
  induction entries as [| [k' v'] rest IH]; cbn; intros Hs.
  - repeat constructor.
  - inversion Hs as [| ? ? Hrest Hall]; subst.
    destruct (Z.ltb_spec k k') as [Hlt | Hge]; cbn.
    + constructor; [exact Hs|]. constructor; [exact Hlt|].
      apply Forall_forall. intros x Hx.
      pose proof (proj1 (Forall_forall _ _) Hall x Hx). lia.
    + destruct (Z.eqb_spec k k') as [-> | Hne]; cbn; [exact Hs|].
      constructor; [now apply IH|].
      apply Forall_forall. intros x Hx.
      apply map_insert_keys in Hx as [-> | Hx]; [lia|].
      exact (proj1 (Forall_forall _ _) Hall x Hx).
Qed.

Lemma map_erase_absent (k : Z) (entries : list (Z * V)) :
  map_find k entries = None -> map_erase k entries = entries.
Proof.
  induction entries as [| [k' v'] rest IH]; cbn; [reflexivity|].
  destruct (k =? k')%Z; [discriminate|]. intros H. f_equal. now apply IH.
Qed.

Lemma map_erase_In (k k0 : Z) (v : V) (entries : list (Z * V)) :
  NoDup (map fst entries) ->
  (In (k0, v) (map_erase k entries) <-> In (k0, v) entries /\ k0 <> k).
Proof.
  induction entries as [| [k' v'] rest IH]; cbn; intros Hnd; [tauto|].
  inversion Hnd as [| ? ? Hnot Hnd']; subst.
  destruct (Z.eqb_spec k k') as [-> | Hne].
  - split.
    + intros Hin. split; [now right|]. intros ->. apply Hnot.
      now apply (in_map fst) in Hin.
    + intros [[Heq | Hin] Hk]; [congruence | exact Hin].
  - cbn. rewrite (IH Hnd'). split.
    + intros [Heq | [Hin Hk]]; [| tauto]. injection Heq as <- <-. split; [now left | congruence].
    + intros [[Heq | Hin] Hk]; [now left | right; tauto].
Qed.

Lemma map_erase_keys (k k0 : Z) (entries : list (Z * V)) :
  In k0 (map fst (map_erase k entries)) -> In k0 (map fst entries).
Proof.
  induction entries as [| [k' v'] rest IH]; cbn; [tauto|].
  destruct (k =? k')%Z; cbn; tauto.
Qed.

Lemma map_erase_NoDup (k : Z) (entries : list (Z * V)) :
  NoDup (map fst entries) -> NoDup (map fst (map_erase k entries)).
Proof.
  induction entries as [| [k' v'] rest IH]; cbn; intros Hnd; [constructor|].
  inversion Hnd as [| ? ? Hnot Hnd']; subst.
  destruct (k =? k')%Z; cbn; [exact Hnd'|].
  constructor; [| now apply IH]. intros Hin. apply Hnot. now apply map_erase_keys in Hin.
Qed.

Lemma map_erase_length (k : Z) (entries : list (Z * V)) :
  (length (map_erase k entries) <= length entries)%nat.
Proof.
  induction entries as [| [k' v'] rest IH]; cbn; [lia|].
  destruct (k =? k')%Z; cbn; lia.
Qed.

End RunnerMap.

Section RunnerBatteries.

Import resilience_runner.

Variable dispatch_t : Type.
Variable tolerance : R.
Variable reset : dispatch_resilience.BatteryPower -> dispatch_resilience.BatteryPower.
Variables dispatch_ac_outage_step dispatch_dc_outage_step :
  dispatch_resilience.t dispatch_t -> Z -> dispatch_resilience.t dispatch_t.
Variable make_dispatch : dispatch_t -> Z -> dispatch_resilience.t dispatch_t.

(** X25. Adding a battery at a start index keeps the keys of the map in
    order.  When the index already has a battery, that battery stays: the map
    is unchanged although a "Replacing battery" line is logged.  When it has
    none, the new battery is found at the index and nothing is logged.  The
    batteries at the other indices are untouched. *)
Theorem add_battery_keeps_existing (r : t dispatch_t) (orig : dispatch_t) (index : Z) :
  StronglySorted Z.lt (map fst (battery_per_outage_start r)) ->
  StronglySorted Z.lt
    (map fst (battery_per_outage_start (add_battery_at_outage_timestep make_dispatch r orig index)))
  /\ (forall b, map_find index (battery_per_outage_start r) = Some b ->
        battery_per_outage_start (add_battery_at_outage_timestep make_dispatch r orig index)
        = battery_per_outage_start r
        /\ logs (add_battery_at_outage_timestep make_dispatch r orig index)
           = logs r ++ [("Replacing battery which already existed at index "
                         ++ NilZero.string_of_uint (N.to_uint (Z.to_N index)) ++ ".")%string])
  /\ (map_find index (battery_per_outage_start r) = None ->
        map_find index
          (battery_per_outage_start (add_battery_at_outage_timestep make_dispatch r orig index))
        = Some (make_dispatch orig index)
        /\ logs (add_battery_at_outage_timestep make_dispatch r orig index) = logs r)
  /\ (forall k, k <> index ->
        map_find k
          (battery_per_outage_start (add_battery_at_outage_timestep make_dispatch r orig index))
        = map_find k (battery_per_outage_start r)).
Proof.
  intros Hs. unfold add_battery_at_outage_timestep.
  cbn [battery_per_outage_start logs]. repeat split.
  - now apply map_insert_sorted.
  - apply map_insert_existing; [exact Hs | congruence].
  - now rewrite H.
  - now apply map_insert_find_new.
  - now rewrite H.
  - intros k Hk. now apply map_insert_find_other.
Qed.

End RunnerBatteries.

(** X25 at a fresh runner: the battery added first at index 5 survives a
    second addition there. *)
Lemma add_battery_keeps_existing_scenario :
  let r0 := resilience_runner.add_battery_at_outage_timestep
              (fun (_ : unit) (_ : Z) => Examples.ac_battery)
              (resilience_runner.construct unit
                 (resilience_runner.batt Examples.runner_with_metrics)) tt 5 in
  StronglySorted Z.lt (map fst (resilience_runner.battery_per_outage_start r0))
  /\ resilience_runner.battery_per_outage_start
       (resilience_runner.add_battery_at_outage_timestep
          (fun (_ : unit) (_ : Z) => Examples.dc_battery) r0 tt 5)
     = [(5%Z, Examples.ac_battery)].
Proof.
  intros r0.
  assert (H : StronglySorted Z.lt (map fst (resilience_runner.battery_per_outage_start r0)))
    by (cbn; repeat constructor).
  split; [exact H|].
  destruct (add_battery_keeps_existing unit
              (fun (_ : unit) (_ : Z) => Examples.dc_battery) r0 tt 5 H)
    as (_ & Hkeep & _).
  destruct (Hkeep Examples.ac_battery eq_refl) as [Hmap _].
  rewrite Hmap. reflexivity.
Defined.

Section RunnerSteps.

Import resilience_runner.

Variable dispatch_t : Type.
Variable tolerance : R.
Variable reset : dispatch_resilience.BatteryPower -> dispatch_resilience.BatteryPower.
Variables dispatch_ac_outage_step dispatch_dc_outage_step :
  dispatch_resilience.t dispatch_t -> Z -> dispatch_resilience.t dispatch_t.
Variables crit_loads_kwac pv_kwac pv_kwdc V pv_clipped_kw tdry_c : R.

Local Abbreviation step :=
  (fun b => run_outage_step tolerance reset dispatch_ac_outage_step dispatch_dc_outage_step
              b crit_loads_kwac pv_kwac pv_kwdc V pv_clipped_kw tdry_c).

(** The runner picks the step by the connection of the battery, so the step
    never throws. *)
Lemma run_outage_step_returns (b : dispatch_resilience.t dispatch_t) :
  exists b' survived, step b = (b', Ok survived).
Proof.
  unfold run_outage_step.
  destruct (dispatch_resilience.connection b) eqn:Hc.
  - unfold dispatch_resilience.run_outage_step_dc. rewrite Hc.
    cbv beta iota zeta. destruct (dispatch_resilience.account _ _). now eexists; eexists.
  - unfold dispatch_resilience.run_outage_step_ac. rewrite Hc.
    cbv beta iota zeta. destruct (dlt pv_kwac 0); cbv beta iota zeta;
      destruct (dispatch_resilience.account _ _); now eexists; eexists.
Qed.

(** The first loop steps every battery in place and collects the keys of
    those that did not survive. *)
Lemma step_batteries_returns (entries : list (Z * dispatch_resilience.t dispatch_t)) :
  forall indices,
  exists entries' depleted indices',
    step_batteries tolerance reset dispatch_ac_outage_step dispatch_dc_outage_step
      entries crit_loads_kwac pv_kwac pv_kwdc V pv_clipped_kw tdry_c indices
    = Ok (entries', depleted, indices')
    /\ Forall2 (fun e e' => fst e' = fst e /\ fst (step (snd e)) = snd e') entries entries'
    /\ (forall k, In k depleted <->
          exists b, In (k, b) entries /\ snd (step b) = Ok false)
    /\ length indices' = length indices.
Proof.
  induction entries as [| [k b] rest IH]; intros indices.
  - exists [], [], indices. cbn. repeat split; try constructor; try tauto.
    intros (b & [] & _).
  - cbn [step_batteries].
    destruct (run_outage_step_returns b) as (b' & survived & Hb). rewrite Hb.
    match goal with
    | |- context [step_batteries _ _ _ _ rest _ _ _ _ _ _ ?i] =>
        destruct (IH i) as (rest' & depleted & indices' & Hrest & Hall & Hdep & Hlen)
    end.
    rewrite Hrest. cbn [bind].
    eexists; eexists; eexists. split; [reflexivity|]. repeat split.
    + constructor; [cbn [fst snd]; rewrite Hb; now split | exact Hall].
    + intros Hin. destruct survived.
      * apply Hdep in Hin as (b0 & Hin & Hs). exists b0. split; [now right | exact Hs].
      * destruct Hin as [<- | Hin].
        -- exists b. split; [now left | now rewrite Hb].
        -- apply Hdep in Hin as (b0 & Hin & Hs). exists b0. split; [now right | exact Hs].
    + intros (b0 & [Heq | Hin] & Hs).
      * injection Heq as <- <-. rewrite Hb in Hs. injection Hs as ->. now left.
      * assert (In k0 depleted) by (apply Hdep; now exists b0).
        destruct survived; [assumption | now right].
    + rewrite Hlen. destruct survived; [reflexivity|].
      clear. generalize (Z.to_nat k). induction indices as [| a l IHl]; intros [| n]; cbn;
        try reflexivity. now rewrite IHl.
Qed.

Lemma retire_batteries_entries (depleted : list Z) :
  forall (entries : list (Z * dispatch_resilience.t dispatch_t)) indices loads,
    NoDup (map fst entries) ->
    NoDup (map fst (fst (fst (retire_batteries depleted entries indices loads))))
    /\ (length (fst (fst (retire_batteries depleted entries indices loads)))
        <= length entries)%nat
    /\ forall k b,
         In (k, b) (fst (fst (retire_batteries depleted entries indices loads)))
         <-> In (k, b) entries /\ ~ In k depleted.
Proof.
  induction depleted as [| i rest IH]; intros entries indices loads Hnd.
  - cbn. repeat split; trivial; tauto.
  - cbn [retire_batteries].
    destruct (map_find i entries) as [b0 |] eqn:Hfind.
    + destruct (IH (map_erase i entries)
                  (vector_set indices (Z.to_nat i) (dispatch_resilience.get_indices_survived b0))
                  (vector_set loads (Z.to_nat i) (dispatch_resilience.get_met_loads b0))
                  (map_erase_NoDup i entries Hnd)) as (H1 & H2 & H3).
      repeat split; trivial.
      * pose proof (map_erase_length i entries). lia.
      * apply H3 in H. destruct H as [H _]. now apply (map_erase_In i k b entries Hnd) in H.
      * apply H3 in H. destruct H as [H Hn].
        apply (map_erase_In i k b entries Hnd) in H. cbn. intros [Heq | Hin]; [| tauto].
        destruct H. congruence.
      * intros [Hin Hn]. apply H3. split; [| cbn in Hn; tauto].
        apply (map_erase_In i k b entries Hnd). split; [exact Hin|].
        intros ->. apply Hn. now left.
    + destruct (IH entries indices loads Hnd) as (H1 & H2 & H3).
      repeat split; trivial.
      * now apply H3 in H.
      * apply H3 in H. destruct H as [Hin Hn]. cbn. intros [<- | Hr]; [| contradiction].
        apply map_find_keys in Hfind. apply Hfind. now apply (in_map fst) in Hin.
      * intros [Hin Hn]. apply H3. split; [exact Hin | cbn in Hn; tauto].
Qed.

(** X24. [run_surviving_batteries] never meets the misuse error of the
    outage steps, because it picks the step by the connection of each
    battery.  Afterwards the map holds exactly the batteries that survived the
    step, each in the state the step left it in, still one per start index,
    and their number has not grown. *)
Theorem run_surviving_batteries_keeps_survivors (r : t dispatch_t) :
  NoDup (map fst (battery_per_outage_start r)) ->
  exists r',
    run_surviving_batteries tolerance reset dispatch_ac_outage_step dispatch_dc_outage_step
      r crit_loads_kwac pv_kwac pv_kwdc V pv_clipped_kw tdry_c = Ok r'
    /\ (forall k b',
          In (k, b') (battery_per_outage_start r') <->
          exists b, In (k, b) (battery_per_outage_start r) /\ step b = (b', Ok true))
    /\ NoDup (map fst (battery_per_outage_start r'))
    /\ (get_n_surviving_batteries r' <= get_n_surviving_batteries r)%nat.
Proof.
  intros Hnd. unfold run_surviving_batteries.
  destruct (step_batteries_returns (battery_per_outage_start r) (indices_survived r))
    as (entries & depleted & indices & Hstep & Hall & Hdep & Hlen).
  rewrite Hstep. cbn [bind].
  assert (Hkeys : map fst entries = map fst (battery_per_outage_start r)).
  { clear - Hall. induction Hall as [| e e' l l' [He _] _ IH]; cbn; [reflexivity|].
    now rewrite He, IH. }
  assert (Hnd' : NoDup (map fst entries)) by now rewrite Hkeys.
  destruct (retire_batteries_entries depleted entries indices (total_load_met r) Hnd')
    as (H1 & H2 & H3).
  destruct (retire_batteries depleted entries indices (total_load_met r))
    as [[final indices'] loads'].
  cbn [fst] in H1, H2, H3.
  eexists. split; [reflexivity|].
  cbn [battery_per_outage_start]. unfold get_n_surviving_batteries.
  cbn [battery_per_outage_start].
  split; [| split; [exact H1|]].
  - intros k b'. rewrite H3. split.
    + intros [Hin Hn].
      assert (Hb : exists b, In (k, b) (battery_per_outage_start r) /\ fst (step b) = b').
      { clear - Hall Hin. induction Hall as [| [k0 b0] [k1 b1] l l' [He Hs] _ IH];
          [contradiction|]. cbn [fst snd] in He, Hs. subst k1.
        destruct Hin as [Heq | Hin].
        - injection Heq as <- <-. exists b0. split; [now left | exact Hs].
        - destruct (IH Hin) as (b & Hb & Hs'). exists b. split; [now right | exact Hs']. }
      destruct Hb as (b & Hb & Hfst). exists b. split; [exact Hb|].
      destruct (run_outage_step_returns b) as (b1 & survived & Hrun).
      rewrite Hrun in Hfst |- *. cbn [fst] in Hfst. subst b1.
      destruct survived; [reflexivity|].
      elim Hn. apply Hdep. exists b. split; [exact Hb | now rewrite Hrun].
    + intros (b & Hb & Hrun). split.
      * clear - Hall Hb Hrun. induction Hall as [| [k0 b0] [k1 b1] l l' [He Hs] _ IH];
          [contradiction|]. cbn [fst snd] in He, Hs. subst k1.
        destruct Hb as [Heq | Hb].
        -- injection Heq as <- <-. left. rewrite Hrun in Hs. cbn in Hs. now subst.
        -- right. now apply IH.
      * intros Hin. apply Hdep in Hin as (b0 & Hb0 & Hs0).
        assert (b0 = b).
        { clear - Hnd Hb Hb0. induction (battery_per_outage_start r) as [| [k1 b1] l IH];
            [contradiction|]. cbn in Hnd. inversion Hnd as [| ? ? Hnot Hnd']; subst.
          destruct Hb as [Heq | Hb]; destruct Hb0 as [Heq0 | Hb0].
          - congruence.
          - injection Heq as <- <-. elim Hnot. now apply (in_map fst) in Hb0.
          - injection Heq0 as <- <-. elim Hnot. now apply (in_map fst) in Hb.
          - now apply IH. }
        subst b0. rewrite Hrun in Hs0. discriminate.
  - rewrite (Forall2_length Hall). exact H2.
Qed.

End RunnerSteps.

(** X24 at a runner with a DC-connected and an AC-connected battery. *)
Lemma run_surviving_batteries_keeps_survivors_scenario :
  NoDup (map fst (resilience_runner.battery_per_outage_start Examples.runner_with_batteries))
  /\ exists r',
       resilience_runner.run_surviving_batteries (1 / 1000) (fun b => b)
         (fun d _ => d) (fun d _ => d) Examples.runner_with_batteries 2 1 1 0 0 25 = Ok r'
       /\ (resilience_runner.get_n_surviving_batteries r' <= 2)%nat.
Proof.
  assert (H : NoDup (map fst (resilience_runner.battery_per_outage_start
                                Examples.runner_with_batteries))).
  { cbn. constructor; [intros [Heq | []]; discriminate|].
    constructor; [intros [] | constructor]. }
  split; [exact H|].
  destruct (run_surviving_batteries_keeps_survivors unit (1 / 1000) (fun b => b)
              (fun d _ => d) (fun d _ => d) 2 1 1 0 0 25 Examples.runner_with_batteries H)
    as (r' & Hrun & _ & _ & Hn).
  exists r'. split; [exact Hrun | exact Hn].
Defined.

(** ** The cutoff-adjusted capacity of the dynamic model *)

(** X28. The cutoff-adjusted capacity is the capacity at which an emptied
    cell stands at the cutoff voltage: with a non-zero cutoff voltage, a
    non-zero [K] and a non-zero capacity [Q], the model voltage of a cell with
    no charge left, under the current [Q * C_rate], is exactly [Vcut] (as long
    as the ratio [C] the adjustment divides by is not 1). *)
Theorem dynamic_cutoff_capacity (m : voltage_dynamic_t.t) (Q : R) :
  Vcut (dynamic (voltage_dynamic_t.params m)) <> 0 ->
  voltage_dynamic_t._K m <> 0 ->
  Q <> 0 ->
  (-1 * Vcut (dynamic (voltage_dynamic_t.params m)) + voltage_dynamic_t._E0 m
   - resistance (voltage_dynamic_t.params m) * Q * C_rate (dynamic (voltage_dynamic_t.params m))
   + voltage_dynamic_t._A m * exp (- voltage_dynamic_t._B0 m * Q)) / voltage_dynamic_t._K m
  <> 1 ->
  voltage_dynamic_t.voltage_model_tremblay_hybrid m Q
    (Q * C_rate (dynamic (voltage_dynamic_t.params m))) 0
  = Vcut (dynamic (voltage_dynamic_t.params m)).
Proof.
  intros Hcut HK HQ HC.
  unfold voltage_dynamic_t.voltage_model_tremblay_hybrid, voltage_dynamic_t.calculate_Qfull_mod.
  rewrite (deq_false _ _ Hcut). cbn [negb].
  set (e := exp (- voltage_dynamic_t._B0 m * Q)) in *.
  replace (Q - 0) with Q by lra. fold e.
  set (C := (_ / voltage_dynamic_t._K m)) in *.
  replace ((Q + Q / (C - 1)) / (Q + Q / (C - 1) - Q)) with C by (field; split; lra).
  subst C. field. exact HK.
Qed.

(** X28 at the scenario of the specification, at its full capacity. *)
Lemma dynamic_cutoff_capacity_scenario :
  voltage_dynamic_t.voltage_model_tremblay_hybrid
    (Tremblay.model Examples.dynamic_scenario {| cell_voltage := 41 / 10; Q_full_mod := 225 / 100 |})
    (225 / 100) (225 / 100 * 1) 0
  = 275 / 100.
Proof.
  destruct dynamic_scenario_constants as (_ & _ & HK & _).
  apply (dynamic_cutoff_capacity
           (Tremblay.model Examples.dynamic_scenario
              {| cell_voltage := 41 / 10; Q_full_mod := 225 / 100 |}) (225 / 100)).
  - cbn. lra.
  - cbn [Tremblay.model voltage_dynamic_t._K]. lra.
  - lra.
  - cbn [Tremblay.model voltage_dynamic_t.params voltage_dynamic_t._A voltage_dynamic_t._B0
         voltage_dynamic_t._K voltage_dynamic_t._E0].
    set (K := Tremblay.K Examples.dynamic_scenario) in *.
    set (e := exp (- Tremblay.B0 Examples.dynamic_scenario * (225 / 100))).
    assert (He : 0 < e) by apply exp_pos.
    intros HC.
    assert (HC' : (13 / 10 + 5 / 100 * e) / K = 0).
    { rewrite <- (Rminus_diag_eq _ _ HC).
      unfold Tremblay.E0, Tremblay.A. fold K. cbn. field. lra. }
    assert (0 < (13 / 10 + 5 / 100 * e) / K) by (apply Rdiv_lt_0_compat; lra).
    lra.
Defined.
